(** * city-defender: a shallow embedding of [threads.c]

    The program is a curses game.  A defender thread moves a five-cell shield,
    an attacker thread launches missile threads in packets, and every missile
    thread walks down one screen column until it hits the shield or the city.
    All threads share the curses window, the [Game] record and one mutex.

    Modelling conventions.
    - A C [int] is a [Z].  Signed overflow is undefined in C, so the model
      covers the runs in which it does not occur; the only place where the
      code itself guards against overflow ([strInt]) keeps its guard, written
      with C's truncating division [Z.quot].
    - The curses window is a list of rows of cells; [mvinch], [mvdelch] and
      [mvinsch] act on it as curses does (delete shifts the rest of the row to
      the left, insert shifts it to the right).  [refresh] only copies the
      window to the terminal and has no counterpart.
    - Every critical section of the source (the code between
      [pthread_mutex_lock] and [pthread_mutex_unlock]) is one atomic step of
      the thread that runs it; the threads interleave step by step. *)

From Stdlib Require Import ZArith Lia Bool Ascii String.
From stdpp Require Import prelude strings relations.

Local Open Scope string_scope.
Local Open Scope Z_scope.

(** ** C constants *)

Definition INT_MAX : Z := 2147483647.
Definition EXIT_FAILURE : Z := 1.
Definition MAX_DELAY_MS : Z := 300.

(** The code of a character, as [str[i]] converted to [int]. *)
Definition char_code (c : ascii) : Z := Z.of_N (N_of_ascii c).

(** ** [strInt]: string to integer (threads.c, lines 116-129) *)

(** The [for] loop of [strInt]; [i] is the loop index, [sum] the
    accumulator.  [None] is the early [return 0]. *)
Fixpoint strInt_loop (i : nat) (str : string) (sum : Z) : option Z :=
  match str with
  | EmptyString => Some sum
  | String ch rest =>
      if Nat.eqb i 0 && Ascii.eqb ch "-" then strInt_loop (S i) rest sum
      else
        let digit := char_code ch - char_code "0" in
        if (digit <? 0) || (digit >? 9) then None
        else if negb (sum =? 0) && (Z.quot (INT_MAX - digit) sum <? 10)
        then None
        else strInt_loop (S i) rest (sum * 10 + digit)
  end.

(** [strInt str] is [Some v] when the source returns 1 and stores [v] in
    [*val], and [None] when it returns 0 (and leaves [*val] alone). *)
Definition strInt (str : string) : option Z :=
  match strInt_loop 0 str 0 with
  | None => None
  | Some sum =>
      match str with
      | EmptyString => None
      | String "-" EmptyString => None
      | String "-" _ => Some (- sum)
      | String _ _ => Some sum
      end
  end.

(** ** The records of the game (threads.c, lines 31-68) *)

(** [gameOver] in [Defender] and [Attacker] is a pointer to the one flag of
    [Game]; the model keeps the single flag in [Game] and lets both threads
    read and write it there.  [shield] is the constant ["#####"]. *)
Record Defender := {
  d_name : option string;
  shieldY : Z;
  shieldX : Z
}.

Record Attacker := {
  a_name : option string;
  totalMissiles : Z
}.

(** [size] of the source is the length of [layout]; [cap] only sizes the
    allocation. *)
Record Game := {
  defender : Defender;
  attacker : Attacker;
  layout : list Z;
  tallest : Z;
  gameOver : bool
}.

Record Missile := {
  mx : Z;
  my : Z;
  mc : ascii
}.

Definition size (g : Game) : Z := Z.of_nat (length (layout g)).

(** [game->layout[x]] for an index inside the array. *)
Definition layout_at (g : Game) (x : Z) : Z :=
  default 0 (layout g !! Z.to_nat x).

Definition set_gameOver (b : bool) (g : Game) : Game :=
  {| defender := defender g; attacker := attacker g; layout := layout g;
     tallest := tallest g; gameOver := b |}.

Definition set_layout (l : list Z) (g : Game) : Game :=
  {| defender := defender g; attacker := attacker g; layout := l;
     tallest := tallest g; gameOver := gameOver g |}.

Definition set_defender (d : Defender) (g : Game) : Game :=
  {| defender := d; attacker := attacker g; layout := layout g;
     tallest := tallest g; gameOver := gameOver g |}.

Definition set_attacker (a : Attacker) (g : Game) : Game :=
  {| defender := defender g; attacker := a; layout := layout g;
     tallest := tallest g; gameOver := gameOver g |}.

Definition set_shield (y x : Z) (d : Defender) : Defender :=
  {| d_name := d_name d; shieldY := y; shieldX := x |}.

Definition set_totalMissiles (n : Z) (a : Attacker) : Attacker :=
  {| a_name := a_name a; totalMissiles := n |}.

(** ** [createGame]: the configuration file (threads.c, lines 137-240) *)

(** What the process wrote on the error stream before [exit(EXIT_FAILURE)]:
    a fixed text (given without its newline), the output of [perror], or the
    message about the height of the terminal. *)
Inductive ErrMsg :=
  | ErrText (msg : string)
  | ErrPerror (what : string)
  | ErrHeight (h : Z).

Inductive Outcome (A : Type) :=
  | Ok (a : A)
  | Fatal (e : ErrMsg).
Arguments Ok {A} a.
Arguments Fatal {A} e.

(** [str[strlen(str) - 1] = '\0']: drop the last character. *)
Fixpoint strip_last (s : string) : string :=
  match s with
  | EmptyString => EmptyString
  | String _ EmptyString => EmptyString
  | String c rest => String c (strip_last rest)
  end.

(** [strndup(str, n)]. *)
Fixpoint strndup (s : string) (n : nat) : string :=
  match n, s with
  | S n', String c rest => String c (strndup rest n')
  | _, _ => EmptyString
  end.

(** The tokens [strtok(str, " ")] returns one after the other; [cur] is the
    token being read, reversed. *)
Fixpoint strtok_go (s : string) (cur : string) : list string :=
  match s with
  | EmptyString =>
      match cur with EmptyString => [] | _ => [String.rev cur] end
  | String c rest =>
      if Ascii.eqb c " " then
        match cur with
        | EmptyString => strtok_go rest EmptyString
        | _ => String.rev cur :: strtok_go rest EmptyString
        end
      else strtok_go rest (String c cur)
  end.

Definition strtok (s : string) : list string := strtok_go s EmptyString.

(** The [while (token != NULL)] loop of a layout line: a token that
    [strInt] accepts is appended and may raise [tallest]; another token is
    skipped. *)
Fixpoint layout_tokens (toks : list string) (g : Game) : Game :=
  match toks with
  | [] => g
  | tok :: rest =>
      match strInt tok with
      | Some v =>
          layout_tokens rest
            {| defender := defender g; attacker := attacker g;
               layout := layout g ++ [v];
               tallest := if v >? tallest g then v else tallest g;
               gameOver := gameOver g |}
      | None => layout_tokens rest g
      end
  end.

(** Line 2 of the configuration, the missile specification
    (threads.c, lines 188-199). *)
Definition missile_line (str : string) (g : Game) : Outcome Game :=
  match strInt str with
  | None => Fatal (ErrText "Error: missing missile specification.")
  | Some n =>
      if n <? 0 then Fatal (ErrText "Error: missile specification < 0.")
      else Ok (set_attacker
                 (set_totalMissiles (if n =? 0 then -1 else n) (attacker g)) g)
  end.

(** [str[0] == '#']: a line [createGame] skips. *)
Definition is_comment (raw : string) : bool :=
  match raw with
  | String "#" _ => true
  | _ => false
  end.

(** The [getline] loop.  [lines] are the lines as [getline] returns them
    (with their newline), [line] counts the lines that are not comments. *)
Fixpoint read_lines (lines : list string) (line : nat) (g : Game)
  : Outcome (nat * Game) :=
  match lines with
  | [] => Ok (line, g)
  | raw :: more =>
      if is_comment raw then read_lines more line g
      else
        let str := strip_last raw in
        match line with
        | O =>
            read_lines more 1%nat
              (set_defender
                 {| d_name := Some (strndup str 80);
                    shieldY := shieldY (defender g);
                    shieldX := shieldX (defender g) |} g)
        | 1%nat =>
            read_lines more 2%nat
              (set_attacker
                 {| a_name := Some (strndup str 80);
                    totalMissiles := totalMissiles (attacker g) |} g)
        | 2%nat =>
            match missile_line str g with
            | Fatal e => Fatal e
            | Ok g' => read_lines more 3%nat g'
            end
        | _ => read_lines more (S line) (layout_tokens (strtok str) g)
        end
  end.

(** The game before the first line is read.  The fields the source leaves
    uninitialised ([totalMissiles], [shieldY], [shieldX]) are 0 here; they are
    written before they are read. *)
Definition empty_game : Game :=
  {| defender := {| d_name := None; shieldY := 0; shieldX := 0 |};
     attacker := {| a_name := None; totalMissiles := 0 |};
     layout := []; tallest := 0; gameOver := false |}.

(** [file] is [None] when [fopen] fails.  Allocation is taken to succeed. *)
Definition createGame (filename : string) (file : option (list string))
  : Outcome Game :=
  match file with
  | None => Fatal (ErrPerror filename)
  | Some lines =>
      match read_lines lines 0 empty_game with
      | Fatal e => Fatal e
      | Ok (line, g) =>
          if (line <? 4)%nat then
            Fatal (ErrText
              match line with
              | 0%nat => "Error: missing defender name."
              | 1%nat => "Error: missing attacker name."
              | 2%nat => "Error: missing missile specification."
              | _ => "Error: missing city layout."
              end)
          else Ok g
      end
  end.

(** ** The curses window *)

(** [stdscr]: the rows of the window, top row first. *)
Abbreviation Screen := (list (list ascii)).

(** What [(char) ERR] is; curses returns [ERR] for a position outside the
    window.  It differs from every glyph the game compares with. *)
Definition ERR : ascii := ascii_of_N 255.

Definition blank_screen (h w : Z) : Screen :=
  replicate (Z.to_nat h) (replicate (Z.to_nat w) " "%char).

Definition mvinch (scr : Screen) (y x : Z) : ascii :=
  if (y <? 0) || (x <? 0) then ERR
  else match scr !! Z.to_nat y with
       | Some r => default ERR (r !! Z.to_nat x)
       | None => ERR
       end.

(** [isprint] in the C locale, which is the locale of the program: the
    characters that take one cell of the window.  (Curses writes a tab as a
    run of blanks and another control character as two cells, a caret and a
    letter.) *)
Definition printable (c : ascii) : bool :=
  (32 <=? char_code c) && (char_code c <=? 126).

Fixpoint all_printable (s : string) : bool :=
  match s with
  | EmptyString => true
  | String c rest => printable c && all_printable rest
  end.

(** [delch]: the cells right of [x] move one to the left and the last cell
    of the row becomes blank. *)
Definition delch_row (x : nat) (r : list ascii) : list ascii :=
  if (x <? length r)%nat then take x r ++ drop (S x) r ++ [" "%char] else r.

(** [insch] of a printable character [ch]: the cells from [x] on move one
    to the right and the last cell of the row is lost.  The game draws with
    the printable glyphs [' '], ['#'], ['*'], ['?'], ['_'] and ['|']; the
    properties of messages, whose text comes from the configuration, are
    stated for printable text. *)
Definition insch_row (x : nat) (ch : ascii) (r : list ascii) : list ascii :=
  if (x <? length r)%nat then take (length r) (take x r ++ ch :: drop x r)
  else r.

Definition mvdelch (scr : Screen) (y x : Z) : Screen :=
  if (y <? 0) || (x <? 0) then scr
  else alter (delch_row (Z.to_nat x)) (Z.to_nat y) scr.

Definition mvinsch (scr : Screen) (y x : Z) (ch : ascii) : Screen :=
  if (y <? 0) || (x <? 0) then scr
  else alter (insch_row (Z.to_nat x) ch) (Z.to_nat y) scr.

(** [mvdelch(y, x); mvinsch(y, x, ch);], the pair the game uses to overwrite
    a cell with a printable character. *)
Definition put (scr : Screen) (y x : Z) (ch : ascii) : Screen :=
  mvinsch (mvdelch scr y x) y x ch.

Section Field.

(** The globals [height] and [width], set once by [getmaxyx] in [main]. *)
Variables height width : Z.

(** ** [initDisplay] (threads.c, lines 247-293) *)

(** [for (int j = lo; j <= height - 2; j++) mvinsch(j, x, '|');] *)
Definition wall (scr : Screen) (lo x : Z) : Screen :=
  foldl (fun s j => mvinsch s j x "|"%char) scr (seqZ lo (height - 2 - lo + 1)).

(** The end of a roof: when the cell left of column [i] on the previous
    roof row holds ['_'], it is deleted and a wall is drawn below it. *)
Definition close_roof (scr : Screen) (prev i : Z) : Screen :=
  if Ascii.eqb (mvinch scr (height - prev) (i - 1)) "_" then
    wall (mvdelch scr (height - prev) (i - 1)) (height - prev + 1) (i - 1)
  else scr.

(** One round of the column loop; the state is the window and [prev]. *)
Definition initDisplay_column (g : Game) (st : Screen * Z) (i : Z)
  : Screen * Z :=
  let '(scr, prev) := st in
  let curr := if i >? size g - 1 then 2 else layout_at g i in
  let scr' :=
    if curr >? 2 then
      if curr =? prev then mvinsch scr (height - curr) i "_"
      else if curr <? prev then
        mvinsch (close_roof scr prev i) (height - curr) i "_"
      else if curr >? prev then wall scr (height - curr + 1) i
      else scr
    else if (curr =? 1) || (curr =? 2) then
      mvinsch (if prev >? 2 then close_roof scr prev i else scr)
              (height - curr) i "_"
    else scr in
  (scr', curr).

(** [initDisplay] draws the city and the shield and places the shield. *)
Definition initDisplay (scr : Screen) (g : Game) : Screen * Game :=
  let scr1 := fst (foldl (initDisplay_column g) (scr, 2) (seqZ 0 width)) in
  let sy := height - (if tallest g <? 2 then 2 else tallest g) - 2 in
  let sx := Z.quot width 2 - 2 in
  let scr2 :=
    foldl (fun s _ => mvinsch s sy sx "#"%char) scr1
          (seq 0 (String.length "#####")) in
  (scr2, set_defender (set_shield sy sx (defender g)) g).

(** ** [displayMessage] (threads.c, lines 305-336) *)

(** The [while] loop that looks for a free row; [None] is its [return 0].
    [fuel] bounds the rounds, each of which increments [r]. *)
Fixpoint displayMessage_row (fuel : nat) (scr : Screen) (r c : Z) : option Z :=
  match fuel with
  | O => Some r
  | S fuel' =>
      if (c =? 0) && negb (Ascii.eqb (mvinch scr r c) " ")
                  && negb (Ascii.eqb (mvinch scr r c) "|") then
        if (r =? 0) || (r =? 1) then Some r
        else if r + 1 >=? height then None
        else displayMessage_row fuel' scr (r + 1) c
      else Some r
  end.

(** The [for] loop that writes the characters; [None] is its [return 0]
    (the window keeps what was written before). *)
Fixpoint displayMessage_chars (str : string) (scr : Screen) (r c : Z)
  : Screen * option Z :=
  match str with
  | EmptyString => (scr, Some c)
  | String ch rest =>
      if Z.quot c width + r >=? height then (scr, None)
      else displayMessage_chars rest
             (put scr (Z.quot c width + r) (Z.rem c width) ch) r (c + 1)
  end.

(** [displayMessage str &r &c b]: the window, the new [*r] and [*c], and
    the returned flag. *)
Definition displayMessage (scr : Screen) (str : string) (r c : Z) (b : bool)
  : Screen * Z * Z * bool :=
  if (r >=? height) || (r <? 0) then (scr, r, c, false)
  else
    match displayMessage_row (Z.to_nat height) scr r c with
    | None => (scr, r, c, false)
    | Some r1 =>
        let skip := negb (r1 =? 0) && negb (r1 =? 1) && b && (r1 >? 0)
                    && negb (Ascii.eqb (mvinch scr (r1 - 1) 0) " ") in
        if skip && (r1 + 1 >=? height) then (scr, r, c, false)
        else
          let r2 := if skip then r1 + 1 else r1 in
          match displayMessage_chars str scr r2 c with
          | (scr', None) => (scr', r, c, false)
          | (scr', Some c') => (scr', r2 + Z.quot c' width, c', true)
          end
    end.

(** The pattern around every announcement: try at the global [row], and
    on failure write from row 1 and keep the larger row. *)
Definition say (str : string) (b : bool) (st : Screen * Z * Z)
  : Screen * Z * Z :=
  let '(scr, row, col) := st in
  let '(scr1, row1, col1, ok) := displayMessage scr str row col b in
  if ok then (scr1, row1, col1)
  else
    let '(scr2, row_temp, col2, _) := displayMessage scr1 str 1 col1 false in
    (scr2, if row_temp >? row1 then row_temp else row1, col2).

End Field.

(** ** The threads *)

(** Where a missile thread is: before its first critical section, inside
    its [while] loop, or returned. *)
Inductive MPc := MStart | MLoop | MDone.

(** A missile thread: its [struct Missile], its local [prevc], and the number
    of loop rounds it has run (a counter the proofs use; the source has
    none). *)
Record MissileThread := {
  m_pc : MPc;
  missile : Missile;
  prevc : ascii;
  ticks : nat
}.

(** Where the defender thread is: at the test of its [while], inside
    [getch], before its closing announcement, or returned. *)
Inductive DefPc := DefTest | DefGetch | DefAnnounce | DefDone.

Record DefThread := {
  d_pc : DefPc;
  d_b : bool
}.

(** Where the attacker thread is: at its start, at the test of the outer
    [while], at the test of the inner [while], at the [if] after
    [pthread_create], at the joins, before its closing announcement, or
    returned. *)
Inductive AtkPc :=
  AtkStart | AtkOuter | AtkInner | AtkTest | AtkJoin | AtkAnnounce | AtkDone.

(** The attacker's locals [packetSize] and [i], and the number of missile
    threads it has created so far (a counter the proofs use). *)
Record AtkThread := {
  a_pc : AtkPc;
  packetSize : Z;
  a_i : Z;
  spawned : nat
}.

(** Everything the threads share, and the threads.  [batch] holds the missile
    threads of the current packet, [missiles[0 .. i-1]] of the source. *)
Record World := {
  scr : Screen;
  game : Game;
  row : Z;
  col : Z;
  dth : DefThread;
  ath : AtkThread;
  batch : list MissileThread
}.

Definition with_scr (s : Screen) (w : World) : World :=
  {| scr := s; game := game w; row := row w; col := col w;
     dth := dth w; ath := ath w; batch := batch w |}.

Definition with_game (g : Game) (w : World) : World :=
  {| scr := scr w; game := g; row := row w; col := col w;
     dth := dth w; ath := ath w; batch := batch w |}.

Definition with_msg (st : Screen * Z * Z) (w : World) : World :=
  {| scr := st.1.1; game := game w; row := st.1.2; col := st.2;
     dth := dth w; ath := ath w; batch := batch w |}.

Definition with_dth (d : DefThread) (w : World) : World :=
  {| scr := scr w; game := game w; row := row w; col := col w;
     dth := d; ath := ath w; batch := batch w |}.

Definition with_ath (a : AtkThread) (w : World) : World :=
  {| scr := scr w; game := game w; row := row w; col := col w;
     dth := dth w; ath := a; batch := batch w |}.

Definition with_batch (b : list MissileThread) (w : World) : World :=
  {| scr := scr w; game := game w; row := row w; col := col w;
     dth := dth w; ath := ath w; batch := b |}.

Definition at_pc (p : AtkPc) (a : AtkThread) : AtkThread :=
  {| a_pc := p; packetSize := packetSize a; a_i := a_i a;
     spawned := spawned a |}.

(** Key codes of [getch]: ['q'], and [KEY_LEFT] and [KEY_RIGHT] of
    [ncurses.h] (octal 0404 and 0405). *)
Definition KEY_LEFT : Z := 260.
Definition KEY_RIGHT : Z := 261.

(** [strerror(errno)] after a failed [calloc]. *)
Definition strerror_ENOMEM : string := "Cannot allocate memory".

Section Threads.

Variables height width : Z.

(** *** The missile thread: [launchMissile] (threads.c, lines 412-462) *)

(** [(x > game->size - 1) ? 2 : game->layout[x]] *)
Definition column_height (g : Game) (x : Z) : Z :=
  if x >? size g - 1 then 2 else layout_at g x.

(** The row at which a missile in column [x] hits the city. *)
Definition impact_row (g : Game) (x : Z) : Z :=
  height - column_height g x + 1.

(** The critical section before the loop (lines 414-419). *)
Definition launchMissile_start (s : Screen) (m : Missile) : Screen * ascii :=
  let pc := if Ascii.eqb (mvinch s (my m) (mx m)) "|" then " "%char
            else mvinch s (my m) (mx m) in
  (put s (my m) (mx m) (mc m), pc).

(** The cell the missile is about to enter, [c] of line 427; [s] is the
    window after the missile has been erased from its old cell. *)
Definition cell_ahead (s : Screen) (y x : Z) : ascii :=
  if y >=? height then " "%char else mvinch s y x.

(** The critical section of one round of the loop (lines 422-458). *)
Definition launchMissile_tick (s : Screen) (g : Game) (m : Missile) (pc : ascii)
  : Screen * Game * Missile * ascii :=
  let x := mx m in
  let s1 := if my m <? height then put s (my m) x pc else s in
  let y := my m + 1 in
  let c := cell_ahead s1 y x in
  let '(g', mc', pc') :=
    if Ascii.eqb c "#" || (Ascii.eqb c "*" && (y <? height - tallest g)) then
      (g, "*"%char, pc)
    else if y =? impact_row g x then
      (if (x <? size g) && negb (layout_at g x =? 2) then
         set_layout (<[Z.to_nat x := layout_at g x - 1]> (layout g)) g
       else g,
       "*"%char, pc)
    else if Ascii.eqb c "|" || Ascii.eqb c "_" || Ascii.eqb c "?"
            || Ascii.eqb c "*" then
      (g, mc m, " "%char)
    else (g, mc m, c) in
  let s2 := if y <? height then put s1 y x mc' else s1 in
  let s3 := if Ascii.eqb mc' "*" && (y <=? height) then put s2 (y - 1) x "?"
            else s2 in
  (s3, g', {| mx := x; my := y; mc := mc' |}, pc').

(** The loop control: [if (y > height) break;] at the end of a round, then
    the test [c != '*'] of the [while]. *)
Definition missile_next (m : Missile) : MPc :=
  if my m >? height then MDone
  else if Ascii.eqb (mc m) "*" then MDone else MLoop.

(** One step of the missile thread in slot [k]. *)
Definition missile_step (k : nat) (w : World) : option World :=
  match batch w !! k with
  | None => None
  | Some t =>
      match m_pc t with
      | MStart =>
          let '(s, pc) := launchMissile_start (scr w) (missile t) in
          Some (with_scr s (with_batch
            (<[k := {| m_pc := if Ascii.eqb (mc (missile t)) "*" then MDone
                               else MLoop;
                       missile := missile t; prevc := pc;
                       ticks := ticks t |}]> (batch w)) w))
      | MLoop =>
          let '(s, g, m, pc) :=
            launchMissile_tick (scr w) (game w) (missile t) (prevc t) in
          Some (with_scr s (with_game g (with_batch
            (<[k := {| m_pc := missile_next m; missile := m; prevc := pc;
                       ticks := S (ticks t) |}]> (batch w)) w)))
      | MDone => None
      end
  end.

(** *** The defender thread: [startDef] (threads.c, lines 344-404) *)

(** The five [mvdelch]/[mvinsch] pairs that redraw the shield. *)
Definition draw_shield (s : Screen) (y x : Z) : Screen :=
  foldl (fun s' i => put s' y (x + i) "#"%char) s (seqZ 0 5).

(** The body of the loop after [getch] returned [c]: the window, the game
    and the local [b]. *)
Definition startDef_key (c : Z) (s : Screen) (g : Game) (b : bool)
  : Screen * Game * bool :=
  let d := defender g in
  if c =? char_code "q" then (s, set_gameOver true g, false)
  else if c =? KEY_LEFT then
    if shieldX d >? 0 then
      let s1 := put s (shieldY d) (shieldX d + 4) " "%char in
      (draw_shield s1 (shieldY d) (shieldX d - 1),
       set_defender (set_shield (shieldY d) (shieldX d - 1) d) g, b)
    else (s, g, b)
  else if c =? KEY_RIGHT then
    if shieldX d <? width - 5 then
      let s1 := put s (shieldY d) (shieldX d) " "%char in
      (draw_shield s1 (shieldY d) (shieldX d + 1),
       set_defender (set_shield (shieldY d) (shieldX d + 1) d) g, b)
    else (s, g, b)
  else (s, g, b).

(** The test of [while (!*ndefender->gameOver || b)]. *)
Definition startDef_test (g : Game) (b : bool) : bool :=
  negb (gameOver g) || b.

(** The closing announcement of a thread (lines 385-402 and 508-525). *)
Definition announce (name : option string) (what : string) (w : World)
  : World :=
  let st := say height width "The " true (scr w, row w, col w) in
  let st := say height width (default "" name) false st in
  let st := say height width what false st in
  with_msg (st.1, 0) w.

(** One step of the defender thread; [key] is what [getch] returns when the
    step is the [getch]. *)
Definition def_step (key : Z) (w : World) : option World :=
  match d_pc (dth w) with
  | DefTest =>
      Some (with_dth
        {| d_pc := if startDef_test (game w) (d_b (dth w)) then DefGetch
                   else DefAnnounce;
           d_b := d_b (dth w) |} w)
  | DefGetch =>
      let '(s, g, b) := startDef_key key (scr w) (game w) (d_b (dth w)) in
      Some (with_scr s (with_game g
        (with_dth {| d_pc := DefTest; d_b := b |} w)))
  | DefAnnounce =>
      Some (with_dth {| d_pc := DefDone; d_b := d_b (dth w) |}
        (announce (d_name (defender (game w))) " defense has ended." w))
  | DefDone => None
  end.

(** *** The attacker thread: [startAtk] (threads.c, lines 470-528) *)

Definition startAtk_packetSize : Z :=
  if width >? 32 then 8
  else if Z.quot width 4 =? 0 then width else Z.quot width 4.

(** What the attacker does when [calloc] returns [NULL] (lines 474-483). *)
Definition startAtk_nomem (w : World) : World :=
  let '(s1, r1, c1, _) :=
    displayMessage height width (scr w) "startAtk: " 1 (col w) false in
  let '(s2, r2, c2, _) :=
    displayMessage height width s1 strerror_ENOMEM r1 c1 false in
  with_game (set_gameOver true (game w))
    (with_msg (s2, if r2 >? row w then r2 else row w, 0) w).

(** The [if] after [pthread_create] (lines 495-497): the new
    [totalMissiles] and whether the attacker ends the game.  The counter is
    decremented only when the flag was clear and the counter positive. *)
Definition startAtk_test (g : Game) : Z * bool :=
  let n := totalMissiles (attacker g) in
  if gameOver g then (n, true)
  else if n >? 0 then (n - 1, n - 1 =? 0)
  else (n, false).

(** One step of the attacker thread.  [rnd] is what [rand()] returns when
    the step creates a missile, [calloc_ok] tells whether [calloc] succeeds
    when the step is the first. *)
Definition atk_step (rnd : Z) (calloc_ok : bool) (w : World) : option World :=
  let a := ath w in
  match a_pc a with
  | AtkStart =>
      let a' := {| a_pc := AtkOuter; packetSize := startAtk_packetSize;
                   a_i := a_i a; spawned := spawned a |} in
      Some (with_ath a' (if calloc_ok then w else startAtk_nomem w))
  | AtkOuter =>
      if gameOver (game w) then Some (with_ath (at_pc AtkAnnounce a) w)
      else Some (with_batch []
             (with_ath {| a_pc := AtkInner; packetSize := packetSize a;
                          a_i := 0; spawned := spawned a |} w))
  | AtkInner =>
      if a_i a <? packetSize a then
        if rnd <? 0 then None
        else
          let t := {| m_pc := MStart;
                      missile := {| mx := Z.rem rnd width; my := 2;
                                    mc := "|"%char |};
                      prevc := " "%char; ticks := 0 |} in
          Some (with_batch (batch w ++ [t])
                 (with_ath {| a_pc := AtkTest; packetSize := packetSize a;
                              a_i := a_i a + 1;
                              spawned := S (spawned a) |} w))
      else Some (with_ath (at_pc AtkJoin a) w)
  | AtkTest =>
      let '(n, stop) := startAtk_test (game w) in
      let g :=
        set_attacker (set_totalMissiles n (attacker (game w))) (game w) in
      if stop then
        Some (with_game (set_gameOver true g) (with_ath (at_pc AtkJoin a) w))
      else Some (with_game g (with_ath (at_pc AtkInner a) w))
  | AtkJoin =>
      if forallb (fun t => match m_pc t with MDone => true | _ => false end)
                 (batch w)
      then Some (with_ath (at_pc AtkOuter a) w)
      else None
  | AtkAnnounce =>
      Some (with_ath (at_pc AtkDone a)
        (announce (a_name (attacker (game w))) " attack has ended." w))
  | AtkDone => None
  end.

(** *** The program as a whole *)

(** Which thread moves, with what the environment gives it. *)
Inductive Label :=
  | Def (key : Z)
  | Atk (rnd : Z) (calloc_ok : bool)
  | Msl (k : nat).

Definition exec (l : Label) (w : World) : option World :=
  match l with
  | Def key => def_step key w
  | Atk rnd ok => atk_step rnd ok w
  | Msl k => missile_step k w
  end.

(** A schedule, run from [w]; [None] when some step of it is not enabled. *)
Fixpoint run (ls : list Label) (w : World) : option World :=
  match ls with
  | [] => Some w
  | l :: ls' =>
      match exec l w with
      | Some w' => run ls' w'
      | None => None
      end
  end.

(** ** [main] up to the creation of the two threads (threads.c, lines
    538-571) *)

Definition instructions : string :=
  "Enter 'q' to quit at end of attack, or control-C".

(** [height - ((game->tallest < 2) ? 2 : game->tallest) - 2 - 1 - 2 < 0] *)
Definition too_short (g : Game) : bool :=
  height - (if tallest g <? 2 then 2 else tallest g) - 2 - 1 - 2 <? 0.

(** The world in which [main] creates the defender and attacker threads. *)
Definition start_world (g : Game) : World :=
  let '(s, g') := initDisplay height width (blank_screen height width) g in
  let '(s', _, _, _) := displayMessage height width s instructions 0 0 false in
  {| scr := s'; game := g'; row := 2; col := 0;
     dth := {| d_pc := DefTest; d_b := true |};
     ath := {| a_pc := AtkStart; packetSize := 0; a_i := 0; spawned := 0 |};
     batch := [] |}.

End Threads.

(** What [main] did before it either exits or creates the threads. *)
Inductive Event :=
  | Stderr (e : ErrMsg)
  | Initscr
  | Endwin
  | Exit (code : Z).

(** [main]: [argc], the configuration file ([None] when it cannot be
    opened) and the size of the terminal give the events up to the creation
    of the threads and, unless the process has exited, the world the threads
    start in. *)
Definition main (argc : Z) (filename : string) (file : option (list string))
    (height width : Z) : list Event * option World :=
  if negb (argc =? 2) then
    ([Stderr (ErrText "Usage: threads config-file"); Exit EXIT_FAILURE], None)
  else
    match createGame filename file with
    | Fatal e => ([Stderr e; Exit EXIT_FAILURE], None)
    | Ok g =>
        if too_short height g then
          ([Initscr; Endwin; Stderr (ErrHeight height); Exit EXIT_FAILURE],
           None)
        else ([Initscr], Some (start_world height width g))
    end.

(** ** Numerals, as the configuration format describes them *)

(** A decimal digit. *)
Definition is_digit (c : ascii) : bool :=
  (char_code "0" <=? char_code c) && (char_code c <=? char_code "9").

Fixpoint all_digits (s : string) : bool :=
  match s with
  | EmptyString => true
  | String c rest => is_digit c && all_digits rest
  end.

(** The number a run of digits denotes, continuing from [acc]. *)
Fixpoint digits_value (acc : Z) (s : string) : Z :=
  match s with
  | EmptyString => acc
  | String c rest =>
      digits_value (acc * 10 + (char_code c - char_code "0")) rest
  end.

(** A numeric budget: an optional ['-'] and at least one digit. *)
Definition is_numeral (s : string) : bool :=
  match s with
  | EmptyString => false
  | String "-" EmptyString => false
  | String "-" rest => all_digits rest
  | _ => all_digits s
  end.

(** The number a numeral denotes. *)
Definition numeral_value (s : string) : Z :=
  match s with
  | String "-" rest => - digits_value 0 rest
  | _ => digits_value 0 s
  end.

(** [str[0] == '-'] *)
Definition starts_with_minus (s : string) : bool :=
  match s with
  | String "-" _ => true
  | _ => false
  end.

(** ** The lines of a configuration file *)

(** The lines that count: defender name, attacker name, missile
    specification, then the city layout. *)
Definition content (lines : list string) : list string :=
  filter (fun raw => is_comment raw = false) lines.

Definition newline : string := String "010" EmptyString.


(** The game when the missile specification is read: only the two names
    are set. *)
Definition named_game (d a : string) : Game :=
  set_attacker
    {| a_name := Some (strndup (strip_last a) 80); totalMissiles := 0 |}
    (set_defender {| d_name := Some (strndup (strip_last d) 80);
                     shieldY := 0; shieldX := 0 |} empty_game).

(** ** A sample configuration *)

(** Three city columns of height 3 and two of height 2, five missiles. *)
Definition siege_file : list string :=
  [ "# a small city" ++ newline;
    "Minas Tirith" ++ newline;
    "Mordor" ++ newline;
    "5" ++ newline;
    "3 3 3 2 2" ++ newline ].

Definition siege_game : Game :=
  {| defender :=
       {| d_name := Some "Minas Tirith"; shieldY := 0; shieldX := 0 |};
     attacker := {| a_name := Some "Mordor"; totalMissiles := 5 |};
     layout := [3; 3; 3; 2; 2];
     tallest := 3;
     gameOver := false |}.

(** The same city with the missile specification [-0]. *)
Definition minus_zero_file : list string :=
  [ "Minas Tirith" ++ newline;
    "Mordor" ++ newline;
    "-0" ++ newline;
    "3 3 3 2 2" ++ newline ].

(** The sample city on a terminal of 9 rows and 20 columns, as [main] hands
    it to the threads. *)
Definition siege_world : World := start_world 9 20 siege_game.

(** A schedule in which only the attacker moves: it starts, enters its
    loop, and creates [n] missiles in column 0, testing after each. *)
Definition launches (n : nat) : list Label :=
  [Atk 0 true; Atk 0 true] ++ concat (replicate n [Atk 0 true; Atk 0 true]).

(** The defender thread has left its loop. *)
Definition def_left (d : DefThread) : bool :=
  match d_pc d with
  | DefAnnounce | DefDone => true
  | _ => false
  end.

(** The defender has left its loop only if it has read the quit key, and
    then the flag is set. *)
Definition def_inv (w : World) : Prop :=
  (d_b (dth w) = false -> gameOver (game w) = true)
  /\ (def_left (dth w) = true -> d_b (dth w) = false).

(** The row of the roof of column [x]: the top of what is left of the
    structure in that column, computed from the column's own height. *)
Definition column_top (height : Z) (g : Game) (x : Z) : Z :=
  height - column_height g x.

(** A defender whose name is eighteen asterisks, over a city with one
    column of height 6. *)
Definition stars_file : list string :=
  [ "******************" ++ newline;
    "Mordor" ++ newline;
    "5" ++ newline;
    "6 2" ++ newline ].

Definition stars_game : Game :=
  {| defender := {| d_name := Some "******************";
                    shieldY := 0; shieldX := 0 |};
     attacker := {| a_name := Some "Mordor"; totalMissiles := 5 |};
     layout := [6; 2];
     tallest := 6;
     gameOver := false |}.

(** The attacker creates a missile in column 1; the defender reads the quit
    key and announces the end of the defense, its name wrapping over rows 4
    and 5; the missile then starts and falls to row 4. *)
Definition stars_schedule : list Label :=
  [ Atk 0 true; Atk 0 true; Atk 1 true;
    Def 0; Def (char_code "q"); Def 0; Def 0;
    Msl 0; Msl 0; Msl 0 ].

(** A city whose only column has height 0. *)
Definition ground_file : list string :=
  [ "Minas Tirith" ++ newline;
    "Mordor" ++ newline;
    "5" ++ newline;
    "0" ++ newline ].

Definition ground_game : Game :=
  {| defender :=
       {| d_name := Some "Minas Tirith"; shieldY := 0; shieldX := 0 |};
     attacker := {| a_name := Some "Mordor"; totalMissiles := 5 |};
     layout := [0];
     tallest := 0;
     gameOver := false |}.

(** What holds of every missile thread: each round of its loop has moved
    it one row down from row 2, and it is still looping only if it has not
    passed the last row. *)
Definition missile_inv (height : Z) (t : MissileThread) : Prop :=
  my (missile t) = 2 + Z.of_nat (ticks t)
  /\ match m_pc t with
     | MStart => ticks t = 0%nat
     | MLoop => my (missile t) <= Z.max 2 height /\ mc (missile t) <> "*"%char
     | MDone => my (missile t) <= Z.max 3 (height + 1)
     end.

(** ** Measures and invariants of the attack *)




(** A bound on the steps a missile thread still has to take. *)
Definition missile_fuel (height : Z) (t : MissileThread) : Z :=
  match m_pc t with
  | MStart => Z.max 0 (height + 1 - my (missile t)) + 2
  | MLoop => Z.max 0 (height + 1 - my (missile t)) + 1
  | MDone => 0
  end.











(** ** The city under erosion *)

(** No column of [after] is higher than it was in [before]. *)
Definition eroded (before after : list Z) : Prop :=
  Forall2 (fun h h' => h' <= h) before after.

(** Every column stands at the floor height 2 or above. *)
Definition above_floor (l : list Z) : Prop :=
  Forall (fun h => 2 <= h) l.

(** The attacker creates two missiles in column 0 of the sample city; the
    first falls and hits the column, the second starts and falls to row 6,
    just above the mark the first has left at row 7. *)
Definition chain_schedule : list Label :=
  launches 2 ++ replicate 6 (Msl 0) ++ replicate 5 (Msl 1).

(** ** Vocabulary for further properties of the code *)

(** A token: not empty, and without a space. *)
Fixpoint no_space (s : string) : bool :=
  match s with
  | EmptyString => true
  | String c rest => negb (Ascii.eqb c " ") && no_space rest
  end.

Definition is_token (s : string) : Prop := s <> "" /\ no_space s = true.

(** Tokens written one after the other, a space before each. *)
Fixpoint spaced (toks : list string) : string :=
  match toks with
  | [] => ""
  | tok :: rest => String " " (tok ++ spaced rest)
  end.

(** The city rows of a configuration, cut into tokens. *)
Definition city_tokens (rows : list string) : list string :=
  concat (map (fun raw => strtok (strip_last raw)) rows).

(** The window has [h] rows of [w] cells. *)
Definition window_size (h w : Z) (s : Screen) : Prop :=
  length s = Z.to_nat h /\ Forall (fun r => length r = Z.to_nat w) s.

(** The position is a cell of the window. *)
Definition in_window (s : Screen) (y x : Z) : Prop :=
  0 <= y /\ 0 <= x
  /\ exists r, s !! Z.to_nat y = Some r /\ (Z.to_nat x < length r)%nat.

(** The glyphs a missile does not restore when it moves on. *)
Definition wiped (c : ascii) : bool :=
  Ascii.eqb c "|" || Ascii.eqb c "_" || Ascii.eqb c "?" || Ascii.eqb c "*".

(** A missile thread has returned. *)
Definition returned (t : MissileThread) : bool :=
  match m_pc t with
  | MDone => true
  | _ => false
  end.

(** A missile is in a column of the field, from row 2 down, and shows
    ['|'] until it has returned. *)
Definition missile_placed (width : Z) (t : MissileThread) : Prop :=
  0 <= mx (missile t) < width
  /\ 2 <= my (missile t)
  /\ (returned t = false -> mc (missile t) = "|"%char).

(** The slots of the packet in use are counted by [i], which never passes
    [packetSize]. *)
Definition packet_slots (width : Z) (w : World) : Prop :=
  Z.of_nat (length (batch w)) = a_i (ath w)
  /\ match a_pc (ath w) with
     | AtkStart => a_i (ath w) = 0
     | _ => packetSize (ath w) = startAtk_packetSize width
            /\ a_i (ath w) <= packetSize (ath w)
     end.

(** The attacker is where it starts a packet or ends the attack. *)
Definition atk_between_packets (a : AtkThread) : bool :=
  match a_pc a with
  | AtkStart | AtkOuter | AtkAnnounce | AtkDone => true
  | _ => false
  end.

(** The missiles the attacker can still create once the flag is set. *)
Definition spawn_slack (a : AtkThread) : nat :=
  match a_pc a with
  | AtkInner => 1
  | _ => 0
  end.

(** The attack is over before a missile has been created: the flag is set,
    the attacker is past its start and outside its inner loop, and there is
    no missile thread. *)
Definition no_attack (w : World) : Prop :=
  gameOver (game w) = true
  /\ match a_pc (ath w) with
     | AtkOuter | AtkAnnounce | AtkDone => True
     | _ => False
     end
  /\ batch w = [].

(** A schedule in which the attacker sends a packet of five missiles down
    the columns 0 to 4, every missile falls onto its column, and the attacker
    joins them. *)
Definition volley_schedule : list Label :=
  [ Atk 0 true; Atk 0 true;
    Atk 0 true; Atk 0 true; Atk 1 true; Atk 1 true; Atk 2 true; Atk 2 true;
    Atk 3 true; Atk 3 true; Atk 4 true; Atk 4 true ]
  ++ replicate 6 (Msl 0) ++ replicate 6 (Msl 1) ++ replicate 6 (Msl 2)
  ++ replicate 7 (Msl 3) ++ replicate 7 (Msl 4) ++ [Atk 0 true].

(** The cell in which [displayMessage], writing from row [r0] and with
    [*c] at [c], puts the character number [i] of its message. *)
Definition message_cell (width r0 c : Z) (i : nat) : Z * Z :=
  (Z.quot (c + Z.of_nat i) width + r0, Z.rem (c + Z.of_nat i) width).

(** ** The city as [initDisplay] draws it *)

(** [prev] when [initDisplay] comes to column [x]. *)
Definition prev_height (g : Game) (x : Z) : Z :=
  if x =? 0 then 2 else column_height g (x - 1).

(** A column of height [h] after one of height [p] gets a roof: it is not
    higher than the one before, or it is 1 or 2 high. *)
Definition has_roof (p h : Z) : bool :=
  ((h >? 2) && (h <=? p)) || (h =? 1) || (h =? 2).

(** A column of height [n] after one of height [h] makes [initDisplay] look
    back at the roof of the column before. *)
Definition looks_back (h n : Z) : bool :=
  ((n >? 2) && (n <? h)) || (((n =? 1) || (n =? 2)) && (h >? 2)).

Section City.

Variables height width : Z.

(** The rows of a wall of a column of height [h]. *)
Definition wall_row (h y : Z) : bool :=
  (height - h <? y) && (y <=? height - 2).

(** What row [y] shows in a column of height [h] that follows a column of
    height [p] and is followed by a column of height [n], if any. *)
Definition column_glyph (p h : Z) (n : option Z) (y : Z) : ascii :=
  let closed :=
    match n with
    | Some n' => looks_back h n' && (h <=? p) && (h <=? height)
    | None => false
    end in
  if closed then (if wall_row h y then "|"%char else " "%char)
  else if has_roof p h then (if y =? height - h then "_"%char else " "%char)
  else if h >? 2 then (if wall_row h y then "|"%char else " "%char)
  else " "%char.

Definition city_glyph (g : Game) (y x : Z) : ascii :=
  column_glyph (prev_height g x) (column_height g x)
    (if x + 1 <? width then Some (column_height g (x + 1)) else None) y.

End City.

(** The city when the columns before [i] have been drawn. *)
Definition city_upto (height : Z) (g : Game) (i y x : Z) : ascii :=
  if x <? i then
    column_glyph height (prev_height g x) (column_height g x)
      (if x + 1 <? i then Some (column_height g (x + 1)) else None) y
  else " "%char.

(** A row [displayMessage] passes over when it looks for a place to start
    a line: below row 1, and with something other than a blank or a wall in
    its first cell. *)
Definition row_taken (s : Screen) (y : Z) : bool :=
  negb (Ascii.eqb (mvinch s y 0) " ") && negb (Ascii.eqb (mvinch s y 0) "|")
  && negb (y =? 0) && negb (y =? 1).

(** The missile threads created along a run: the steps that leave the
    packet one thread longer ([pthread_create], line 493). *)
Fixpoint created (height width : Z) (ls : list Label) (w : World) : nat :=
  match ls with
  | [] => 0
  | l :: ls' =>
      match exec height width l w with
      | Some w' =>
          ((if (length (batch w) <? length (batch w'))%nat then 1 else 0)
           + created height width ls' w')%nat
      | None => 0%nat
      end
  end.

(** The defender has read the quit key: [b] is clear, the flag is set, and
    the thread is not in [getch]. *)
Definition has_quit (w : World) : Prop :=
  d_b (dth w) = false /\ gameOver (game w) = true
  /\ d_pc (dth w) <> DefGetch.

(** * Properties *)

Lemma is_digit_code c :
  is_digit c = true <-> 0 <= char_code c - char_code "0" <= 9.
Proof.
  unfold is_digit. rewrite andb_true_iff, !Z.leb_le.
  change (char_code "0") with 48. change (char_code "9") with 57. lia.
Qed.

Lemma is_digit_not_minus c : is_digit c = true -> Ascii.eqb c "-" = false.
Proof.
  intros Hd. apply is_digit_code in Hd. apply Ascii.eqb_neq. intros ->.
  change (char_code "-") with 45 in Hd.
  change (char_code "0") with 48 in Hd. lia.
Qed.

Lemma digits_value_ge s : forall acc,
  all_digits s = true -> 0 <= acc -> acc <= digits_value acc s.
Proof.
  induction s as [|c s IH]; intros acc Hs Hacc; simpl in *; [lia|].
  apply andb_true_iff in Hs as [Hc Hs]. apply is_digit_code in Hc.
  specialize (IH (acc * 10 + (char_code c - char_code "0")) Hs). lia.
Qed.

(** The overflow guard of [strInt] passes exactly when the next value
    fits. *)
Lemma strInt_guard sum digit :
  0 <= sum -> 0 <= digit <= 9 ->
  negb (sum =? 0) && (Z.quot (INT_MAX - digit) sum <? 10) = false
  <-> sum * 10 + digit <= INT_MAX.
Proof.
  intros Hs Hd. unfold INT_MAX.
  destruct (Z.eqb_spec sum 0) as [->|Hne]; simpl; [lia|].
  rewrite Z.ltb_ge, Z.quot_div_nonneg by lia.
  split; intros H.
  - assert (10 * sum <= 2147483647 - digit); [|lia].
    etransitivity; [|apply (Z.mul_div_le _ sum); lia]. nia.
  - apply Z.div_le_lower_bound; lia.
Qed.

(** On digits the loop computes the value, as long as it fits. *)
Lemma strInt_loop_digits s : forall i sum,
  all_digits s = true -> 0 <= sum -> digits_value sum s <= INT_MAX ->
  strInt_loop i s sum = Some (digits_value sum s).
Proof.
  induction s as [|c s IH]; intros i sum Hs Hsum Hfit; simpl in *; [done|].
  apply andb_true_iff in Hs as [Hc Hs].
  rewrite (is_digit_not_minus c Hc), andb_false_r.
  apply is_digit_code in Hc.
  set (digit := char_code c - char_code "0") in *.
  assert (sum * 10 + digit <= INT_MAX) as Hnext.
  { etransitivity; [apply (digits_value_ge s); [done|lia]|done]. }
  replace ((digit <? 0) || (digit >? 9)) with false by lia.
  apply strInt_guard in Hnext as ->; [|lia..].
  apply IH; [done|lia|done].
Qed.

(** Past a leading ['-'] the loop accepts digits only, and returns their
    value. *)
Lemma strInt_loop_sound s : forall i sum r,
  i <> 0%nat \/ starts_with_minus s = false ->
  strInt_loop i s sum = Some r ->
  all_digits s = true /\ r = digits_value sum s.
Proof.
  induction s as [|c s IH]; intros i sum r Hi Hr; simpl in *.
  { by inversion Hr. }
  assert (Nat.eqb i 0 && Ascii.eqb c "-" = false) as Hbr.
  { destruct Hi as [Hi|Hc].
    - apply Nat.eqb_neq in Hi. by rewrite Hi.
    - destruct (Ascii.eqb_spec c "-") as [->|]; [done|apply andb_false_r]. }
  rewrite Hbr in Hr.
  set (digit := char_code c - char_code "0") in *.
  destruct ((digit <? 0) || (digit >? 9)) eqn:Hd; [done|].
  destruct (negb (sum =? 0) && (Z.quot (INT_MAX - digit) sum <? 10)); [done|].
  apply IH in Hr as [Hs ->]; [|by left].
  split; [|done]. apply andb_true_iff. split; [|done].
  apply is_digit_code. fold digit. lia.
Qed.

(** What [strInt] accepts is a numeral, and it returns the number the
    numeral denotes. *)
Lemma strInt_sound s v :
  strInt s = Some v -> is_numeral s = true /\ v = numeral_value s.
Proof.
  unfold strInt. destruct (strInt_loop 0 s 0) as [sum|] eqn:Hl; [|done].
  destruct s as [|c s]; [done|].
  destruct (Ascii.eqb_spec c "-") as [->|Hc].
  - destruct s as [|c' s]; [done|]. intros [= <-].
    change (strInt_loop 0 (String "-" (String c' s)) 0)
      with (strInt_loop 1 (String c' s) 0) in Hl.
    apply strInt_loop_sound in Hl as [Hs ->]; [|by left]. done.
  - apply strInt_loop_sound in Hl as [Hs ->].
    2:{ right. simpl. destruct c as [[] [] [] [] [] [] [] []]; done. }
    intros Hv. unfold is_numeral, numeral_value.
    destruct c as [[] [] [] [] [] [] [] []]; try (by inversion Hv); done.
Qed.

(** A numeral whose digits denote a number up to [INT_MAX] is accepted. *)
Lemma strInt_complete s :
  is_numeral s = true -> Z.abs (numeral_value s) <= INT_MAX ->
  strInt s = Some (numeral_value s).
Proof.
  unfold strInt. destruct s as [|c s]; [done|].
  destruct (Ascii.eqb_spec c "-") as [->|Hc].
  - destruct s as [|c' s]; [done|]. intros Hs Hfit.
    change (is_numeral (String "-" (String c' s)))
      with (all_digits (String c' s)) in Hs.
    change (numeral_value (String "-" (String c' s)))
      with (- digits_value 0 (String c' s)) in *.
    change (strInt_loop 0 (String "-" (String c' s)) 0)
      with (strInt_loop 1 (String c' s) 0).
    pose proof (digits_value_ge _ 0 Hs ltac:(lia)).
    rewrite strInt_loop_digits; [done..|lia|lia].
  - intros Hs Hfit.
    assert (all_digits (String c s) = true ∧
            numeral_value (String c s) = digits_value 0 (String c s)) as [Hd Hv].
    { destruct c as [[] [] [] [] [] [] [] []]; try done. }
    rewrite Hv in *.
    pose proof (digits_value_ge _ 0 Hd ltac:(lia)).
    rewrite strInt_loop_digits; [|done|lia|lia].
    destruct c as [[] [] [] [] [] [] [] []]; try done.
Qed.

(** ** The configuration file *)

Lemma read_lines_content lines : forall line g,
  read_lines lines line g = read_lines (content lines) line g.
Proof.
  induction lines as [|raw more IH]; intros line g; [done|].
  unfold content. rewrite filter_cons. fold (content more). simpl.
  destruct (is_comment raw) eqn:Hc.
  - rewrite decide_False by done. apply IH.
  - rewrite decide_True by done. simpl. rewrite Hc.
    destruct line as [|[|[|line]]]; rewrite ?IH; try done.
    destruct (missile_line _ _); [apply IH|done].
Qed.

Lemma content_not_comment lines :
  Forall (fun raw => is_comment raw = false) (content lines).
Proof.
  apply Forall_forall. intros raw Hin.
  by apply list_elem_of_filter in Hin as [? _].
Qed.

Lemma layout_tokens_attacker toks : forall g,
  attacker (layout_tokens toks g) = attacker g
  /\ gameOver (layout_tokens toks g) = gameOver g.
Proof.
  induction toks as [|tok toks IH]; intros g; simpl; [done|].
  destruct (strInt tok); by rewrite !(proj1 (IH _)), !(proj2 (IH _)).
Qed.

(** From the fourth line on [createGame] reads city rows; they cannot fail
    and leave the attacker and the flag alone. *)
Lemma read_lines_city lines : forall line g,
  (3 <= line)%nat ->
  Forall (fun raw => is_comment raw = false) lines ->
  exists g', read_lines lines line g = Ok ((line + length lines)%nat, g')
             /\ attacker g' = attacker g /\ gameOver g' = gameOver g.
Proof.
  induction lines as [|raw more IH]; intros line g Hline Hnc; simpl.
  { exists g. by rewrite Nat.add_0_r. }
  inversion Hnc as [|? ? Hraw Hmore]; subst. rewrite Hraw.
  destruct line as [|[|[|line]]]; [lia..|].
  destruct (IH (S (S (S (S line)))) (layout_tokens (strtok (strip_last raw)) g))
    as (g' & Hg' & Ha & Hgo); [lia|done|].
  exists g'. rewrite Hg', Ha, Hgo.
  destruct (layout_tokens_attacker (strtok (strip_last raw)) g) as [-> ->].
  split; [|done]. do 2 f_equal. lia.
Qed.

Lemma createGame_budget filename lines d a raw more :
  content lines = d :: a :: raw :: more ->
  createGame filename (Some lines) =
    match missile_line (strip_last raw) (named_game d a) with
    | Fatal e => Fatal e
    | Ok g =>
        match read_lines more 3 g with
        | Ok (line, g') =>
            if (line <? 4)%nat
            then Fatal (ErrText "Error: missing city layout.")
            else Ok g'
        | Fatal e => Fatal e
        end
    end.
Proof.
  intros Hc. unfold createGame. rewrite read_lines_content, Hc.
  pose proof (content_not_comment lines) as Hnc. rewrite Hc in Hnc.
  inversion Hnc as [|? ? Hd Hnc1]; subst.
  inversion Hnc1 as [|? ? Ha Hnc2]; subst.
  inversion Hnc2 as [|? ? Hraw Hmore]; subst.
  simpl. rewrite Hd, Ha, Hraw. fold (named_game d a).
  destruct (missile_line _ _) as [g|e]; [|done].
  destruct (read_lines_city more 3 g) as (g' & -> & _); [lia|done|].
  done.
Qed.


(** An accepted missile specification: the stored counter. *)
Lemma missile_line_ok str g n :
  strInt str = Some n -> 0 <= n ->
  missile_line str g =
    Ok (set_attacker
          (set_totalMissiles (if n =? 0 then -1 else n) (attacker g)) g).
Proof.
  intros Hn Hpos. unfold missile_line. rewrite Hn.
  by destruct (Z.ltb_spec n 0); [lia|].
Qed.

Lemma createGame_accepts filename lines d a raw city more n :
  content lines = d :: a :: raw :: city :: more ->
  strInt (strip_last raw) = Some n -> 0 <= n ->
  exists g, createGame filename (Some lines) = Ok g
            /\ totalMissiles (attacker g) = (if n =? 0 then -1 else n)
            /\ gameOver g = false.
Proof.
  intros Hc Hn Hpos. rewrite (createGame_budget filename _ _ _ _ _ Hc).
  rewrite (missile_line_ok _ _ n Hn Hpos).
  pose proof (content_not_comment lines) as Hnc. rewrite Hc in Hnc.
  do 3 (apply Forall_cons in Hnc as [_ Hnc]).
  edestruct (read_lines_city (city :: more) 3) as (g' & -> & Ha & Hgo);
    [lia|done|].
  exists g'. simpl. by rewrite Ha, Hgo.
Qed.

Example createGame_siege :
  createGame "siege.cfg" (Some siege_file) = Ok siege_game.
Proof. reflexivity. Qed.

(** ** The size of a packet *)

(** A packet has between one and eight slots in a field at least one cell
    wide. *)
Lemma startAtk_packetSize_range width :
  1 <= width -> 1 <= startAtk_packetSize width <= 8.
Proof.
  intros Hw. unfold startAtk_packetSize.
  rewrite Z.quot_div_nonneg by lia.
  destruct (Z.gtb_spec width 32) as [Hbig|Hsmall]; [lia|].
  assert (width / 4 <= 8) by (apply Z.div_le_upper_bound; lia).
  assert (0 <= width / 4) by (apply Z.div_pos; lia).
  destruct (Z.eqb_spec (width / 4) 0) as [Hz|Hnz]; [|lia].
  destruct (Z.lt_ge_cases width 4) as [|Hge]; [lia|].
  assert (1 <= width / 4) by (apply Z.div_le_lower_bound; lia). lia.
Qed.

(** C2, as stated, fails: in a field two cells wide the packet has two slots,
    while [min(8, max(1, width / 4))] is one. *)
Lemma packetSize_width_2 :
  startAtk_packetSize 2 <> Z.min 8 (Z.max 1 (Z.quot 2 4)).
Proof. vm_compute. discriminate. Qed.

(** C2, amended: for every field width of at least 1 the packet has between
    1 and 8 slots; the number of slots is [min(8, max(1, width / 4))] except
    for the widths 2 and 3, where it is the width itself. *)
Theorem packetSize_bounds width :
  1 <= width ->
  1 <= startAtk_packetSize width <= 8
  /\ (width <> 2 -> width <> 3 ->
      startAtk_packetSize width = Z.min 8 (Z.max 1 (Z.quot width 4)))
  /\ (width = 2 \/ width = 3 -> startAtk_packetSize width = width).
Proof.
  intros Hw. split; [by apply startAtk_packetSize_range|].
  unfold startAtk_packetSize. rewrite Z.quot_div_nonneg by lia.
  destruct (Z.gtb_spec width 32) as [Hbig|Hsmall].
  - split; [|lia]. intros _ _.
    assert (8 <= width / 4) by (apply Z.div_le_lower_bound; lia). lia.
  - assert (width / 4 <= 8) by (apply Z.div_le_upper_bound; lia).
    destruct (Z.eqb_spec (width / 4) 0) as [Hz|Hnz].
    + assert (width < 4).
      { destruct (Z.lt_ge_cases width 4) as [|Hge]; [done|].
        assert (1 <= width / 4) by (apply Z.div_le_lower_bound; lia). lia. }
      rewrite Hz. split; lia.
    + assert (0 <= width / 4) by (apply Z.div_pos; lia).
      split; [lia|]. intros [->| ->]; vm_compute in Hnz; done.
Qed.

Lemma packetSize_bounds_witness :
  1 <= 80 /\ 1 <= startAtk_packetSize 80 <= 8.
Proof. split; [lia | apply (packetSize_bounds 80); lia]. Defined.

(** ** The geometry check of [main] *)

(** C9: once the configuration is read, [main] ends the process with
    [EXIT_FAILURE] and a message on the error stream, without drawing
    anything, exactly when [height - max(2, tallest) - 2 - 1 - 2 < 0];
    otherwise it goes on to draw the city and the shield. *)
Theorem main_geometry filename file height width g :
  createGame filename file = Ok g ->
  (height - Z.max 2 (tallest g) - 2 - 1 - 2 < 0 <->
   main 2 filename file height width =
     ([Initscr; Endwin; Stderr (ErrHeight height); Exit EXIT_FAILURE], None))
  /\ (~ height - Z.max 2 (tallest g) - 2 - 1 - 2 < 0 ->
      main 2 filename file height width =
        ([Initscr], Some (start_world height width g))).
Proof.
  intros Hg. unfold main. simpl. rewrite Hg. unfold too_short.
  replace (if tallest g <? 2 then 2 else tallest g) with (Z.max 2 (tallest g))
    by (destruct (Z.ltb_spec (tallest g) 2); lia).
  destruct (Z.ltb_spec (height - Z.max 2 (tallest g) - 2 - 1 - 2) 0).
  - split; [done|]. lia.
  - split; [|done]. split; [lia|]. intros [=].
Qed.

Lemma main_geometry_witness :
  createGame "siege.cfg" (Some siege_file) = Ok siege_game
  /\ (7 - Z.max 2 (tallest siege_game) - 2 - 1 - 2 < 0 <->
      main 2 "siege.cfg" (Some siege_file) 7 80 =
        ([Initscr; Endwin; Stderr (ErrHeight 7); Exit EXIT_FAILURE], None)).
Proof.
  split; [reflexivity|].
  apply (main_geometry "siege.cfg" (Some siege_file) 7 80 siege_game).
  reflexivity.
Defined.

(** ** The missile specification [-0] *)

(** C10: [strInt] accepts a ['-'] followed by digits (whose number fits an
    [int]) and returns the negated number; so ["-0"] parses to 0, and a
    configuration whose missile specification is [-0] is accepted, with the
    counter stored as the value -1 that the attacker never decrements. *)
Theorem minus_zero_budget :
  (forall ds, ds <> "" -> all_digits ds = true -> digits_value 0 ds <= INT_MAX ->
     strInt (String "-" ds) = Some (- digits_value 0 ds))
  /\ strInt "-0" = Some 0
  /\ (forall filename lines d a city more,
        content lines = d :: a :: ("-0" ++ newline) :: city :: more ->
        exists g, createGame filename (Some lines) = Ok g
                  /\ totalMissiles (attacker g) = -1)
  /\ (forall g, totalMissiles (attacker g) = -1 -> gameOver g = false ->
        startAtk_test g = (-1, false)).
Proof.
  split; [|split; [done|split]].
  - intros ds Hne Hd Hfit.
    pose proof (digits_value_ge ds 0 Hd ltac:(lia)).
    rewrite (strInt_complete (String "-" ds)).
    + done.
    + destruct ds; done.
    + simpl. lia.
  - intros filename lines d a city more Hc.
    destruct (createGame_accepts filename lines d a _ city more 0 Hc)
      as (g & Hg & Ht & _); [done|lia|].
    by exists g.
  - intros g Ht Hgo. unfold startAtk_test. by rewrite Hgo, Ht.
Qed.

Lemma minus_zero_budget_witness :
  strInt "-42" = Some (-42)
  /\ exists g, createGame "siege.cfg" (Some minus_zero_file) = Ok g
               /\ totalMissiles (attacker g) = -1.
Proof.
  split.
  - apply (proj1 minus_zero_budget "42"); [discriminate|reflexivity|].
    vm_compute. discriminate.
  - apply (proj1 (proj2 (proj2 minus_zero_budget)) "siege.cfg" minus_zero_file
             ("Minas Tirith" ++ newline) ("Mordor" ++ newline)
             ("3 3 3 2 2" ++ newline) []).
    reflexivity.
Defined.

(** ** What a step of each thread leaves alone *)

Section Frames.

Variables height width : Z.

(** A round of the missile loop moves the missile one row down, keeps its
    column, and changes nothing of the game but the city. *)
Lemma launchMissile_tick_frame s g m pc s' g' m' pc' :
  launchMissile_tick height s g m pc = (s', g', m', pc') ->
  mx m' = mx m /\ my m' = my m + 1
  /\ defender g' = defender g /\ attacker g' = attacker g
  /\ gameOver g' = gameOver g /\ tallest g' = tallest g.
Proof.
  unfold launchMissile_tick. intros Ht.
  repeat case_match; simplify_eq/=; done.
Qed.

Lemma missile_step_frame k w w' :
  missile_step height k w = Some w' ->
  defender (game w') = defender (game w)
  /\ attacker (game w') = attacker (game w)
  /\ gameOver (game w') = gameOver (game w)
  /\ tallest (game w') = tallest (game w)
  /\ dth w' = dth w /\ ath w' = ath w
  /\ length (batch w') = length (batch w).
Proof.
  unfold missile_step. intros Hs.
  destruct (batch w !! k) as [t|]; [|done].
  destruct (m_pc t); [| |done].
  - destruct (launchMissile_start _ _). simplify_eq/=.
    by rewrite length_insert.
  - destruct (launchMissile_tick _ _ _ _ _) as [[[s g] m] pc] eqn:Ht.
    apply launchMissile_tick_frame in Ht as (_ & _ & ? & ? & ? & ?).
    simplify_eq/=. by rewrite length_insert.
Qed.

Lemma announce_frame name what w :
  game (announce height width name what w) = game w
  /\ dth (announce height width name what w) = dth w
  /\ ath (announce height width name what w) = ath w
  /\ batch (announce height width name what w) = batch w.
Proof. done. Qed.

Lemma startAtk_nomem_frame w :
  game (startAtk_nomem height width w) = set_gameOver true (game w)
  /\ dth (startAtk_nomem height width w) = dth w
  /\ ath (startAtk_nomem height width w) = ath w
  /\ batch (startAtk_nomem height width w) = batch w.
Proof.
  unfold startAtk_nomem.
  destruct (displayMessage _ _ _ _ _ _ _) as [[[s1 r1] c1] ok1].
  destruct (displayMessage _ _ _ _ _ _ _) as [[[s2 r2] c2] ok2]. done.
Qed.

Lemma atk_step_frame rnd ok w w' :
  atk_step height width rnd ok w = Some w' ->
  defender (game w') = defender (game w)
  /\ layout (game w') = layout (game w)
  /\ tallest (game w') = tallest (game w)
  /\ a_name (attacker (game w')) = a_name (attacker (game w))
  /\ dth w' = dth w.
Proof.
  unfold atk_step. intros Hs.
  destruct (a_pc (ath w)); simplify_eq/=.
  - destruct ok; [done|].
    by destruct (startAtk_nomem_frame w) as (-> & -> & _).
  - by destruct (gameOver (game w)); simplify_eq/=.
  - by repeat case_match; simplify_eq/=.
  - destruct (startAtk_test (game w)) as [n stop].
    by destruct stop; simplify_eq/=.
  - by case_match; simplify_eq/=.
  - done.
Qed.

Lemma startDef_key_frame key s g b s' g' b' :
  startDef_key width key s g b = (s', g', b') ->
  attacker g' = attacker g /\ layout g' = layout g /\ tallest g' = tallest g
  /\ d_name (defender g') = d_name (defender g)
  /\ shieldY (defender g') = shieldY (defender g)
  /\ (b' = true -> b = true /\ gameOver g' = gameOver g)
  /\ (gameOver g = true -> gameOver g' = true).
Proof.
  unfold startDef_key. intros Hk.
  repeat case_match; simplify_eq/=; done.
Qed.

Lemma def_step_frame key w w' :
  def_step height width key w = Some w' ->
  attacker (game w') = attacker (game w)
  /\ layout (game w') = layout (game w)
  /\ tallest (game w') = tallest (game w)
  /\ ath w' = ath w /\ batch w' = batch w
  /\ (d_b (dth w') = true ->
      d_b (dth w) = true /\ gameOver (game w') = gameOver (game w)).
Proof.
  unfold def_step. intros Hs.
  destruct (d_pc (dth w)); simplify_eq/=; [done| |done].
  destruct (startDef_key _ _ _ _ _) as [[s g] b] eqn:Hk.
  apply startDef_key_frame in Hk as (? & ? & ? & _ & _ & ? & _).
  by simplify_eq/=.
Qed.

End Frames.

(** ** Runs *)

Section Runs.

Variables height width : Z.

(** A property that every step keeps holds at the end of every run. *)
Lemma run_invariant (P : World -> Prop) :
  (forall l w w', P w -> exec height width l w = Some w' -> P w') ->
  forall ls w w', P w -> run height width ls w = Some w' -> P w'.
Proof.
  intros Hstep. induction ls as [|l ls IH]; intros w w' Hw Hrun; simpl in *.
  { by simplify_eq. }
  destruct (exec height width l w) as [w1|] eqn:Hl; [|done].
  eapply IH; [|done]. by eapply Hstep.
Qed.

Lemma run_app ls1 : forall ls2 w,
  run height width (ls1 ++ ls2) w =
    match run height width ls1 w with
    | Some w1 => run height width ls2 w1
    | None => None
    end.
Proof.
  induction ls1 as [|l ls1 IH]; intros ls2 w; simpl; [done|].
  destruct (exec height width l w); [apply IH|done].
Qed.

(** The world [main] starts the threads in. *)
Lemma start_world_fields g :
  let w0 := start_world height width g in
  game w0 =
    set_defender
      (set_shield (height - (if tallest g <? 2 then 2 else tallest g) - 2)
                  (Z.quot width 2 - 2) (defender g)) g
  /\ row w0 = 2 /\ col w0 = 0
  /\ dth w0 = {| d_pc := DefTest; d_b := true |}
  /\ ath w0 = {| a_pc := AtkStart; packetSize := 0; a_i := 0; spawned := 0 |}
  /\ batch w0 = [].
Proof.
  unfold start_world, initDisplay.
  by destruct (displayMessage _ _ _ _ _ _ _) as [[[s r] c] ok].
Qed.

Lemma main_started argc filename file evs w0 :
  main argc filename file height width = (evs, Some w0) ->
  exists g, createGame filename file = Ok g
            /\ too_short height g = false
            /\ w0 = start_world height width g.
Proof.
  unfold main. intros Hm.
  destruct (negb (argc =? 2)); [done|].
  destruct (createGame filename file) as [g|e]; [|done].
  destruct (too_short height g) eqn:Hshort; [done|].
  exists g. by simplify_eq.
Qed.

(** A terminal that passes the check of [main] has at least seven rows. *)
Lemma too_short_height g : too_short height g = false -> 7 <= height.
Proof.
  unfold too_short. intros H%Z.ltb_ge.
  destruct (Z.ltb_spec (tallest g) 2); lia.
Qed.

End Runs.

(** ** The shield *)

Section Shield.

Variables height width : Z.

(** What a key does to the left edge of the shield. *)
Lemma startDef_key_shield key s g b :
  shieldX (defender (startDef_key width key s g b).1.2) =
    let x := shieldX (defender g) in
    if key =? char_code "q" then x
    else if key =? KEY_LEFT then (if x >? 0 then x - 1 else x)
    else if key =? KEY_RIGHT then (if x <? width - 5 then x + 1 else x)
    else x.
Proof. unfold startDef_key. simpl. by repeat case_match. Qed.

Lemma startDef_key_in_field key s g b :
  0 <= shieldX (defender g) <= width - 5 ->
  0 <= shieldX (defender (startDef_key width key s g b).1.2) <= width - 5.
Proof.
  rewrite startDef_key_shield. simpl. intros Hx.
  repeat case_match; lia.
Qed.

Lemma exec_shield l w w' :
  exec height width l w = Some w' ->
  0 <= shieldX (defender (game w)) <= width - 5 ->
  0 <= shieldX (defender (game w')) <= width - 5.
Proof.
  intros Hl Hx. destruct l as [key|rnd ok|k]; simpl in Hl.
  - unfold def_step in Hl.
    destruct (d_pc (dth w)); simplify_eq/=; [done| |done].
    pose proof (startDef_key_in_field key (scr w) (game w) (d_b (dth w)) Hx)
      as Hk.
    destruct (startDef_key _ _ _ _ _) as [[s g] b]. by simplify_eq/=.
  - apply atk_step_frame in Hl as (-> & _). done.
  - apply missile_step_frame in Hl as (-> & _). done.
Qed.

End Shield.

(** C6, as stated, fails: in a field four cells wide (a width the comment in
    [initDisplay] allows) the shield starts at column 0, which is not at most
    [width - 5]. *)
Lemma shield_width_4 :
  let d := defender (initDisplay 24 4 (blank_screen 24 4) siege_game).2 in
  shieldX d = 0 /\ ~ (0 <= shieldX d <= 4 - 5).
Proof. vm_compute. split; [reflexivity|]. intros [_ H]. by apply H. Qed.

(** C6, amended: in a field at least five cells wide the shield starts at
    column [width / 2 - 2], and its left edge stays between 0 and
    [width - 5] in every state of every run; a key moves it by one cell or,
    when the move would leave that range, not at all. *)
Theorem shield_in_field filename file height width evs w0 ls w :
  5 <= width ->
  main 2 filename file height width = (evs, Some w0) ->
  run height width ls w0 = Some w ->
  shieldX (defender (game w0)) = Z.quot width 2 - 2
  /\ 0 <= shieldX (defender (game w)) <= width - 5
  /\ forall key s b,
       let x := shieldX (defender (game w)) in
       let x' := shieldX (defender (startDef_key width key s (game w) b).1.2) in
       0 <= x' <= width - 5
       /\ (key = KEY_LEFT -> x' = if x >? 0 then x - 1 else x)
       /\ (key = KEY_RIGHT -> x' = if x <? width - 5 then x + 1 else x).
Proof.
  intros Hw Hmain Hrun.
  apply main_started in Hmain as (g & _ & _ & ->).
  destruct (start_world_fields height width g) as (Hg & _).
  assert (0 <= Z.quot width 2 - 2 <= width - 5) as H0.
  { rewrite Z.quot_div_nonneg by lia.
    assert (2 <= width / 2) by (apply Z.div_le_lower_bound; lia).
    assert (width / 2 < width - 2); [|lia].
    apply Z.div_lt_upper_bound; lia. }
  assert (0 <= shieldX (defender (game w)) <= width - 5) as Hx.
  { eapply (run_invariant height width
      (fun w => 0 <= shieldX (defender (game w)) <= width - 5)); [|..|done].
    - intros l w1 w2 Hw1 Hl. by eapply exec_shield.
    - by rewrite Hg. }
  split; [by rewrite Hg|]. split; [done|].
  intros key s b x x'.
  split; [by apply startDef_key_in_field|].
  subst x x'. rewrite startDef_key_shield. by split; intros ->.
Qed.

Lemma shield_in_field_witness :
  5 <= 20
  /\ main 2 "siege.cfg" (Some siege_file) 9 20 = ([Initscr], Some siege_world)
  /\ exists w,
       run 9 20 [Def 0; Def KEY_LEFT; Def 0; Def KEY_RIGHT] siege_world = Some w
       /\ 0 <= shieldX (defender (game w)) <= 20 - 5.
Proof.
  split; [lia|]. split; [reflexivity|].
  eexists. split; [vm_compute; reflexivity|].
  eapply (shield_in_field "siege.cfg" (Some siege_file) 9 20 [Initscr] siege_world
            [Def 0; Def KEY_LEFT; Def 0; Def KEY_RIGHT]);
    [lia | reflexivity | vm_compute; reflexivity].
Defined.

(** ** The loop of the defender *)

Section DefenderLoop.

Variables height width : Z.

(** The flag is never cleared. *)
Lemma exec_gameOver l w w' :
  exec height width l w = Some w' ->
  gameOver (game w) = true -> gameOver (game w') = true.
Proof.
  intros Hl Hgo. destruct l as [key|rnd ok|k]; simpl in Hl.
  - unfold def_step in Hl.
    destruct (d_pc (dth w)); simplify_eq/=; [done| |done].
    destruct (startDef_key _ _ _ _ _) as [[s g] b] eqn:Hk.
    apply startDef_key_frame in Hk as (_ & _ & _ & _ & _ & _ & Hk).
    simplify_eq/=. auto.
  - unfold atk_step in Hl.
    destruct (a_pc (ath w)); simplify_eq/=; try done.
    + destruct ok; [done|].
      by destruct (startAtk_nomem_frame height width w) as (-> & _).
    + by rewrite Hgo in Hl; simplify_eq/=.
    + by repeat case_match; simplify_eq/=.
    + destruct (startAtk_test (game w)) as [n stop].
      by destruct stop; simplify_eq/=.
    + by case_match; simplify_eq/=.
  - apply missile_step_frame in Hl as (_ & _ & -> & _). done.
Qed.

Lemma exec_def_inv l w w' :
  exec height width l w = Some w' -> def_inv w -> def_inv w'.
Proof.
  intros Hl [Hb Hleft]. pose proof (exec_gameOver _ _ _ Hl) as Hmono.
  destruct l as [key|rnd ok|k]; simpl in Hl.
  - unfold def_step in Hl. unfold def_inv, def_left in *.
    destruct (d_pc (dth w)) eqn:Hpc; simplify_eq/=.
    + split; [done|]. unfold startDef_test.
      destruct (gameOver (game w)), (d_b (dth w)); done.
    + unfold startDef_key in *.
      repeat case_match; simplify_eq/=; split; auto.
    + split; [done|]. auto.
  - apply atk_step_frame in Hl as (_ & _ & _ & _ & Hd).
    unfold def_inv in *. rewrite Hd. split; [|done]. auto.
  - apply missile_step_frame in Hl as (_ & _ & _ & _ & Hd & _).
    unfold def_inv in *. rewrite Hd. split; [|done]. auto.
Qed.

End DefenderLoop.

(** C5, as stated, fails on both counts.  After the defender has read the
    quit key, the next test of its loop ends the loop: there is no further
    round.  And when the attacker has set the flag while the defender has not
    read the quit key, the next test of the loop passes and the defender
    goes back to [getch]. *)
Lemma defender_loop_exits :
  (exists w, run 9 20 [Def 0; Def (char_code "q"); Def 0] siege_world = Some w
             /\ d_pc (dth w) = DefAnnounce)
  /\ (exists w, run 9 20 (launches 5 ++ [Def 0]) siege_world = Some w
                /\ gameOver (game w) = true /\ d_b (dth w) = true
                /\ d_pc (dth w) = DefGetch).
Proof.
  split; eexists; (split; [vm_compute; reflexivity|]); done.
Qed.

Section DefenderQuits.

Variables height width : Z.

(** After the quit key, the defender never reads a key again and returns
    within two of its steps. *)
Lemma exec_has_quit l w w' :
  exec height width l w = Some w' -> has_quit w -> has_quit w'.
Proof.
  intros Hl (Hb & Hgo & Hpc). pose proof (exec_gameOver _ _ _ _ _ Hl Hgo).
  unfold has_quit. destruct l as [key|rnd ok|k]; simpl in Hl.
  - unfold def_step in Hl. destruct (d_pc (dth w)) eqn:Hd; [|done| |done].
    + injection Hl as <-. simpl in *. unfold startDef_test.
      rewrite Hb, Hgo. done.
    + injection Hl as <-. simpl in *. done.
  - apply atk_step_frame in Hl as (_ & _ & _ & _ & ->). done.
  - apply missile_step_frame in Hl as (_ & _ & _ & _ & -> & _). done.
Qed.

Lemma has_quit_test w key :
  has_quit w -> d_pc (dth w) = DefTest ->
  exists w', exec height width (Def key) w = Some w'
             /\ d_pc (dth w') = DefAnnounce.
Proof.
  intros (Hb & Hgo & _) Hpc. simpl. unfold def_step. rewrite Hpc.
  unfold startDef_test. rewrite Hb, Hgo. by eexists.
Qed.

Lemma has_quit_returns w :
  has_quit w ->
  exists n w', (n <= 2)%nat
               /\ run height width (replicate n (Def 0)) w = Some w'
               /\ d_pc (dth w') = DefDone.
Proof.
  intros (Hb & Hgo & Hpc).
  destruct (d_pc (dth w)) eqn:Hd; [| done | |].
  - exists 2%nat. eexists. split; [lia|]. simpl. unfold def_step.
    rewrite Hd. unfold startDef_test. rewrite Hb, Hgo. simpl. done.
  - exists 1%nat. eexists. split; [lia|]. simpl. unfold def_step.
    rewrite Hd. done.
  - exists 0%nat, w. split; [lia|]. done.
Qed.

(** Before the quit key the test of the loop passes. *)
Lemma not_quit_test w key :
  d_b (dth w) = true -> d_pc (dth w) = DefTest ->
  exists w', exec height width (Def key) w = Some w'
             /\ d_pc (dth w') = DefGetch /\ d_b (dth w') = true
             /\ game w' = game w.
Proof.
  intros Hb Hpc. simpl. unfold def_step. rewrite Hpc.
  unfold startDef_test. rewrite Hb, orb_true_r. by eexists.
Qed.

(** Only the quit key clears [b]. *)
Lemma exec_clears_b l w w' :
  exec height width l w = Some w' ->
  d_b (dth w) = true -> d_b (dth w') = false ->
  l = Def (char_code "q") /\ d_pc (dth w) = DefGetch.
Proof.
  intros Hl Hb Hb'. destruct l as [key|rnd ok|k]; simpl in Hl.
  - unfold def_step in Hl. destruct (d_pc (dth w)) eqn:Hd; [| | |done].
    + injection Hl as <-. simpl in Hb'. congruence.
    + unfold startDef_key in Hl.
      destruct (Z.eqb_spec key (char_code "q")) as [->|Hkey]; [done|].
      repeat case_match; simplify_eq/=; congruence.
    + injection Hl as <-. simpl in Hb'. congruence.
  - apply atk_step_frame in Hl as (_ & _ & _ & _ & Hd). congruence.
  - apply missile_step_frame in Hl as (_ & _ & _ & _ & Hd & _). congruence.
Qed.

(** Reading the quit key. *)
Lemma getch_quit w :
  d_pc (dth w) = DefGetch ->
  exists w', exec height width (Def (char_code "q")) w = Some w'
             /\ has_quit w' /\ d_pc (dth w') = DefTest.
Proof.
  intros Hpc. simpl. unfold def_step. rewrite Hpc.
  unfold startDef_key. change (char_code "q" =? char_code "q") with true.
  cbv iota. eexists. split; [done|]. by split.
Qed.

End DefenderQuits.

(** C5, amended: reading the quit key sets the flag and clears [b]; the
    next step of the defender is then the test of its loop, which fails, so
    that in whatever way the threads run on the defender is never in [getch]
    again, leaves the loop at its next step and has returned after at most
    two steps of its own.  As long as the defender has not read the quit key
    it is in its loop, and the test passes whether or not the flag is set, so
    the defender goes back to [getch]; [b] is cleared by no step but the
    reading of the quit key, and in every run the defender has left its loop
    only with [b] clear, that is after reading the quit key itself. *)
Theorem defender_leaves_on_quit filename file height width evs w0 ls w :
  main 2 filename file height width = (evs, Some w0) ->
  run height width ls w0 = Some w ->
  (forall s,
     let r := startDef_key width (char_code "q") s (game w) (d_b (dth w)) in
     gameOver r.1.2 = true /\ r.2 = false /\ startDef_test r.1.2 r.2 = false)
  /\ (d_b (dth w) = true -> startDef_test (game w) (d_b (dth w)) = true)
  /\ (def_left (dth w) = true ->
      d_b (dth w) = false /\ gameOver (game w) = true)
  /\ (d_pc (dth w) = DefGetch ->
      exists w1,
        exec height width (Def (char_code "q")) w = Some w1
        /\ gameOver (game w1) = true /\ d_b (dth w1) = false
        /\ d_pc (dth w1) = DefTest
        /\ forall ls1 w2,
             run height width ls1 w1 = Some w2 ->
             d_pc (dth w2) <> DefGetch
             /\ (d_pc (dth w2) = DefTest ->
                 forall key, exists w3,
                   exec height width (Def key) w2 = Some w3
                   /\ d_pc (dth w3) = DefAnnounce)
             /\ exists n w3,
                  (n <= 2)%nat
                  /\ run height width (replicate n (Def 0)) w2 = Some w3
                  /\ d_pc (dth w3) = DefDone)
  /\ (d_b (dth w) = true ->
      (d_pc (dth w) = DefTest \/ d_pc (dth w) = DefGetch)
      /\ (d_pc (dth w) = DefTest ->
          forall key, exists w1,
            exec height width (Def key) w = Some w1
            /\ d_pc (dth w1) = DefGetch /\ d_b (dth w1) = true
            /\ game w1 = game w))
  /\ (forall l w1,
        exec height width l w = Some w1 ->
        d_b (dth w) = true -> d_b (dth w1) = false ->
        l = Def (char_code "q") /\ d_pc (dth w) = DefGetch).
Proof.
  intros Hmain Hrun.
  apply main_started in Hmain as (g & _ & _ & ->).
  destruct (start_world_fields height width g) as (_ & _ & _ & Hd & _).
  assert (def_inv w) as [Hb Hleft].
  { eapply (run_invariant height width def_inv); [|..|done].
    - intros l w1 w2 Hw1 Hl. by eapply exec_def_inv.
    - split; rewrite Hd; done. }
  split; [done|]. split.
  { intros ->. unfold startDef_test. apply orb_true_r. }
  split; [auto|]. split.
  - intros Hpc.
    destruct (getch_quit height width w Hpc) as (w1 & Hq & Hquit & Hpc1).
    exists w1. split; [done|].
    destruct Hquit as (Hb1 & Hgo1 & Hne1). split; [done|]. split; [done|].
    split; [done|]. intros ls1 w2 Hrun1.
    assert (has_quit w2) as Hquit2.
    { eapply (run_invariant height width has_quit); [|..|exact Hrun1].
      - intros l wa wb Hwa Hl. by eapply exec_has_quit.
      - done. }
    split; [by destruct Hquit2 as (_ & _ & ?)|]. split.
    + intros Hpc2 key. by apply has_quit_test.
    + by apply has_quit_returns.
  - split; [|intros l w1; apply exec_clears_b].
    intros Hbt. split.
    + unfold def_left in Hleft.
      destruct (d_pc (dth w)); auto;
        specialize (Hleft eq_refl); congruence.
    + intros Hpc key. by apply not_quit_test.
Qed.

Lemma defender_leaves_on_quit_witness :
  main 2 "siege.cfg" (Some siege_file) 9 20 = ([Initscr], Some siege_world)
  /\ exists w,
       run 9 20 (launches 5 ++ [Def 0]) siege_world = Some w
       /\ (def_left (dth w) = true ->
           d_b (dth w) = false /\ gameOver (game w) = true)
       /\ (d_pc (dth w) = DefGetch ->
           exists w1,
             exec 9 20 (Def (char_code "q")) w = Some w1
             /\ gameOver (game w1) = true /\ d_b (dth w1) = false
             /\ d_pc (dth w1) = DefTest
             /\ forall ls1 w2,
                  run 9 20 ls1 w1 = Some w2 ->
                  d_pc (dth w2) <> DefGetch
                  /\ (d_pc (dth w2) = DefTest ->
                      forall key, exists w3,
                        exec 9 20 (Def key) w2 = Some w3
                        /\ d_pc (dth w3) = DefAnnounce)
                  /\ exists n w3,
                       (n <= 2)%nat
                       /\ run 9 20 (replicate n (Def 0)) w2 = Some w3
                       /\ d_pc (dth w3) = DefDone).
Proof.
  split; [reflexivity|].
  eexists. split; [vm_compute; reflexivity|].
  refine (let H := defender_leaves_on_quit "siege.cfg" (Some siege_file)
                     9 20 [Initscr] siege_world (launches 5 ++ [Def 0])
                     _ _ _ in
          conj (proj1 (proj2 (proj2 H)))
               (proj1 (proj2 (proj2 (proj2 H)))));
    [reflexivity | vm_compute; reflexivity].
Defined.

(** ** The missile *)

Section MissileLoop.

Variable height : Z.

(** Overwriting a cell leaves the other rows as they are. *)
Lemma mvinch_put_other_row s y x ch y' x' :
  y <> y' -> mvinch (put s y x ch) y' x' = mvinch s y' x'.
Proof.
  intros Hy. unfold put, mvinsch, mvdelch, mvinch.
  destruct (Z.ltb_spec y' 0); [done|].
  destruct (Z.ltb_spec x' 0); [done|]. simpl.
  destruct (Z.ltb_spec y 0); [done|].
  destruct (Z.ltb_spec x 0); [done|]. simpl.
  rewrite !list_lookup_alter_ne by lia. done.
Qed.

(** The cell a missile is about to enter is not touched when the missile
    is erased from the cell it leaves. *)
Lemma cell_ahead_erased s m pc :
  cell_ahead height (if my m <? height then put s (my m) (mx m) pc else s)
    (my m + 1) (mx m)
  = cell_ahead height s (my m + 1) (mx m).
Proof.
  unfold cell_ahead. destruct (my m + 1 >=? height); [done|].
  destruct (my m <? height); [|done].
  apply mvinch_put_other_row. lia.
Qed.

(** The three ways a round of the loop marks the missile exploded. *)
Lemma launchMissile_tick_mc s g m pc :
  let c := cell_ahead height s (my m + 1) (mx m) in
  mc (launchMissile_tick height s g m pc).1.2 =
    if Ascii.eqb c "#" || (Ascii.eqb c "*" && (my m + 1 <? height - tallest g))
    then "*"%char
    else if my m + 1 =? impact_row height g (mx m) then "*"%char
    else mc m.
Proof.
  unfold launchMissile_tick. rewrite cell_ahead_erased. simpl.
  repeat case_match; simplify_eq/=; done.
Qed.

(** What a round of the loop does to the city. *)
Lemma launchMissile_tick_layout s g m pc :
  let c := cell_ahead height s (my m + 1) (mx m) in
  let x := mx m in
  layout (launchMissile_tick height s g m pc).1.1.2 =
    if Ascii.eqb c "#" || (Ascii.eqb c "*" && (my m + 1 <? height - tallest g))
    then layout g
    else if my m + 1 =? impact_row height g x then
      if (x <? size g) && negb (layout_at g x =? 2)
      then <[Z.to_nat x := layout_at g x - 1]> (layout g)
      else layout g
    else layout g.
Proof.
  unfold launchMissile_tick. rewrite cell_ahead_erased. simpl.
  repeat case_match; simplify_eq/=; done.
Qed.

Lemma missile_next_done m :
  missile_next height m = MDone <-> mc m = "*"%char \/ my m > height.
Proof.
  unfold missile_next. destruct (Z.gtb_spec (my m) height).
  { split; [right; lia|done]. }
  destruct (Ascii.eqb_spec (mc m) "*").
  { split; [by left|done]. }
  split; [done|]. intros [?|?]; [done|lia].
Qed.

Lemma insert_missile_inv k t bs :
  Forall (missile_inv height) bs -> missile_inv height t ->
  Forall (missile_inv height) (<[k := t]> bs).
Proof. intros Hbs Ht. by apply Forall_insert. Qed.

Lemma missile_step_inv k w w' :
  missile_step height k w = Some w' ->
  Forall (missile_inv height) (batch w) ->
  Forall (missile_inv height) (batch w').
Proof.
  unfold missile_step. intros Hs Hinv.
  destruct (batch w !! k) as [t|] eqn:Hk; [|done].
  pose proof (Forall_lookup_1 _ _ _ _ Hinv Hk) as [Hy Hpc].
  destruct (m_pc t) eqn:Hmpc; [| |done].
  - destruct (launchMissile_start _ _) as [s pc]. simplify_eq/=.
    apply insert_missile_inv; [done|]. split; simpl; [done|].
    destruct (Ascii.eqb_spec (mc (missile t)) "*"); [lia|].
    split; [lia|done].
  - destruct (launchMissile_tick _ _ _ _ _) as [[[s g] m] pc] eqn:Ht.
    pose proof (launchMissile_tick_frame _ _ _ _ _ _ _ _ _ Ht) as (_ & Hy' & _).
    simplify_eq/=. apply insert_missile_inv; [done|].
    split; simpl; [lia|].
    unfold missile_next. destruct (Z.gtb_spec (my m) height); [lia|].
    destruct (Ascii.eqb_spec (mc m) "*"); [lia|]. split; [lia|done].
Qed.

End MissileLoop.

Lemma exec_missile_inv height width l w w' :
  exec height width l w = Some w' ->
  Forall (missile_inv height) (batch w) ->
  Forall (missile_inv height) (batch w').
Proof.
  intros Hl Hinv. destruct l as [key|rnd ok|k]; simpl in Hl.
  - apply def_step_frame in Hl as (_ & _ & _ & _ & -> & _). done.
  - unfold atk_step in Hl.
    destruct (a_pc (ath w)); simplify_eq/=; try done.
    + destruct ok; [done|].
      by destruct (startAtk_nomem_frame height width w) as (_ & _ & _ & ->).
    + destruct (gameOver (game w)); simplify_eq/=; [done|]. constructor.
    + repeat case_match; simplify_eq/=; [|done].
      apply Forall_app. split; [done|]. repeat constructor.
    + destruct (startAtk_test (game w)) as [n stop].
      by destruct stop; simplify_eq/=.
    + by case_match; simplify_eq/=.
  - by eapply missile_step_inv.
Qed.

(** C1, as stated, fails.  First run: a missile has hit column 0 of the
    sample city, which is now 2 high with its top at row 7, and has left its
    ['*'] there; a second missile at row 6 of that column is about to enter
    that cell, at the top of the column, yet the round of the loop does not
    mark it exploded.  Second run: the defender's name is a row of asterisks,
    and its closing announcement puts one of them at row 5 of column 1; a
    missile at row 4 of that column is about to enter that cell, which is
    above the top of the column (row 9, the column being 2 high), and again
    the round does not mark it exploded.  In both runs the new row is not
    above row [height - tallest], which is what the code tests. *)
Lemma explosion_mark_above_column :
  (main 2 "siege.cfg" (Some siege_file) 9 20 = ([Initscr], Some siege_world)
   /\ exists w t,
        run 9 20 chain_schedule siege_world = Some w
        /\ batch w !! 1%nat = Some t
        /\ m_pc t = MLoop
        /\ cell_ahead 9 (scr w) (my (missile t) + 1) (mx (missile t)) = "*"%char
        /\ my (missile t) + 1 <= column_top 9 (game w) (mx (missile t))
        /\ mc (launchMissile_tick 9 (scr w) (game w) (missile t) (prevc t)).1.2
           <> "*"%char)
  /\ (main 2 "stars.cfg" (Some stars_file) 11 20 =
        ([Initscr], Some (start_world 11 20 stars_game))
      /\ exists w t,
           run 11 20 stars_schedule (start_world 11 20 stars_game) = Some w
           /\ batch w !! 0%nat = Some t
           /\ m_pc t = MLoop
           /\ cell_ahead 11 (scr w) (my (missile t) + 1) (mx (missile t))
              = "*"%char
           /\ my (missile t) + 1 < column_top 11 (game w) (mx (missile t))
           /\ mc (launchMissile_tick 11 (scr w) (game w) (missile t)
                    (prevc t)).1.2
              <> "*"%char).
Proof.
  split; (split; [reflexivity|]);
    eexists; eexists; (split; [vm_compute; reflexivity|]);
    (split; [reflexivity|]); (split; [reflexivity|]); (split; [reflexivity|]);
    (split; [vm_compute; try reflexivity; discriminate|]);
    vm_compute; discriminate.
Qed.

(** C1, amended: when the cell a falling missile is about to enter holds
    ['*'], the round marks the missile exploded if and only if its new row is
    above row [height - tallest], where [tallest] is the height of the
    tallest column the configuration gave (one number for the whole city),
    or its new row is the impact row of its column. *)
Theorem explosion_mark_rule height s g m pc :
  mc m <> "*"%char ->
  cell_ahead height s (my m + 1) (mx m) = "*"%char ->
  mc (launchMissile_tick height s g m pc).1.2 = "*"%char
  <-> my m + 1 < height - tallest g \/ my m + 1 = impact_row height g (mx m).
Proof.
  intros Hfalling Hcell. rewrite launchMissile_tick_mc. simpl.
  rewrite Hcell. simpl.
  destruct (Z.ltb_spec (my m + 1) (height - tallest g)).
  { split; [by left|done]. }
  destruct (Z.eqb_spec (my m + 1) (impact_row height g (mx m))).
  { split; [by right|done]. }
  split; [done|]. intros [?|?]; [lia|done].
Qed.

Lemma explosion_mark_rule_witness :
  let s := put (blank_screen 9 20) 5 1 "*" in
  let m := {| mx := 1; my := 4; mc := "|" |} in
  mc m <> "*"%char
  /\ cell_ahead 9 s (my m + 1) (mx m) = "*"%char
  /\ (mc (launchMissile_tick 9 s siege_game m " ").1.2 = "*"%char
      <-> my m + 1 < 9 - tallest siege_game
          \/ my m + 1 = impact_row 9 siege_game (mx m)).
Proof.
  split; [discriminate|]. split; [reflexivity|].
  apply (explosion_mark_rule 9 (put (blank_screen 9 20) 5 1 "*") siege_game
           {| mx := 1; my := 4; mc := "|" |} " ");
    [discriminate | reflexivity].
Defined.

(** ** The city *)

(** C4 (the code breaks it): a column of height 0 is a layout of
    non-negative heights.  A missile in that column falls through the whole
    field, explodes at row [height + 1], and the column is decremented to -1:
    the test before the decrement is [layout[x] != 2], which lets the heights
    0 and 1 through. *)
Theorem ground_column_goes_negative :
  main 2 "ground.cfg" (Some ground_file) 9 20 =
    ([Initscr], Some (start_world 9 20 ground_game))
  /\ exists w,
       run 9 20 (launches 1 ++ replicate 9 (Msl 0))
         (start_world 9 20 ground_game) = Some w
       /\ layout (game w) = [-1].
Proof.
  split; [reflexivity|].
  eexists. split; [vm_compute; reflexivity|]. reflexivity.
Qed.

(** ** The attack *)

Section Attack.

Variables height width : Z.
Hypothesis width_positive : 1 <= width.










(** A missile thread that has not returned can take a step, and the step
    uses up some of its own fuel. *)
Lemma missile_step_thread k w t :
  batch w !! k = Some t -> m_pc t <> MDone ->
  exists w1 t1, missile_step height k w = Some w1
                /\ batch w1 !! k = Some t1
                /\ missile_fuel height t1 + 1 <= missile_fuel height t.
Proof.
  intros Hk Hpc. unfold missile_step. rewrite Hk.
  assert (k < length (batch w))%nat as Hlen by by eapply lookup_lt_Some.
  destruct (m_pc t) eqn:Hm; [| |done].
  - destruct (launchMissile_start _ _) as [s pc].
    eexists. eexists. split; [done|]. simpl.
    split; [by apply list_lookup_insert_eq|].
    unfold missile_fuel. simpl. rewrite Hm. destruct (Ascii.eqb _ _); lia.
  - destruct (launchMissile_tick _ _ _ _ _) as [[[s g] m] pc] eqn:Ht.
    apply launchMissile_tick_frame in Ht as (_ & Hy & _).
    eexists. eexists. split; [done|]. simpl.
    split; [by apply list_lookup_insert_eq|].
    unfold missile_fuel. simpl. rewrite Hm. unfold missile_next.
    destruct (Z.gtb_spec (my m) height); [lia|].
    destruct (Ascii.eqb _ _); lia.
Qed.

(** Scheduled on its own, a missile thread returns within as many steps as
    it has fuel. *)
Lemma missile_completes k : forall n w t,
  batch w !! k = Some t -> missile_fuel height t <= Z.of_nat n ->
  exists m w' t', (m <= n)%nat
                  /\ run height width (replicate m (Msl k)) w = Some w'
                  /\ batch w' !! k = Some t' /\ m_pc t' = MDone.
Proof.
  induction n as [|n IH]; intros w t Hk Hfuel.
  - exists 0%nat, w, t. repeat split; [done..|].
    unfold missile_fuel in Hfuel. destruct (m_pc t); [lia..|done].
  - destruct (m_pc t) eqn:Hpc;
      try (exists 0%nat, w, t; repeat split; [lia|done..]).
    all: destruct (missile_step_thread k w t Hk) as (w1 & t1 & Hs & Hk1 & Hf);
      [by rewrite Hpc|].
    all: destruct (IH w1 t1 Hk1) as (m & w' & t' & Hm & Hrun & Hk' & Hdone);
      [lia|].
    all: exists (S m), w', t'; repeat split; [lia| |done..].
    all: simpl; by rewrite Hs.
Qed.


End Attack.

(** C7: in every run, a missile thread that has run [n] rounds of its loop
    is at row [2 + n], each round moving it one row down; it has run at most
    [height - 1] rounds, so at most [height]; until it has returned it can
    always take its next step; a round is its last exactly when it leaves the
    missile exploded or below the last row; and scheduled on its own the
    thread returns within [height + 1] steps. *)
Theorem missile_terminates filename file height width evs w0 ls w k t :
  main 2 filename file height width = (evs, Some w0) ->
  run height width ls w0 = Some w ->
  batch w !! k = Some t ->
  my (missile t) = 2 + Z.of_nat (ticks t)
  /\ Z.of_nat (ticks t) <= height - 1
  /\ (m_pc t <> MDone -> is_Some (missile_step height k w))
  /\ (forall s g pc,
        let m' := (launchMissile_tick height s g (missile t) pc).1.2 in
        my m' = my (missile t) + 1
        /\ (missile_next height m' = MDone
            <-> mc m' = "*"%char \/ my m' > height))
  /\ exists n w' t',
       Z.of_nat n <= height + 1
       /\ run height width (replicate n (Msl k)) w = Some w'
       /\ batch w' !! k = Some t' /\ m_pc t' = MDone.
Proof.
  intros Hmain Hrun Hk.
  apply main_started in Hmain as (g0 & _ & Hh%too_short_height & ->).
  destruct (start_world_fields height width g0) as (_ & _ & _ & _ & _ & Hb).
  assert (Forall (missile_inv height) (batch w)) as Hinv.
  { eapply (run_invariant height width
      (fun w => Forall (missile_inv height) (batch w))); [|..|done].
    - intros l w1 w2 Hw1 Hl. by eapply exec_missile_inv.
    - rewrite Hb. constructor. }
  pose proof (Forall_lookup_1 _ _ _ _ Hinv Hk) as [Hy Hpc].
  split; [done|]. split; [|split; [|split]].
  - destruct (m_pc t); lia.
  - intros Hnd. unfold missile_step. rewrite Hk.
    destruct (m_pc t); [| |done].
    + by destruct (launchMissile_start _ _).
    + by destruct (launchMissile_tick _ _ _ _ _) as [[[? ?] ?] ?].
  - intros s g pc m'. split; [|apply missile_next_done].
    subst m'.
    destruct (launchMissile_tick height s g (missile t) pc)
      as [[[s' g'] m'] pc'] eqn:Ht.
    by apply launchMissile_tick_frame in Ht as (_ & Hy' & _).
  - destruct (missile_completes height width k (Z.to_nat (height + 1)) w t Hk)
      as (n & w' & t' & Hn & Hrun' & Hk' & Hdone).
    { unfold missile_fuel. destruct (m_pc t); lia. }
    exists n, w', t'. split; [lia|done].
Qed.

Lemma missile_terminates_witness :
  main 2 "siege.cfg" (Some siege_file) 9 20 = ([Initscr], Some siege_world)
  /\ exists w t,
       run 9 20 (launches 1 ++ [Msl 0; Msl 0; Msl 0]) siege_world = Some w
       /\ batch w !! 0%nat = Some t
       /\ my (missile t) = 2 + Z.of_nat (ticks t)
       /\ Z.of_nat (ticks t) <= 9 - 1
       /\ (m_pc t <> MDone -> is_Some (missile_step 9 0 w))
       /\ (forall s g pc,
             let m' := (launchMissile_tick 9 s g (missile t) pc).1.2 in
             my m' = my (missile t) + 1
             /\ (missile_next 9 m' = MDone <-> mc m' = "*"%char \/ my m' > 9))
       /\ exists n w' t',
            Z.of_nat n <= 9 + 1
            /\ run 9 20 (replicate n (Msl 0)) w = Some w'
            /\ batch w' !! 0%nat = Some t' /\ m_pc t' = MDone.
Proof.
  split; [reflexivity|].
  eexists. eexists. split; [vm_compute; reflexivity|].
  split; [reflexivity|].
  eapply (missile_terminates "siege.cfg" (Some siege_file) 9 20 [Initscr]
            siege_world (launches 1 ++ [Msl 0; Msl 0; Msl 0]));
    [reflexivity | vm_compute; reflexivity | reflexivity].
Defined.

Section Budget.

Variables height width : Z.







End Budget.

Section Completion.

Variables height width : Z.
Hypothesis width_positive : 1 <= width.


End Completion.






Section Created.

Variables height width : Z.


(** The counter of the proofs counts the threads put into the packet. *)
Lemma exec_created l w w' :
  exec height width l w = Some w' ->
  spawned (ath w')
  = (spawned (ath w)
     + if (length (batch w) <? length (batch w'))%nat then 1 else 0)%nat.
Proof.
  intros Hl. destruct l as [key|rnd ok|k]; simpl in Hl.
  - apply def_step_frame in Hl as (_ & _ & _ & -> & -> & _).
    rewrite Nat.ltb_irrefl. lia.
  - unfold atk_step in Hl.
    destruct (a_pc (ath w)) eqn:Ha; [| | | | | |done].
    + injection Hl as <-. destruct ok; simpl.
      * rewrite Nat.ltb_irrefl. lia.
      * destruct (startAtk_nomem_frame height width w) as (_ & _ & _ & ->).
        rewrite Nat.ltb_irrefl. lia.
    + destruct (gameOver (game w)); injection Hl as <-; simpl.
      * rewrite Nat.ltb_irrefl. lia.
      * destruct (Nat.ltb_spec (length (batch w)) 0); lia.
    + destruct (a_i (ath w) <? packetSize (ath w)).
      * destruct (rnd <? 0); [done|]. injection Hl as <-. simpl.
        rewrite length_app. simpl.
        destruct (Nat.ltb_spec (length (batch w)) (length (batch w) + 1));
          lia.
      * injection Hl as <-. simpl. rewrite Nat.ltb_irrefl. lia.
    + destruct (startAtk_test (game w)) as [n stop].
      destruct stop; injection Hl as <-; simpl; rewrite Nat.ltb_irrefl; lia.
    + destruct (forallb _ _); [|done]. injection Hl as <-. simpl.
      rewrite Nat.ltb_irrefl. lia.
    + injection Hl as <-. simpl. rewrite Nat.ltb_irrefl. lia.
  - apply missile_step_frame in Hl as (_ & _ & _ & _ & _ & -> & ->).
    rewrite Nat.ltb_irrefl. lia.
Qed.

Lemma run_created ls : forall w w',
  run height width ls w = Some w' ->
  spawned (ath w') = (spawned (ath w) + created height width ls w)%nat.
Proof.
  induction ls as [|l ls IH]; intros w w' Hrun; simpl in *.
  { simplify_eq. lia. }
  destruct (exec height width l w) as [w1|] eqn:Hl; [|done].
  rewrite (IH _ _ Hrun), (exec_created _ _ _ Hl). lia.
Qed.

End Created.



(** ** The missile specification *)



(** ** Erosion of the city

    What claim C4 says does hold when every column of the configuration is
    at least 2 high; the lemmas below record that, next to the failing run
    [ground_column_goes_negative] for a lower column. *)

Lemma eroded_refl l : eroded l l.
Proof. apply Forall_Forall2_diag, Forall_forall. intros; lia. Qed.

Lemma eroded_trans l1 l2 l3 : eroded l1 l2 -> eroded l2 l3 -> eroded l1 l3.
Proof.
  unfold eroded. intros H12 H23.
  eapply Forall2_trans; [|done..]. simpl. intros; lia.
Qed.

(** [layout[x]--] erodes. *)
Lemma eroded_decrement l k :
  eroded l (<[k := default 0 (l !! k) - 1]> l).
Proof.
  revert k. induction l as [|h l IH]; intros k; [constructor|].
  destruct k as [|k]; simpl.
  - constructor; [lia|apply eroded_refl].
  - constructor; [lia|apply IH].
Qed.

Lemma above_floor_decrement l k :
  above_floor l -> default 0 (l !! k) <> 2 ->
  above_floor (<[k := default 0 (l !! k) - 1]> l).
Proof.
  intros Hl Hne. destruct (l !! k) as [h|] eqn:Hk.
  - apply Forall_insert; [done|]. simpl in *.
    pose proof (Forall_lookup_1 _ _ _ _ Hl Hk). simpl in *. lia.
  - rewrite list_insert_ge; [done|]. by apply lookup_ge_None.
Qed.

Section Erosion.

Variables height width : Z.

Lemma launchMissile_tick_erodes s g m pc :
  eroded (layout g) (layout (launchMissile_tick height s g m pc).1.1.2)
  /\ (above_floor (layout g) ->
      above_floor (layout (launchMissile_tick height s g m pc).1.1.2)).
Proof.
  rewrite launchMissile_tick_layout. simpl. unfold layout_at.
  repeat case_match; try (split; [apply eroded_refl|done]).
  split; [apply eroded_decrement|].
  intros Hfloor. apply above_floor_decrement; [done|].
  match goal with H : _ && negb (_ =? 2) = true |- _ =>
    apply andb_true_iff in H as [_ H%negb_true_iff%Z.eqb_neq] end.
  done.
Qed.

Lemma exec_erodes l w w' :
  exec height width l w = Some w' ->
  eroded (layout (game w)) (layout (game w'))
  /\ (above_floor (layout (game w)) -> above_floor (layout (game w'))).
Proof.
  intros Hl. destruct l as [key|rnd ok|k]; simpl in Hl.
  - apply def_step_frame in Hl as (_ & -> & _).
    split; [apply eroded_refl|done].
  - apply atk_step_frame in Hl as (_ & -> & _).
    split; [apply eroded_refl|done].
  - unfold missile_step in Hl.
    destruct (batch w !! k) as [t|]; [|done].
    destruct (m_pc t); [| |done].
    + destruct (launchMissile_start _ _). simplify_eq/=.
      split; [apply eroded_refl|done].
    + pose proof (launchMissile_tick_erodes (scr w) (game w) (missile t)
                    (prevc t)) as Ht.
      destruct (launchMissile_tick _ _ _ _ _) as [[[s g] m] pc].
      by simplify_eq/=.
Qed.

Lemma run_erodes ls : forall w w',
  run height width ls w = Some w' ->
  eroded (layout (game w)) (layout (game w'))
  /\ (above_floor (layout (game w)) -> above_floor (layout (game w'))).
Proof.
  induction ls as [|l ls IH]; intros w w' Hrun; simpl in *.
  { simplify_eq. split; [apply eroded_refl|done]. }
  destruct (exec height width l w) as [w1|] eqn:Hl; [|done].
  apply exec_erodes in Hl as [He Hf]. destruct (IH _ _ Hrun) as [He' Hf'].
  split; [by eapply eroded_trans|auto].
Qed.

(** A missile that reaches the impact row of a column at the floor height
    explodes there and leaves the column as it is. *)
Lemma launchMissile_tick_floor s g m pc :
  column_height g (mx m) = 2 ->
  my m + 1 = impact_row height g (mx m) ->
  mc (launchMissile_tick height s g m pc).1.2 = "*"%char
  /\ layout (launchMissile_tick height s g m pc).1.1.2 = layout g.
Proof.
  intros Hcol Hrow.
  rewrite launchMissile_tick_mc, launchMissile_tick_layout. simpl.
  rewrite Hrow, Z.eqb_refl. unfold column_height in Hcol.
  destruct (Ascii.eqb _ _ || _); [done|]. split; [done|].
  destruct (Z.gtb_spec (mx m) (size g - 1)).
  - by replace (mx m <? size g) with false by lia.
  - by rewrite Hcol, andb_false_r.
Qed.

End Erosion.

Lemma layout_tokens_tallest toks : forall g,
  Forall (fun h => h <= tallest g) (layout g) ->
  Forall (fun h => h <= tallest (layout_tokens toks g))
         (layout (layout_tokens toks g)).
Proof.
  induction toks as [|tok toks IH]; intros g Hg; simpl; [done|].
  destruct (strInt tok) as [v|]; [|by apply IH].
  apply IH. simpl. apply Forall_app. split.
  - eapply Forall_impl; [done|]. simpl. intros h Hh.
    destruct (Z.gtb_spec v (tallest g)); lia.
  - repeat constructor. destruct (Z.gtb_spec v (tallest g)); lia.
Qed.

Lemma read_lines_tallest lines : forall line g line' g',
  read_lines lines line g = Ok (line', g') ->
  Forall (fun h => h <= tallest g) (layout g) ->
  Forall (fun h => h <= tallest g') (layout g').
Proof.
  induction lines as [|raw more IH]; intros line g line' g' Hr Hg; simpl in *.
  { by simplify_eq. }
  destruct (is_comment raw); [by eapply IH|].
  destruct line as [|[|[|line]]].
  - by eapply IH.
  - by eapply IH.
  - unfold missile_line in Hr.
    destruct (strInt _) as [n|]; [|done].
    destruct (n <? 0); [done|]. by eapply IH.
  - eapply IH; [done|]. by apply layout_tokens_tallest.
Qed.

(** In every run from a configuration whose columns are all at least 2
    high, every column stays between 2 and [tallest] and never grows. *)
Lemma city_floor_holds filename file height width evs w0 ls w :
  main 2 filename file height width = (evs, Some w0) ->
  above_floor (layout (game w0)) ->
  run height width ls w0 = Some w ->
  eroded (layout (game w0)) (layout (game w))
  /\ Forall (fun h => 2 <= h <= tallest (game w)) (layout (game w)).
Proof.
  intros Hmain Hfloor Hrun.
  apply main_started in Hmain as (g & Hg & _ & ->).
  destruct (start_world_fields height width g) as (Hgame & _).
  assert (Forall (fun h => h <= tallest g) (layout g)) as Htall.
  { unfold createGame in Hg. destruct file as [lines|]; [|done].
    destruct (read_lines lines 0 empty_game) as [[line g']|] eqn:Hr; [|done].
    destruct (line <? 4)%nat; [done|]. simplify_eq.
    eapply read_lines_tallest; [done|]. constructor. }
  destruct (run_erodes height width _ _ _ Hrun) as [He Hf].
  split; [done|]. specialize (Hf Hfloor).
  assert (tallest (game w) = tallest g) as ->.
  { transitivity (tallest (game (start_world height width g)));
      [|by rewrite Hgame].
    eapply (run_invariant height width
      (fun w' =>
         tallest (game w') = tallest (game (start_world height width g))));
      [|done..].
    intros l w1 w2 Hw1 Hl. rewrite <- Hw1.
    destruct l as [key|rnd ok|k]; simpl in Hl.
    - by apply def_step_frame in Hl as (_ & _ & -> & _).
    - by apply atk_step_frame in Hl as (_ & _ & -> & _).
    - by apply missile_step_frame in Hl as (_ & _ & _ & -> & _). }
  rewrite Hgame in He. simpl in He.
  apply Forall_lookup_2. intros i h Hi.
  pose proof (Forall_lookup_1 _ _ _ _ Hf Hi) as Hlow. simpl in Hlow.
  destruct (Forall2_lookup_r _ _ _ _ _ He Hi) as (h0 & Hi0 & Hle).
  pose proof (Forall_lookup_1 _ _ _ _ Htall Hi0) as Hhigh. simpl in Hhigh.
  lia.
Qed.

(** * Further properties of the code *)

(** ** [strInt] *)

(** The accumulator of [strInt] never passes [INT_MAX]. *)
Lemma strInt_loop_range s : forall i sum r,
  0 <= sum <= INT_MAX -> strInt_loop i s sum = Some r -> 0 <= r <= INT_MAX.
Proof.
  induction s as [|c s IH]; intros i sum r Hsum Hr; simpl in *.
  { by simplify_eq. }
  destruct (Nat.eqb i 0 && Ascii.eqb c "-"); [by eapply IH|].
  set (digit := char_code c - char_code "0") in *.
  destruct (Z.ltb_spec digit 0); [done|].
  destruct (Z.gtb_spec digit 9); [done|]. simpl in Hr.
  destruct (negb (sum =? 0) && (Z.quot (INT_MAX - digit) sum <? 10)) eqn:Hg;
    [done|].
  apply strInt_guard in Hg; [|lia..].
  eapply IH; [|done]. lia.
Qed.

(** X1: [strInt] accepts exactly the numerals (an optional ['-'] and at
    least one digit) that denote a number between [-INT_MAX] and [INT_MAX],
    and returns that number. *)
Theorem strInt_numerals s v :
  strInt s = Some v
  <-> is_numeral s = true /\ v = numeral_value s /\ Z.abs v <= INT_MAX.
Proof.
  split.
  - intros Hs. destruct (strInt_sound s v Hs) as [Hnum Hv].
    split; [done|]. split; [done|].
    unfold strInt in Hs.
    destruct (strInt_loop 0 s 0) as [sum|] eqn:Hl; [|done].
    apply strInt_loop_range in Hl; [|unfold INT_MAX; lia].
    destruct s as [|c s]; [done|].
    destruct (Ascii.eqb_spec c "-") as [->|Hc].
    + destruct s; simplify_eq. lia.
    + assert (v = sum); [|lia].
      destruct c as [[] [] [] [] [] [] [] []]; by simplify_eq.
  - intros (Hnum & -> & Hfit). by apply strInt_complete.
Qed.

(** ** [createGame] *)

Lemma append_cons a (s t : string) : String a s ++ t = String a (s ++ t).
Proof. reflexivity. Qed.

Lemma append_empty_l (t : string) : "" ++ t = t.
Proof. reflexivity. Qed.

Lemma append_empty_r (s : string) : s ++ "" = s.
Proof.
  induction s as [|a s IH]; [done|]. by rewrite append_cons, IH.
Qed.

Lemma rev_app_rev_app s : forall t u,
  String.rev_app (String.rev_app s t) u = String.rev_app t (s ++ u).
Proof.
  induction s as [|a s IH]; intros t u; simpl; [done|].
  by rewrite IH, append_cons.
Qed.

Lemma rev_app_empty s t : String.rev_app s t = "" -> s = "" /\ t = "".
Proof.
  revert t. induction s as [|a s IH]; intros t Ht; simpl in *; [done|].
  by apply IH in Ht as [_ ?].
Qed.

Lemma no_space_rev_app s : forall t,
  no_space (String.rev_app s t) = no_space s && no_space t.
Proof.
  induction s as [|a s IH]; intros t; simpl; [done|].
  rewrite IH. simpl. by destruct (Ascii.eqb a " "), (no_space s).
Qed.

(** Reading a token moves it, reversed, onto the token being read. *)
Lemma strtok_go_token tok : forall rest cur,
  no_space tok = true ->
  strtok_go (tok ++ rest) cur = strtok_go rest (String.rev_app tok cur).
Proof.
  induction tok as [|c tok IH]; intros rest cur Htok; simpl in *; [done|].
  apply andb_true_iff in Htok as [Hc Htok].
  apply negb_true_iff in Hc. rewrite Hc. by apply IH.
Qed.

Lemma strtok_go_spaced toks :
  Forall is_token toks ->
  strtok_go (spaced toks) "" = toks
  /\ forall cur, cur <> "" ->
       strtok_go (spaced toks) cur = String.rev cur :: toks.
Proof.
  induction 1 as [|tok toks [Hne Htok] Htoks [IH0 IH]]; simpl.
  { split; [done|]. intros cur Hcur. by destruct cur. }
  assert (strtok_go (tok ++ spaced toks) "" = tok :: toks) as Hread.
  { rewrite strtok_go_token by done. rewrite IH.
    - unfold String.rev. by rewrite rev_app_rev_app, append_empty_r.
    - intros [-> _]%rev_app_empty. done. }
  split; [done|]. intros cur Hcur. destruct cur; [done|]. by rewrite Hread.
Qed.

Lemma strtok_go_tokens s : forall cur,
  no_space cur = true -> Forall is_token (strtok_go s cur).
Proof.
  assert (forall cur, cur <> "" -> no_space cur = true ->
                      is_token (String.rev cur)) as Hrev.
  { intros cur Hne Hcur. split.
    - intros [-> _]%rev_app_empty. done.
    - unfold String.rev. by rewrite no_space_rev_app, Hcur. }
  induction s as [|c s IH]; intros cur Hcur; simpl.
  { destruct cur; [constructor|].
    apply Forall_cons. split; [by apply Hrev|constructor]. }
  destruct (Ascii.eqb c " ") eqn:Hc.
  - destruct cur; [by apply IH|].
    apply Forall_cons. split; [by apply Hrev|by apply IH].
  - apply IH. simpl. by rewrite Hc.
Qed.

(** X6: [strtok] with the delimiter [" "] returns tokens that are not
    empty and hold no space, and it returns exactly the tokens of a line in
    which each token is written after one space. *)
Theorem strtok_round_trip :
  (forall s, Forall is_token (strtok s))
  /\ (forall toks, Forall is_token toks -> strtok (spaced toks) = toks).
Proof.
  split.
  - intros s. by apply strtok_go_tokens.
  - intros toks Htoks. by apply strtok_go_spaced.
Qed.

Lemma strtok_round_trip_witness :
  Forall is_token ["3"; "x"; "25"]
  /\ strtok (spaced ["3"; "x"; "25"]) = ["3"; "x"; "25"].
Proof.
  assert (Forall is_token ["3"; "x"; "25"]) as Htoks
    by (repeat constructor; discriminate).
  split; [exact Htoks|].
  exact (proj2 strtok_round_trip ["3"; "x"; "25"] Htoks).
Defined.

(** X2: [createGame] skips every line that starts with ['#'], wherever it
    stands: a configuration and the same configuration without those lines
    give the same result. *)
Theorem createGame_ignores_comments filename lines :
  createGame filename (Some lines) = createGame filename (Some (content lines)).
Proof.
  unfold createGame.
  by rewrite (read_lines_content lines).
Qed.

(** X3: a configuration that stops early is fatal, and the message names
    the first section that is missing: the defender's name, the attacker's
    name, the missile specification, or (after an accepted missile
    specification) the city layout. *)
Theorem createGame_missing_sections filename lines :
  (content lines = [] ->
   createGame filename (Some lines)
   = Fatal (ErrText "Error: missing defender name."))
  /\ (forall d, content lines = [d] ->
      createGame filename (Some lines)
      = Fatal (ErrText "Error: missing attacker name."))
  /\ (forall d a, content lines = [d; a] ->
      createGame filename (Some lines)
      = Fatal (ErrText "Error: missing missile specification."))
  /\ (forall d a raw n, content lines = [d; a; raw] ->
      strInt (strip_last raw) = Some n -> 0 <= n ->
      createGame filename (Some lines)
      = Fatal (ErrText "Error: missing city layout.")).
Proof.
  pose proof (content_not_comment lines) as Hnc.
  split; [|split; [|split]].
  - intros Hc. unfold createGame. by rewrite read_lines_content, Hc.
  - intros d Hc. unfold createGame. rewrite read_lines_content, Hc.
    rewrite Hc in Hnc. apply Forall_cons in Hnc as [Hd _].
    simpl. by rewrite Hd.
  - intros d a Hc. unfold createGame. rewrite read_lines_content, Hc.
    rewrite Hc in Hnc. apply Forall_cons in Hnc as [Hd Hnc].
    apply Forall_cons in Hnc as [Ha _].
    simpl. by rewrite Hd, Ha.
  - intros d a raw n Hc Hn Hpos.
    rewrite (createGame_budget filename _ _ _ _ _ Hc).
    by rewrite (missile_line_ok _ _ n Hn Hpos).
Qed.

Lemma createGame_missing_sections_witness :
  createGame "siege.cfg"
    (Some ["# only a name" ++ newline; "Minas Tirith" ++ newline])
  = Fatal (ErrText "Error: missing attacker name.")
  /\ createGame "siege.cfg"
       (Some ["Minas Tirith" ++ newline; "Mordor" ++ newline; "5" ++ newline])
     = Fatal (ErrText "Error: missing city layout.").
Proof.
  split.
  - apply (proj1 (proj2 (createGame_missing_sections "siege.cfg" _))
             ("Minas Tirith" ++ newline)).
    reflexivity.
  - apply (proj2 (proj2 (proj2 (createGame_missing_sections "siege.cfg" _)))
             ("Minas Tirith" ++ newline) ("Mordor" ++ newline)
             ("5" ++ newline) 5);
      [reflexivity | reflexivity | lia].
Defined.

Lemma strndup_length s : forall n, (String.length (strndup s n) <= n)%nat.
Proof.
  induction s as [|c s IH]; intros [|n]; simpl; try lia.
  specialize (IH n). lia.
Qed.

Lemma strndup_short s : forall n,
  (String.length s <= n)%nat -> strndup s n = s.
Proof.
  induction s as [|c s IH]; intros [|n] Hn; simpl in *; try done; [lia|].
  rewrite IH; [done|lia].
Qed.

(** What a city row does to the game. *)
Lemma layout_tokens_spec toks : forall g,
  layout (layout_tokens toks g) = (layout g ++ omap strInt toks)%list
  /\ tallest (layout_tokens toks g)
     = foldl Z.max (tallest g) (omap strInt toks)
  /\ defender (layout_tokens toks g) = defender g.
Proof.
  induction toks as [|tok toks IH]; intros g; simpl.
  { by rewrite app_nil_r. }
  destruct (strInt tok) as [v|]; simpl; [|apply IH].
  destruct (IH {| defender := defender g; attacker := attacker g;
                  layout := layout g ++ [v];
                  tallest := if v >? tallest g then v else tallest g;
                  gameOver := gameOver g |}) as (-> & -> & ->). simpl.
  rewrite <- app_assoc. split; [done|]. split; [|done]. f_equal.
  destruct (Z.gtb_spec v (tallest g)); lia.
Qed.

Lemma read_lines_city_spec rows : forall line g,
  (3 <= line)%nat ->
  Forall (fun raw => is_comment raw = false) rows ->
  exists g', read_lines rows line g = Ok ((line + length rows)%nat, g')
             /\ layout g' = (layout g ++ omap strInt (city_tokens rows))%list
             /\ tallest g'
                = foldl Z.max (tallest g) (omap strInt (city_tokens rows))
             /\ defender g' = defender g /\ attacker g' = attacker g.
Proof.
  induction rows as [|raw rows IH]; intros line g Hline Hnc; simpl.
  { exists g. by rewrite Nat.add_0_r, app_nil_r. }
  apply Forall_cons in Hnc as [Hraw Hnc]. rewrite Hraw.
  destruct line as [|[|[|line]]]; [lia..|].
  destruct (layout_tokens_spec (strtok (strip_last raw)) g) as (Hl & Ht & Hd).
  destruct (layout_tokens_attacker (strtok (strip_last raw)) g) as [Ha _].
  destruct (IH (S (S (S (S line)))) (layout_tokens (strtok (strip_last raw)) g))
    as (g' & Hg' & Hl' & Ht' & Hd' & Ha'); [lia|done|].
  exists g'. rewrite Hg', Hl', Ht', Hd', Ha', Hl, Ht, Hd, Ha.
  unfold city_tokens. simpl. rewrite omap_app, foldl_app, <- app_assoc.
  repeat split; try done. do 2 f_equal. lia.
Qed.

(** X4: in an accepted configuration the two names are the first two
    lines that are not comments, without their last character and cut to 80
    characters; a name of up to 80 characters is kept whole. *)
Theorem createGame_names filename lines d a raw rows g :
  content lines = d :: a :: raw :: rows ->
  createGame filename (Some lines) = Ok g ->
  d_name (defender g) = Some (strndup (strip_last d) 80)
  /\ a_name (attacker g) = Some (strndup (strip_last a) 80)
  /\ (forall s, (String.length (strndup s 80) <= 80)%nat)
  /\ (forall s, (String.length s <= 80)%nat -> strndup s 80 = s).
Proof.
  intros Hc Hg. rewrite (createGame_budget filename _ _ _ _ _ Hc) in Hg.
  pose proof (content_not_comment lines) as Hnc. rewrite Hc in Hnc.
  do 3 (apply Forall_cons in Hnc as [_ Hnc]).
  split; [|split; [|split]].
  3: intros s; apply strndup_length.
  3: intros s; apply strndup_short.
  all: unfold missile_line in Hg.
  all: destruct (strInt (strip_last raw)) as [n|]; [|done].
  all: destruct (n <? 0); [done|].
  all: edestruct (read_lines_city_spec rows 3) as (g' & Hr & _ & _ & Hd & Ha);
    [lia|done|].
  all: rewrite Hr in Hg.
  all: destruct (3 + length rows <? 4)%nat; [done|].
  all: simplify_eq; by rewrite ?Hd, ?Ha.
Qed.

Lemma createGame_names_witness :
  content siege_file
  = ["Minas Tirith" ++ newline; "Mordor" ++ newline; "5" ++ newline;
     "3 3 3 2 2" ++ newline]
  /\ createGame "siege.cfg" (Some siege_file) = Ok siege_game
  /\ d_name (defender siege_game)
     = Some (strndup (strip_last ("Minas Tirith" ++ newline)) 80).
Proof.
  split; [reflexivity|]. split; [reflexivity|].
  apply (createGame_names "siege.cfg" siege_file _ ("Mordor" ++ newline)
           ("5" ++ newline) ["3 3 3 2 2" ++ newline] siege_game);
    reflexivity.
Defined.

(** X5: in an accepted configuration the city is made of the tokens of
    the lines after the missile specification that [strInt] accepts, in
    their order (the other tokens are skipped), and [tallest] is the largest
    of 0 and the heights of the city. *)
Theorem createGame_city filename lines d a raw rows g :
  content lines = d :: a :: raw :: rows ->
  createGame filename (Some lines) = Ok g ->
  layout g = omap strInt (city_tokens rows)
  /\ tallest g = foldl Z.max 0 (layout g).
Proof.
  intros Hc Hg. rewrite (createGame_budget filename _ _ _ _ _ Hc) in Hg.
  pose proof (content_not_comment lines) as Hnc. rewrite Hc in Hnc.
  do 3 (apply Forall_cons in Hnc as [_ Hnc]).
  unfold missile_line in Hg.
  destruct (strInt (strip_last raw)) as [n|]; [|done].
  destruct (n <? 0); [done|].
  edestruct (read_lines_city_spec rows 3) as (g' & Hr & Hl & Ht & _);
    [lia|done|].
  rewrite Hr in Hg.
  destruct (3 + length rows <? 4)%nat; [done|].
  simplify_eq. simpl in *. by rewrite Ht, Hl.
Qed.

Lemma createGame_city_witness :
  content minus_zero_file
  = ["Minas Tirith" ++ newline; "Mordor" ++ newline; "-0" ++ newline;
     "3 3 3 2 2" ++ newline]
  /\ exists g, createGame "siege.cfg" (Some minus_zero_file) = Ok g
               /\ layout g = omap strInt (city_tokens ["3 3 3 2 2" ++ newline])
               /\ tallest g = foldl Z.max 0 (layout g).
Proof.
  split; [reflexivity|].
  eexists. split; [reflexivity|].
  eapply (createGame_city "siege.cfg" minus_zero_file); reflexivity.
Defined.


(** ** The curses window *)

Lemma length_delch_row x r : length (delch_row x r) = length r.
Proof.
  unfold delch_row. destruct (Nat.ltb_spec x (length r)); [|done].
  rewrite !length_app, length_take, length_drop. simpl. lia.
Qed.

Lemma length_insch_row x ch r : length (insch_row x ch r) = length r.
Proof.
  unfold insch_row. destruct (Nat.ltb_spec x (length r)); [|done].
  rewrite length_take, length_app, length_take. simpl. rewrite length_drop. lia.
Qed.

(** Deleting a cell and inserting a character in its place overwrites the
    cell. *)
Lemma put_row x ch r : insch_row x ch (delch_row x r) = <[x := ch]> r.
Proof.
  unfold insch_row. rewrite length_delch_row. unfold delch_row.
  destruct (Nat.ltb_spec x (length r)) as [Hx|Hx]; [|by rewrite list_insert_ge].
  assert (length (take x r) = x) as Htake by (rewrite length_take; lia).
  assert (take x (take x r ++ drop (S x) r ++ [" "%char])%list = take x r)
    as ->.
  { rewrite take_app_le by lia. rewrite take_take. f_equal. lia. }
  assert (drop x (take x r ++ drop (S x) r ++ [" "%char])%list
          = (drop (S x) r ++ [" "%char])%list) as ->.
  { rewrite drop_app_ge by lia. by rewrite Htake, Nat.sub_diag. }
  rewrite insert_take_drop by done.
  change (take x r ++ ch :: drop (S x) r ++ [" "%char])%list
    with (take x r ++ (ch :: drop (S x) r) ++ [" "%char])%list.
  rewrite app_assoc. apply take_app_length'.
  rewrite length_app, Htake. simpl. rewrite length_drop. lia.
Qed.

Lemma put_alter s y x ch :
  0 <= y -> 0 <= x ->
  put s y x ch = alter (fun r => <[Z.to_nat x := ch]> r) (Z.to_nat y) s.
Proof.
  intros Hy Hx. unfold put, mvinsch, mvdelch.
  replace (y <? 0) with false by lia. replace (x <? 0) with false by lia.
  simpl. rewrite list_alter_alter_eq. apply list_alter_ext; [|done].
  intros r _. apply put_row.
Qed.

Lemma mvinch_put_same s y x ch :
  in_window s y x -> mvinch (put s y x ch) y x = ch.
Proof.
  intros (Hy & Hx & r & Hr & Hlen). rewrite put_alter by done.
  unfold mvinch. replace (y <? 0) with false by lia.
  replace (x <? 0) with false by lia. simpl.
  rewrite list_lookup_alter_eq, Hr. simpl.
  by rewrite list_lookup_insert_eq.
Qed.

Lemma mvinch_put_other s y x ch y' x' :
  y' <> y \/ x' <> x -> mvinch (put s y x ch) y' x' = mvinch s y' x'.
Proof.
  intros Hne.
  destruct (Z.ltb_spec y 0) as [Hy|Hy].
  { unfold put, mvinsch, mvdelch. by replace (y <? 0) with true by lia. }
  destruct (Z.ltb_spec x 0) as [Hx|Hx].
  { unfold put, mvinsch, mvdelch. replace (x <? 0) with true by lia.
    by rewrite !orb_true_r. }
  rewrite put_alter by done. unfold mvinch.
  destruct (Z.ltb_spec y' 0); [done|].
  destruct (Z.ltb_spec x' 0); [done|]. simpl.
  destruct (decide (y' = y)) as [->|Hy'].
  - rewrite list_lookup_alter_eq. destruct (s !! Z.to_nat y) as [r|]; [|done].
    simpl. rewrite list_lookup_insert_ne; [done|]. lia.
  - rewrite list_lookup_alter_ne; [done|]. lia.
Qed.

Lemma window_size_alter h w s (f : list ascii -> list ascii) k :
  (forall r, length (f r) = length r) ->
  window_size h w s -> window_size h w (alter f k s).
Proof.
  intros Hf [Hh Hw]. split.
  - by rewrite length_alter.
  - apply Forall_lookup_2. intros i r Hi.
    destruct (decide (k = i)) as [->|Hne].
    + rewrite list_lookup_alter_eq in Hi.
      destruct (s !! i) as [r0|] eqn:Hr0; simplify_eq/=.
      rewrite Hf. by apply (Forall_lookup_1 _ _ _ _ Hw Hr0).
    + rewrite list_lookup_alter_ne in Hi by done.
      by apply (Forall_lookup_1 _ _ _ _ Hw Hi).
Qed.

Lemma window_size_mvdelch h w s y x :
  window_size h w s -> window_size h w (mvdelch s y x).
Proof.
  intros Hs. unfold mvdelch. case_match; [done|].
  apply window_size_alter; [|done]. intros r. apply length_delch_row.
Qed.

Lemma window_size_mvinsch h w s y x ch :
  window_size h w s -> window_size h w (mvinsch s y x ch).
Proof.
  intros Hs. unfold mvinsch. case_match; [done|].
  apply window_size_alter; [|done]. intros r. apply length_insch_row.
Qed.

Lemma window_size_put h w s y x ch :
  window_size h w s -> window_size h w (put s y x ch).
Proof. intros Hs. by apply window_size_mvinsch, window_size_mvdelch. Qed.

Lemma window_size_blank h w : window_size h w (blank_screen h w).
Proof.
  unfold blank_screen. split.
  - by rewrite length_replicate.
  - apply Forall_replicate. by rewrite length_replicate.
Qed.

(** In a window of [h] rows of [w] cells the cells are the positions with
    [0 <= y < h] and [0 <= x < w]. *)
Lemma in_window_size h w s y x :
  window_size h w s -> in_window s y x <-> 0 <= y < h /\ 0 <= x < w.
Proof.
  intros [Hh Hw]. unfold in_window. split.
  - intros (Hy & Hx & r & Hr & Hlen).
    pose proof (lookup_lt_Some _ _ _ Hr) as Hlt.
    pose proof (Forall_lookup_1 _ _ _ _ Hw Hr) as Hrw. simpl in Hrw. lia.
  - intros [Hy Hx]. split; [lia|]. split; [lia|].
    destruct (lookup_lt_is_Some_2 s (Z.to_nat y)) as [r Hr]; [lia|].
    exists r. split; [done|].
    pose proof (Forall_lookup_1 _ _ _ _ Hw Hr) as Hrw. simpl in Hrw. lia.
Qed.

(** X9: overwriting a cell of the window with [mvdelch] and [mvinsch] of
    a printable character makes [mvinch] read that character there and
    leaves every other position as it was; outside the window it changes
    nothing. *)
Theorem put_then_mvinch s y x ch :
  printable ch = true ->
  (in_window s y x -> mvinch (put s y x ch) y x = ch)
  /\ (forall y' x', y' <> y \/ x' <> x ->
        mvinch (put s y x ch) y' x' = mvinch s y' x')
  /\ (~ in_window s y x -> put s y x ch = s).
Proof.
  intros _. split; [apply mvinch_put_same|]. split; [apply mvinch_put_other|].
  intros Hout.
  destruct (Z.ltb_spec y 0) as [Hy|Hy].
  { unfold put, mvinsch, mvdelch. by replace (y <? 0) with true by lia. }
  destruct (Z.ltb_spec x 0) as [Hx|Hx].
  { unfold put, mvinsch, mvdelch. replace (x <? 0) with true by lia.
    by rewrite !orb_true_r. }
  rewrite put_alter by done.
  destruct (s !! Z.to_nat y) as [r|] eqn:Hr.
  - apply list_eq. intros i. destruct (decide (Z.to_nat y = i)) as [<-|Hne].
    + rewrite list_lookup_alter_eq, Hr. simpl. f_equal.
      apply list_insert_ge.
      destruct (Nat.le_gt_cases (length r) (Z.to_nat x)); [done|].
      destruct Hout. split; [done|]. split; [done|]. by exists r.
    + by rewrite list_lookup_alter_ne.
  - apply list_eq. intros i. destruct (decide (Z.to_nat y = i)) as [<-|Hne].
    + by rewrite list_lookup_alter_eq, Hr.
    + by rewrite list_lookup_alter_ne.
Qed.

Lemma put_then_mvinch_witness :
  printable "#" = true /\ in_window (blank_screen 9 20) 4 8
  /\ mvinch (put (blank_screen 9 20) 4 8 "#") 4 8 = "#"%char.
Proof.
  assert (in_window (blank_screen 9 20) 4 8) as Hin.
  { split; [lia|]. split; [lia|]. eexists. split; [reflexivity|]. simpl. lia. }
  split; [reflexivity|]. split; [exact Hin|].
  exact (proj1 (put_then_mvinch (blank_screen 9 20) 4 8 "#" eq_refl) Hin).
Defined.

Lemma foldl_invariant {A B} (P : A -> Prop) (f : A -> B -> A) l : forall a,
  (forall a b, P a -> P (f a b)) -> P a -> P (foldl f a l).
Proof.
  induction l as [|b l IH]; intros a Hf Ha; simpl; [done|].
  apply IH; [done|]. by apply Hf.
Qed.

Section WindowSize.

Variables height width : Z.

Lemma window_size_wall s lo x :
  window_size height width s ->
  window_size height width (wall height s lo x).
Proof.
  intros Hs. unfold wall.
  apply (foldl_invariant (window_size height width)); [|done].
  intros s' j Hs'. by apply window_size_mvinsch.
Qed.

Lemma window_size_close_roof s prev i :
  window_size height width s ->
  window_size height width (close_roof height s prev i).
Proof.
  intros Hs. unfold close_roof. case_match; [|done].
  by apply window_size_wall, window_size_mvdelch.
Qed.

Lemma window_size_initDisplay s g :
  window_size height width s ->
  window_size height width (initDisplay height width s g).1.
Proof.
  intros Hs. unfold initDisplay. simpl.
  do 5 apply window_size_mvinsch.
  apply (foldl_invariant
           (fun st : Screen * Z => window_size height width st.1)); [|done].
  intros [s' prev] i Hs'. unfold initDisplay_column. simpl in *.
  repeat case_match;
    auto using window_size_mvinsch, window_size_wall, window_size_close_roof.
Qed.

Lemma window_size_displayMessage_chars str : forall s r c,
  window_size height width s ->
  window_size height width (displayMessage_chars height width str s r c).1.
Proof.
  induction str as [|ch str IH]; intros s r c Hs; simpl; [done|].
  case_match; [done|]. by apply IH, window_size_put.
Qed.

Lemma window_size_displayMessage s str r c b :
  window_size height width s ->
  window_size height width (displayMessage height width s str r c b).1.1.1.
Proof.
  intros Hs. unfold displayMessage.
  case_match; [done|]. case_match; [|done]. case_match; [done|].
  pose proof (window_size_displayMessage_chars str s
                (if negb (z =? 0) && negb (z =? 1) && b && (z >? 0)
                    && negb (Ascii.eqb (mvinch s (z - 1) 0) " ")
                 then z + 1 else z) c Hs) as Hc.
  by destruct (displayMessage_chars _ _ _ _ _ _) as [s' [c'|]].
Qed.

Lemma window_size_say str b st :
  window_size height width st.1.1 ->
  window_size height width (say height width str b st).1.1.
Proof.
  destruct st as [[s r] c]. simpl. intros Hs.
  pose proof (window_size_displayMessage s str r c b Hs) as H1.
  destruct (displayMessage height width s str r c b) as [[[s1 r1] c1] ok].
  simpl in H1. destruct ok; [done|].
  pose proof (window_size_displayMessage s1 str 1 c1 false H1) as H2.
  by destruct (displayMessage height width s1 str 1 c1 false)
    as [[[s2 r2] c2] ok2].
Qed.

Lemma window_size_announce name what w :
  window_size height width (scr w) ->
  window_size height width (scr (announce height width name what w)).
Proof.
  intros Hs.
  change (scr (announce height width name what w))
    with (say height width what false
            (say height width (default "" name) false
               (say height width "The " true (scr w, row w, col w)))).1.1.
  by do 3 apply window_size_say.
Qed.

Lemma window_size_startAtk_nomem w :
  window_size height width (scr w) ->
  window_size height width (scr (startAtk_nomem height width w)).
Proof.
  intros Hs. unfold startAtk_nomem.
  pose proof (window_size_displayMessage (scr w) "startAtk: " 1 (col w) false
                Hs) as H1.
  destruct (displayMessage height width (scr w) "startAtk: " 1 (col w) false)
    as [[[s1 r1] c1] ok1]. simpl in H1.
  pose proof (window_size_displayMessage s1 strerror_ENOMEM r1 c1 false H1)
    as H2.
  by destruct (displayMessage height width s1 strerror_ENOMEM r1 c1 false)
    as [[[s2 r2] c2] ok2].
Qed.

Lemma window_size_draw_shield s y x :
  window_size height width s -> window_size height width (draw_shield s y x).
Proof.
  intros Hs. unfold draw_shield.
  apply (foldl_invariant (window_size height width)); [|done].
  intros; by apply window_size_put.
Qed.

Lemma window_size_startDef_key key s g b :
  window_size height width s ->
  window_size height width (startDef_key width key s g b).1.1.
Proof.
  intros Hs. unfold startDef_key.
  repeat case_match; simpl;
    auto using window_size_draw_shield, window_size_put.
Qed.

Lemma window_size_launchMissile_tick s g m pc :
  window_size height width s ->
  window_size height width (launchMissile_tick height s g m pc).1.1.1.
Proof.
  intros Hs. unfold launchMissile_tick.
  repeat case_match; simplify_eq/=; auto 10 using window_size_put.
Qed.

Lemma window_size_exec l w w' :
  exec height width l w = Some w' ->
  window_size height width (scr w) ->
  window_size height width (scr w').
Proof.
  intros Hl Hs. destruct l as [key|rnd ok|k]; simpl in Hl.
  - unfold def_step in Hl. destruct (d_pc (dth w)); simplify_eq/=; [done| |].
    + pose proof (window_size_startDef_key key (scr w) (game w) (d_b (dth w))
                    Hs) as Hk.
      destruct (startDef_key _ _ _ _ _) as [[s g] b]. by simplify_eq/=.
    + by apply (window_size_announce _ _ w).
  - unfold atk_step in Hl.
    destruct (a_pc (ath w)); simplify_eq/=; try done.
    + destruct ok; [done|]. by apply window_size_startAtk_nomem.
    + by repeat case_match; simplify_eq/=.
    + by repeat case_match; simplify_eq/=.
    + destruct (startAtk_test (game w)) as [n stop].
      by destruct stop; simplify_eq/=.
    + by case_match; simplify_eq/=.
    + by apply (window_size_announce _ _ w).
  - unfold missile_step in Hl.
    destruct (batch w !! k) as [t|]; [|done].
    destruct (m_pc t); [| |done].
    + unfold launchMissile_start in Hl. simplify_eq/=.
      by apply window_size_put.
    + pose proof (window_size_launchMissile_tick (scr w) (game w) (missile t)
                    (prevc t) Hs) as Ht.
      destruct (launchMissile_tick _ _ _ _ _) as [[[s g] m] pc].
      by simplify_eq/=.
Qed.

Lemma window_size_start_world g :
  window_size height width (scr (start_world height width g)).
Proof.
  unfold start_world.
  pose proof (window_size_initDisplay (blank_screen height width) g
                (window_size_blank height width)) as Hi.
  destruct (initDisplay height width (blank_screen height width) g)
    as [s g'] eqn:Hinit. simpl in Hi.
  pose proof (window_size_displayMessage s instructions 0 0 false Hi) as Hm.
  by destruct (displayMessage height width s instructions 0 0 false)
    as [[[s' r'] c'] ok'].
Qed.

End WindowSize.

(** X8: the window keeps its size: in every state of every run it has
    [height] rows of [width] cells, so the positions [mvinch] can read are
    those with [0 <= y < height] and [0 <= x < width]. *)
Theorem window_keeps_size filename file height width evs w0 ls w :
  main 2 filename file height width = (evs, Some w0) ->
  run height width ls w0 = Some w ->
  window_size height width (scr w)
  /\ forall y x, in_window (scr w) y x <-> 0 <= y < height /\ 0 <= x < width.
Proof.
  intros Hmain Hrun.
  apply main_started in Hmain as (g & _ & _ & ->).
  assert (window_size height width (scr w)) as Hs.
  { eapply (run_invariant height width
      (fun w => window_size height width (scr w))); [|..|done].
    - intros l w1 w2 Hw1 Hl. by eapply window_size_exec.
    - apply window_size_start_world. }
  split; [done|]. intros y x. by apply in_window_size.
Qed.

Lemma window_keeps_size_witness :
  main 2 "siege.cfg" (Some siege_file) 9 20 = ([Initscr], Some siege_world)
  /\ exists w,
       run 9 20 chain_schedule siege_world = Some w
       /\ window_size 9 20 (scr w)
       /\ forall y x, in_window (scr w) y x <-> 0 <= y < 9 /\ 0 <= x < 20.
Proof.
  split; [reflexivity|].
  eexists. split; [vm_compute; reflexivity|].
  eapply (window_keeps_size "siege.cfg" (Some siege_file) 9 20 [Initscr]
            siege_world chain_schedule);
    [reflexivity | vm_compute; reflexivity].
Defined.

(** ** The configuration file, again *)

Lemma strip_last_snoc s c : strip_last (s ++ String c "") = s.
Proof.
  induction s as [|a s IH]; [done|].
  rewrite append_cons. simpl. rewrite IH.
  destruct s; done.
Qed.

Lemma is_comment_append s t : s <> "" -> is_comment (s ++ t) = is_comment s.
Proof. by destruct s. Qed.

Lemma read_lines_last pre raw raw' : forall line g,
  is_comment raw = is_comment raw' -> strip_last raw = strip_last raw' ->
  read_lines (pre ++ [raw])%list line g
  = read_lines (pre ++ [raw'])%list line g.
Proof.
  induction pre as [|l pre IH]; intros line g Hc Hs; simpl.
  - by rewrite Hc, Hs.
  - destruct (is_comment l); [by apply IH|].
    destruct line as [|[|[|line]]]; try by apply IH.
    destruct (missile_line _ _); [by apply IH|done].
Qed.

(** X7: [createGame] drops the last character of every line, newline or
    not: a configuration whose last line lacks its newline is read as if the
    last character of that line were the newline. *)
Theorem createGame_final_newline filename pre s c :
  s <> "" ->
  createGame filename (Some (pre ++ [(s ++ String c "")%string])%list)
  = createGame filename (Some (pre ++ [(s ++ newline)%string])%list).
Proof.
  intros Hs. unfold createGame.
  rewrite (read_lines_last pre (s ++ String c "") (s ++ newline)); [done|..].
  - by rewrite !is_comment_append.
  - unfold newline. by rewrite !strip_last_snoc.
Qed.

Lemma createGame_final_newline_witness :
  "3 3 3 2 " <> ""
  /\ createGame "siege.cfg"
       (Some ([("Minas Tirith" ++ newline)%string; ("Mordor" ++ newline)%string;
               ("5" ++ newline)%string]
              ++ [("3 3 3 2 " ++ "2")%string])%list)
     = createGame "siege.cfg"
         (Some ([("Minas Tirith" ++ newline)%string;
                 ("Mordor" ++ newline)%string; ("5" ++ newline)%string]
                ++ [("3 3 3 2 " ++ newline)%string])%list).
Proof.
  split; [discriminate|].
  apply (createGame_final_newline "siege.cfg" _ "3 3 3 2 " "2"). discriminate.
Defined.

(** ** Reading the window after writing it *)

(** In a window of known size, what [mvinch] reads after a cell has been
    overwritten. *)
Lemma mvinch_put h w s y x ch y' x' :
  window_size h w s -> 0 <= y < h -> 0 <= x < w ->
  mvinch (put s y x ch) y' x'
  = if (y' =? y) && (x' =? x) then ch else mvinch s y' x'.
Proof.
  intros Hs Hy Hx.
  destruct (Z.eqb_spec y' y) as [->|Hy']; simpl.
  - destruct (Z.eqb_spec x' x) as [->|Hx'].
    + apply mvinch_put_same. by apply (in_window_size h w).
    + apply mvinch_put_other. by right.
  - apply mvinch_put_other. by left.
Qed.

(** The cells of a row after [n] insertions of [ch] at column [x]. *)
Lemma insch_row_lookup x ch r j :
  (x < length r)%nat ->
  insch_row x ch r !! j
  = if (j <? x)%nat then r !! j
    else if (j =? x)%nat then Some ch
    else if (j <? length r)%nat then r !! (j - 1)%nat else None.
Proof.
  intros Hx. unfold insch_row.
  assert ((x <? length r)%nat = true) as -> by by apply Nat.ltb_lt.
  assert (length (take x r) = x) as Htake by (rewrite length_take; lia).
  destruct (Nat.ltb_spec j x) as [Hj|Hj].
  - rewrite lookup_take_lt by lia. rewrite lookup_app_l by lia.
    by rewrite lookup_take_lt.
  - destruct (Nat.eqb_spec j x) as [->|Hne].
    + rewrite lookup_take_lt by lia. rewrite lookup_app_r by lia.
      by rewrite Htake, Nat.sub_diag.
    + destruct (Nat.ltb_spec j (length r)) as [Hlt|Hge].
      * rewrite lookup_take_lt by lia. rewrite lookup_app_r by lia.
        rewrite Htake. destruct (j - x)%nat as [|k] eqn:Hk; [lia|]. simpl.
        rewrite lookup_drop. f_equal. lia.
      * by rewrite lookup_take_ge.
Qed.

Lemma insch_row_repeat x ch r n : forall i,
  (x + n <= length r)%nat -> (i < n)%nat ->
  Nat.iter n (insch_row x ch) r !! (x + i)%nat = Some ch.
Proof.
  induction n as [|n IH]; intros i Hn Hi; [lia|]. simpl.
  assert (length (Nat.iter n (insch_row x ch) r) = length r) as Hlen.
  { clear. induction n as [|n IHn]; simpl; [done|].
    by rewrite length_insch_row. }
  rewrite insch_row_lookup by lia.
  destruct (Nat.ltb_spec (x + i) x); [lia|].
  destruct (Nat.eqb_spec (x + i) x); [done|].
  destruct (Nat.ltb_spec (x + i) (length (Nat.iter n (insch_row x ch) r)));
    [|lia].
  replace (x + i - 1)%nat with (x + (i - 1))%nat by lia.
  apply IH; lia.
Qed.

Lemma mvinsch_repeat s y x ch n :
  0 <= y -> 0 <= x ->
  Nat.iter n (fun s' => mvinsch s' y x ch) s
  = alter (Nat.iter n (insch_row (Z.to_nat x) ch)) (Z.to_nat y) s.
Proof.
  intros Hy Hx. induction n as [|n IH]; simpl.
  - symmetry. by apply list_alter_id.
  - rewrite IH. unfold mvinsch. replace (y <? 0) with false by lia.
    replace (x <? 0) with false by lia. simpl.
    by rewrite list_alter_alter_eq.
Qed.

(** X10: [initDisplay] puts the shield at row
    [height - max(2, tallest) - 2] and column [width / 2 - 2].  On a
    terminal that has passed the check of [main] and is at least five cells
    wide, that row lies between row 3 and row [height - 4], at least two rows
    above the top of the tallest column, and after [initDisplay] the five
    cells from the shield's column on hold ['#']. *)
Theorem initDisplay_shield height width s g :
  5 <= width -> too_short height g = false -> window_size height width s ->
  let r := initDisplay height width s g in
  let sy := shieldY (defender r.2) in
  let sx := shieldX (defender r.2) in
  sy = height - Z.max 2 (tallest g) - 2
  /\ sx = Z.quot width 2 - 2
  /\ 3 <= sy <= height - 4
  /\ sy + 2 <= height - tallest g
  /\ 0 <= sx <= width - 5
  /\ forall i, 0 <= i < 5 -> mvinch r.1 sy (sx + i) = "#"%char.
Proof.
  intros Hw Hshort Hs r sy sx.
  assert (sy = height - Z.max 2 (tallest g) - 2) as Hsy.
  { subst sy r. simpl. destruct (Z.ltb_spec (tallest g) 2); lia. }
  assert (sx = Z.quot width 2 - 2) as Hsx by done.
  assert (0 <= sx <= width - 5) as Hsx_range.
  { rewrite Hsx, Z.quot_div_nonneg by lia.
    assert (2 <= width / 2) by (apply Z.div_le_lower_bound; lia).
    assert (width / 2 < width - 2); [|lia].
    apply Z.div_lt_upper_bound; lia. }
  assert (3 <= sy <= height - 4) as Hsy_range.
  { unfold too_short in Hshort. apply Z.ltb_ge in Hshort.
    destruct (Z.ltb_spec (tallest g) 2); lia. }
  split; [done|]. split; [done|]. split; [done|]. split; [lia|].
  split; [done|]. intros i Hi.
  set (s1 := (foldl (initDisplay_column height g) (s, 2) (seqZ 0 width)).1).
  assert (window_size height width s1) as Hs1.
  { subst s1.
    apply (foldl_invariant
             (fun st : Screen * Z => window_size height width st.1)); [|done].
    intros [s' prev] j Hs'. unfold initDisplay_column. simpl in *.
    repeat case_match;
      auto using window_size_mvinsch, window_size_wall,
        window_size_close_roof. }
  assert (r.1 = Nat.iter 5 (fun s' => mvinsch s' sy sx "#") s1) as ->.
  { subst r s1 sy sx. unfold initDisplay. simpl.
    by destruct (Z.ltb_spec (tallest g) 2). }
  rewrite mvinsch_repeat by lia.
  destruct Hs1 as [Hrows Hcols].
  destruct (lookup_lt_is_Some_2 s1 (Z.to_nat sy)) as [row Hrow]; [lia|].
  pose proof (Forall_lookup_1 _ _ _ _ Hcols Hrow) as Hlen. simpl in Hlen.
  unfold mvinch. replace (sy <? 0) with false by lia.
  replace (sx + i <? 0) with false by lia. simpl.
  rewrite list_lookup_alter_eq, Hrow.
  replace (Z.to_nat (sx + i)) with (Z.to_nat sx + Z.to_nat i)%nat by lia.
  pose proof (insch_row_repeat (Z.to_nat sx) "#" row 5 (Z.to_nat i)
                ltac:(lia) ltac:(lia)) as Hcell.
  simpl in Hcell |- *. by rewrite Hcell.
Qed.

Lemma initDisplay_shield_witness :
  5 <= 20 /\ too_short 9 siege_game = false
  /\ window_size 9 20 (blank_screen 9 20)
  /\ forall i, 0 <= i < 5 ->
       mvinch (initDisplay 9 20 (blank_screen 9 20) siege_game).1 4 (8 + i)
       = "#"%char.
Proof.
  split; [lia|]. split; [reflexivity|].
  split; [apply window_size_blank|].
  apply (initDisplay_shield 9 20 (blank_screen 9 20) siege_game);
    [lia | reflexivity | apply window_size_blank].
Defined.

(** ** The shield on the window *)

(** What [mvinch] reads after the shield has been redrawn at column [x]. *)
Lemma mvinch_draw_shield h w s y x y' x' :
  window_size h w s -> 0 <= y < h -> 0 <= x -> x + 5 <= w ->
  mvinch (draw_shield s y x) y' x'
  = if (y' =? y) && (x <=? x') && (x' <? x + 5) then "#"%char
    else mvinch s y' x'.
Proof.
  intros Hs Hy Hx Hw. unfold draw_shield.
  change (seqZ 0 5) with [0; 1; 2; 3; 4]. simpl.
  rewrite !(mvinch_put h w) by (auto 10 using window_size_put || lia).
  destruct (Z.eqb_spec y' y); simpl; [|done].
  repeat (case_match; try lia; try done).
Qed.

(** X11: a key that moves the shield redraws it: afterwards the five
    cells from its new column on hold ['#'], the cell it has left holds a
    blank, and every other position of the window reads as before.  A key
    that does not move the shield leaves the window as it is. *)
Theorem shield_redrawn height width key s g b :
  window_size height width s ->
  0 <= shieldY (defender g) < height ->
  0 <= shieldX (defender g) <= width - 5 ->
  let r := startDef_key width key s g b in
  let sy := shieldY (defender g) in
  let x := shieldX (defender g) in
  let x' := shieldX (defender r.1.2) in
  (x' = x -> r.1.1 = s)
  /\ (x' <> x ->
      forall y c,
        mvinch r.1.1 y c
        = if (y =? sy) && (x' <=? c) && (c <? x' + 5) then "#"%char
          else if (y =? sy) && (c =? (if x' <? x then x + 4 else x))
               then " "%char
          else mvinch s y c).
Proof.
  intros Hs Hy Hx r sy x x'. subst r x'. unfold startDef_key. fold sy x.
  destruct (key =? char_code "q"); simpl; [done|].
  destruct (key =? KEY_LEFT).
  { destruct (Z.gtb_spec x 0); simpl; [|done]. split; [lia|]. intros _ y c.
    rewrite (mvinch_draw_shield height width)
      by (auto using window_size_put || lia).
    rewrite (mvinch_put height width) by (done || lia).
    replace (x - 1 <? x) with true by lia. done. }
  destruct (key =? KEY_RIGHT); [|done].
  destruct (Z.ltb_spec x (width - 5)); simpl; [|done]. split; [lia|].
  intros _ y c.
  rewrite (mvinch_draw_shield height width)
    by (auto using window_size_put || lia).
  rewrite (mvinch_put height width) by (done || lia).
  replace (x + 1 <? x) with false by lia. done.
Qed.

Lemma shield_redrawn_witness :
  let g := (initDisplay 9 20 (blank_screen 9 20) siege_game).2 in
  let s := (initDisplay 9 20 (blank_screen 9 20) siege_game).1 in
  window_size 9 20 s
  /\ 0 <= shieldY (defender g) < 9
  /\ 0 <= shieldX (defender g) <= 20 - 5
  /\ (shieldX (defender (startDef_key 20 KEY_LEFT s g true).1.2)
      <> shieldX (defender g) ->
      forall y c,
        mvinch (startDef_key 20 KEY_LEFT s g true).1.1 y c
        = if (y =? 4) && (7 <=? c) && (c <? 7 + 5) then "#"%char
          else if (y =? 4) && (c =? 12) then " "%char
          else mvinch s y c).
Proof.
  intros g s.
  assert (window_size 9 20 s) as Hs
    by apply window_size_initDisplay, window_size_blank.
  assert (0 <= shieldY (defender g) < 9) as Hy
    by (change (0 <= 4 < 9); lia).
  assert (0 <= shieldX (defender g) <= 20 - 5) as Hx
    by (change (0 <= 8 <= 20 - 5); lia).
  split; [exact Hs|]. split; [exact Hy|]. split; [exact Hx|].
  exact (proj2 (shield_redrawn 9 20 KEY_LEFT s g true Hs Hy Hx)).
Defined.

(** ** A round of the missile loop on the window *)

(** A round that does not explode, inside the window: the missile leaves
    its cell as it found it and is drawn one row down. *)
Lemma launchMissile_tick_falling height s g m pc :
  my m + 1 < height ->
  mc (launchMissile_tick height s g m pc).1.2 <> "*"%char ->
  let c := mvinch s (my m + 1) (mx m) in
  launchMissile_tick height s g m pc
  = (put (put s (my m) (mx m) pc) (my m + 1) (mx m) (mc m), g,
     {| mx := mx m; my := my m + 1; mc := mc m |},
     if wiped c then " "%char else c).
Proof.
  intros Hy Hmc c.
  assert (cell_ahead height s (my m + 1) (mx m) = c) as Hc.
  { unfold cell_ahead. by replace (my m + 1 >=? height) with false by lia. }
  rewrite launchMissile_tick_mc in Hmc. simpl in Hmc. rewrite Hc in Hmc.
  unfold launchMissile_tick. rewrite cell_ahead_erased, Hc.
  replace (my m <? height) with true by lia.
  replace (my m + 1 <? height) with true by lia.
  destruct (Ascii.eqb c "#" || Ascii.eqb c "*"
            && (my m + 1 <? height - tallest g)); [done|].
  destruct (my m + 1 =? impact_row height g (mx m)); [done|].
  fold (wiped c).
  destruct (wiped c); simpl;
    by destruct (Ascii.eqb_spec (mc m) "*").
Qed.

(** X12: a missile whose next cell holds the shield glyph ['#'], or holds
    ['*'] on or above the row of the shield, explodes: the city and the
    remembered glyph stay as they are, the cell it enters shows ['*'] and the
    cell it leaves shows ['?']. *)
Theorem missile_stopped_by_shield height width s g m pc :
  window_size height width s ->
  0 <= mx m < width -> 0 <= my m -> my m + 1 < height ->
  let c := cell_ahead height s (my m + 1) (mx m) in
  c = "#"%char
  \/ (c = "*"%char /\ my m + 1 <= height - Z.max 2 (tallest g) - 2) ->
  let r := launchMissile_tick height s g m pc in
  mc r.1.2 = "*"%char /\ r.1.1.2 = g /\ r.2 = pc
  /\ mvinch r.1.1.1 (my m + 1) (mx m) = "*"%char
  /\ mvinch r.1.1.1 (my m) (mx m) = "?"%char.
Proof.
  intros Hs Hx Hy Hy' c Hc r. subst r.
  unfold launchMissile_tick. rewrite cell_ahead_erased. fold c.
  assert (Ascii.eqb c "#" || Ascii.eqb c "*"
          && (my m + 1 <? height - tallest g) = true) as ->.
  { destruct Hc as [->|[-> Hrow]]; [done|]. simpl. lia. }
  simpl. replace (my m <? height) with true by lia.
  replace (my m + 1 <? height) with true by lia.
  replace (my m + 1 <=? height) with true by lia.
  replace (my m + 1 - 1) with (my m) by lia.
  repeat split.
  - rewrite !(mvinch_put height width) by (auto using window_size_put || lia).
    replace (my m + 1 =? my m) with false by lia. simpl.
    by rewrite !Z.eqb_refl.
  - rewrite !(mvinch_put height width) by (auto using window_size_put || lia).
    by rewrite !Z.eqb_refl.
Qed.

Lemma missile_stopped_by_shield_witness :
  let s := (initDisplay 9 20 (blank_screen 9 20) siege_game).1 in
  let m := {| mx := 9; my := 3; mc := "|" |} in
  window_size 9 20 s /\ 0 <= mx m < 20 /\ 0 <= my m /\ my m + 1 < 9
  /\ cell_ahead 9 s (my m + 1) (mx m) = "#"%char
  /\ mc (launchMissile_tick 9 s siege_game m " ").1.2 = "*"%char.
Proof.
  intros s m.
  assert (window_size 9 20 s) as Hs
    by apply window_size_initDisplay, window_size_blank.
  assert (0 <= mx m < 20) as Hx by (change (0 <= 9 < 20); lia).
  assert (0 <= my m) as Hy by (change (0 <= 3); lia).
  assert (my m + 1 < 9) as Hy' by (change (3 + 1 < 9); lia).
  assert (cell_ahead 9 s (my m + 1) (mx m) = "#"%char) as Hc by reflexivity.
  split; [exact Hs|]. split; [exact Hx|]. split; [exact Hy|].
  split; [exact Hy'|]. split; [exact Hc|].
  exact (proj1 (missile_stopped_by_shield 9 20 s siege_game m " " Hs Hx Hy Hy'
                  (or_introl Hc))).
Defined.

(** X13: a missile that reaches the impact row of its column (and is not
    stopped above it) explodes.  A column of the configured city loses
    exactly one unit of height, unless it is 2 high, in which case it is
    left alone; the other columns keep their height.  A column right of the
    configured city counts as 2 high and nothing changes. *)
Theorem column_hit height s g m pc :
  let c := cell_ahead height s (my m + 1) (mx m) in
  c <> "#"%char ->
  ~ (c = "*"%char /\ my m + 1 < height - tallest g) ->
  my m + 1 = impact_row height g (mx m) ->
  let r := launchMissile_tick height s g m pc in
  mc r.1.2 = "*"%char
  /\ (forall hgt, 0 <= mx m -> layout g !! Z.to_nat (mx m) = Some hgt ->
      layout r.1.1.2
      = if hgt =? 2 then layout g
        else <[Z.to_nat (mx m) := hgt - 1]> (layout g))
  /\ (size g <= mx m -> layout r.1.1.2 = layout g).
Proof.
  intros c Hshield Hmark Hrow r. subst r.
  rewrite launchMissile_tick_mc, launchMissile_tick_layout. simpl. fold c.
  assert (Ascii.eqb c "#" || Ascii.eqb c "*"
          && (my m + 1 <? height - tallest g) = false) as ->.
  { destruct (Ascii.eqb_spec c "#"); [done|]. simpl.
    destruct (Ascii.eqb_spec c "*"); [|done]. simpl.
    destruct (Z.ltb_spec (my m + 1) (height - tallest g)); [|done].
    by destruct Hmark. }
  rewrite Hrow, Z.eqb_refl. split; [done|]. split.
  - intros hgt Hx Hh. pose proof (lookup_lt_Some _ _ _ Hh) as Hlt.
    unfold size, layout_at. rewrite Hh. simpl.
    replace (mx m <? Z.of_nat (length (layout g))) with true by lia.
    simpl. by destruct (hgt =? 2).
  - intros Hout. by replace (mx m <? size g) with false by lia.
Qed.

Lemma column_hit_witness :
  let s := (initDisplay 9 20 (blank_screen 9 20) siege_game).1 in
  let m := {| mx := 0; my := 6; mc := "|" |} in
  cell_ahead 9 s (my m + 1) (mx m) <> "#"%char
  /\ ~ (cell_ahead 9 s (my m + 1) (mx m) = "*"%char
        /\ my m + 1 < 9 - tallest siege_game)
  /\ my m + 1 = impact_row 9 siege_game (mx m)
  /\ mc (launchMissile_tick 9 s siege_game m " ").1.2 = "*"%char.
Proof.
  intros s m.
  assert (cell_ahead 9 s (my m + 1) (mx m) <> "#"%char) as H1
    by (vm_compute; discriminate).
  assert (~ (cell_ahead 9 s (my m + 1) (mx m) = "*"%char
             /\ my m + 1 < 9 - tallest siege_game)) as H2
    by (intros [H _]; vm_compute in H; discriminate).
  assert (my m + 1 = impact_row 9 siege_game (mx m)) as H3 by reflexivity.
  split; [exact H1|]. split; [exact H2|]. split; [exact H3|].
  exact (proj1 (column_hit 9 s siege_game m " " H1 H2 H3)).
Defined.

(** X14: two rounds in a row without explosion, inside the window.  After
    the first the missile has left its cell showing the glyph it remembered
    and is drawn one row down; after the second the cell it has passed
    through shows again what it showed before, except that a wall, roof or
    explosion glyph (['|'], ['_'], ['?'], ['*']) has become a blank. *)
Theorem missile_passes height width s g m pc :
  window_size height width s ->
  0 <= mx m < width -> 0 <= my m -> my m + 2 < height ->
  let t1 := launchMissile_tick height s g m pc in
  let t2 := launchMissile_tick height t1.1.1.1 t1.1.1.2 t1.1.2 t1.2 in
  mc t1.1.2 <> "*"%char -> mc t2.1.2 <> "*"%char ->
  let c := mvinch s (my m + 1) (mx m) in
  mvinch t1.1.1.1 (my m) (mx m) = pc
  /\ mvinch t1.1.1.1 (my m + 1) (mx m) = mc m
  /\ mvinch t2.1.1.1 (my m + 1) (mx m) = (if wiped c then " "%char else c)
  /\ mvinch t2.1.1.1 (my m + 2) (mx m) = mc m
  /\ t2.1.1.2 = g.
Proof.
  intros Hs Hx Hy Hy' t1 t2 Hmc1 Hmc2 c.
  assert (t1 = (put (put s (my m) (mx m) pc) (my m + 1) (mx m) (mc m), g,
                {| mx := mx m; my := my m + 1; mc := mc m |},
                if wiped c then " "%char else c)) as Ht1.
  { apply launchMissile_tick_falling; [lia|done]. }
  assert (window_size height width t1.1.1.1) as Hs1.
  { rewrite Ht1. simpl. auto using window_size_put. }
  subst t2. rewrite Ht1 in Hmc2 |- *. simpl in Hmc2 |- *.
  rewrite launchMissile_tick_falling in Hmc2 |- * by (simpl; done || lia).
  simpl.
  rewrite !(mvinch_put height width) by (auto 10 using window_size_put || lia).
  replace (my m =? my m + 1) with false by lia.
  replace (my m + 1 =? my m + 1 + 1) with false by lia.
  replace (my m + 1 + 1) with (my m + 2) by lia.
  rewrite !Z.eqb_refl. simpl. done.
Qed.

Lemma missile_passes_witness :
  let s := (initDisplay 9 20 (blank_screen 9 20) siege_game).1 in
  let m := {| mx := 1; my := 4; mc := "|" |} in
  let t1 := launchMissile_tick 9 s siege_game m " " in
  let t2 := launchMissile_tick 9 t1.1.1.1 t1.1.1.2 t1.1.2 t1.2 in
  window_size 9 20 s /\ 0 <= mx m < 20 /\ 0 <= my m /\ my m + 2 < 9
  /\ mc t1.1.2 <> "*"%char /\ mc t2.1.2 <> "*"%char
  /\ mvinch s 6 1 = "_"%char
  /\ mvinch t2.1.1.1 (my m + 2) (mx m) = "|"%char.
Proof.
  intros s m t1 t2.
  assert (window_size 9 20 s) as Hs
    by apply window_size_initDisplay, window_size_blank.
  assert (0 <= mx m < 20) as Hx by (change (0 <= 1 < 20); lia).
  assert (0 <= my m) as Hy by (change (0 <= 4); lia).
  assert (my m + 2 < 9) as Hy' by (change (4 + 2 < 9); lia).
  assert (mc t1.1.2 <> "*"%char) as H1 by (vm_compute; discriminate).
  assert (mc t2.1.2 <> "*"%char) as H2 by (vm_compute; discriminate).
  split; [exact Hs|]. split; [exact Hx|]. split; [exact Hy|].
  split; [exact Hy'|]. split; [exact H1|]. split; [exact H2|].
  split; [reflexivity|].
  exact (proj1 (proj2 (proj2 (proj2
           (missile_passes 9 20 s siege_game m " " Hs Hx Hy Hy' H1 H2))))).
Defined.

(** ** The threads, again *)

Section ThreadInvariants.

Variables height width : Z.

(** The missile of a round keeps the glyph ['|'] unless the round is its
    last. *)
Lemma launchMissile_tick_glyph s g m pc :
  mc m = "|"%char ->
  let m' := (launchMissile_tick height s g m pc).1.2 in
  missile_next height m' = MLoop -> mc m' = "|"%char.
Proof.
  intros Hmc m' Hnext. subst m'. unfold missile_next in Hnext.
  destruct (my _ >? height); [done|].
  destruct (Ascii.eqb (mc _) "*") eqn:He; [done|].
  pose proof (launchMissile_tick_mc height s g m pc) as Hm. simpl in Hm.
  rewrite Hm in He |- *.
  repeat case_match; simplify_eq/=; done.
Qed.

Lemma missile_step_placed k w w' :
  missile_step height k w = Some w' ->
  Forall (missile_placed width) (batch w) ->
  Forall (missile_placed width) (batch w').
Proof.
  unfold missile_step. intros Hs Hinv.
  destruct (batch w !! k) as [t|] eqn:Hk; [|done].
  pose proof (Forall_lookup_1 _ _ _ _ Hinv Hk) as (Hx & Hy & Hmc).
  unfold returned in Hmc.
  destruct (m_pc t) eqn:Hpc; [| |done].
  - destruct (launchMissile_start _ _) as [s pc].
    injection Hs as <-. simpl.
    apply Forall_insert; [done|].
    split; [done|]. split; [done|]. intros _. by apply Hmc.
  - destruct (launchMissile_tick _ _ _ _ _) as [[[s g] m] pc] eqn:Ht.
    pose proof (launchMissile_tick_glyph (scr w) (game w) (missile t)
                  (prevc t)) as Hglyph.
    rewrite Ht in Hglyph. simpl in Hglyph.
    apply launchMissile_tick_frame in Ht as (Hx' & Hy' & _).
    injection Hs as <-. simpl.
    apply Forall_insert; [done|].
    unfold missile_placed, returned. simpl. rewrite Hx', Hy'.
    split; [done|]. split; [lia|]. intros Hloop.
    apply Hglyph; [by apply Hmc|].
    unfold missile_next in *. by repeat case_match.
Qed.

Lemma exec_placed l w w' :
  1 <= width ->
  exec height width l w = Some w' ->
  Forall (missile_placed width) (batch w) ->
  Forall (missile_placed width) (batch w').
Proof.
  intros Hw Hl Hinv. destruct l as [key|rnd ok|k]; simpl in Hl.
  - apply def_step_frame in Hl as (_ & _ & _ & _ & -> & _). done.
  - unfold atk_step in Hl.
    destruct (a_pc (ath w)); simplify_eq/=; try done.
    + destruct ok; [done|].
      by destruct (startAtk_nomem_frame height width w) as (_ & _ & _ & ->).
    + destruct (gameOver (game w)); simplify_eq/=; [done|]. constructor.
    + destruct (a_i (ath w) <? packetSize (ath w)); simplify_eq/=; [|done].
      destruct (Z.ltb_spec rnd 0); simplify_eq/=.
      apply Forall_app. split; [done|]. repeat constructor; simpl.
      * by apply Z.rem_bound_pos; lia.
      * apply Z.rem_bound_pos; lia.
      * lia.
    + destruct (startAtk_test (game w)) as [n stop].
      by destruct stop; simplify_eq/=.
    + by case_match; simplify_eq/=.
  - by eapply missile_step_placed.
Qed.

Lemma exec_packet_slots l w w' :
  1 <= width ->
  exec height width l w = Some w' -> packet_slots width w ->
  packet_slots width w'.
Proof.
  intros Hw Hl [Hlen Hpc]. destruct l as [key|rnd ok|k]; simpl in Hl.
  - apply def_step_frame in Hl as (_ & _ & _ & Ha & Hb & _).
    unfold packet_slots. by rewrite Ha, Hb.
  - pose proof (startAtk_packetSize_range width Hw) as HP.
    unfold atk_step in Hl. unfold packet_slots.
    destruct (a_pc (ath w)) eqn:Ha.
    + injection Hl as <-. destruct ok; simpl.
      * split; [done|]. lia.
      * destruct (startAtk_nomem_frame height width w) as (_ & _ & _ & ->).
        split; [done|]. lia.
    + destruct (gameOver (game w)); injection Hl as <-; simpl; [done|].
      split; [done|]. lia.
    + destruct (Z.ltb_spec (a_i (ath w)) (packetSize (ath w))).
      * destruct (rnd <? 0); [done|]. injection Hl as <-. simpl.
        rewrite length_app. simpl. split; lia.
      * injection Hl as <-. done.
    + destruct (startAtk_test (game w)) as [n stop].
      destruct stop; injection Hl as <-; done.
    + destruct (forallb _ _); [|done]. injection Hl as <-. done.
    + injection Hl as <-. done.
    + done.
  - apply missile_step_frame in Hl as (_ & _ & _ & _ & _ & Ha & Hb).
    unfold packet_slots. by rewrite Ha, Hb.
Qed.

Lemma exec_between_packets l w w' :
  exec height width l w = Some w' ->
  (atk_between_packets (ath w) = true ->
   Forall (fun t => returned t = true) (batch w)) ->
  atk_between_packets (ath w') = true ->
  Forall (fun t => returned t = true) (batch w').
Proof.
  intros Hl Hinv. destruct l as [key|rnd ok|k]; simpl in Hl.
  - apply def_step_frame in Hl as (_ & _ & _ & -> & -> & _). done.
  - unfold atk_step in Hl. unfold atk_between_packets in *.
    destruct (a_pc (ath w)) eqn:Ha; simplify_eq/=.
    + destruct ok; simpl; [auto|].
      destruct (startAtk_nomem_frame height width w) as (_ & _ & _ & ->).
      auto.
    + destruct (gameOver (game w)); simplify_eq/=; [auto|done].
    + by repeat case_match; simplify_eq/=.
    + destruct (startAtk_test (game w)) as [n stop].
      by destruct stop; simplify_eq/=.
    + destruct (forallb _ _) eqn:Hall; simplify_eq/=. intros _.
      apply Forall_forall. intros t Ht. apply list_elem_of_In in Ht.
      exact (proj1 (forallb_forall _ _) Hall t Ht).
    + auto.
  - intros Hbetween.
    pose proof (missile_step_frame _ _ _ _ Hl) as (_ & _ & _ & _ & _ & Ha & _).
    rewrite Ha in Hbetween. specialize (Hinv Hbetween).
    unfold missile_step in Hl.
    destruct (batch w !! k) as [t|] eqn:Hk; [|done].
    pose proof (Forall_lookup_1 _ _ _ _ Hinv Hk) as Hdone.
    unfold returned in Hdone. simpl in Hdone. by destruct (m_pc t).
Qed.

Lemma exec_spawn_slack l w w' :
  exec height width l w = Some w' -> gameOver (game w) = true ->
  (spawned (ath w') + spawn_slack (ath w')
   <= spawned (ath w) + spawn_slack (ath w))%nat.
Proof.
  intros Hl Hgo. destruct l as [key|rnd ok|k]; simpl in Hl.
  - apply def_step_frame in Hl as (_ & _ & _ & -> & _). done.
  - unfold atk_step in Hl. unfold spawn_slack.
    destruct (a_pc (ath w)) eqn:Ha; simplify_eq/=.
    + done.
    + rewrite Hgo in Hl. simplify_eq/=. done.
    + repeat case_match; simplify_eq/=; lia.
    + unfold startAtk_test in Hl. rewrite Hgo in Hl. simplify_eq/=. done.
    + case_match; simplify_eq/=. done.
    + done.
  - apply missile_step_frame in Hl as (_ & _ & _ & _ & _ & -> & _). done.
Qed.

Lemma exec_budget_frozen l w w' :
  exec height width l w = Some w' -> gameOver (game w) = true ->
  totalMissiles (attacker (game w')) = totalMissiles (attacker (game w)).
Proof.
  intros Hl Hgo. destruct l as [key|rnd ok|k]; simpl in Hl.
  - apply def_step_frame in Hl as (-> & _). done.
  - unfold atk_step in Hl.
    destruct (a_pc (ath w)) eqn:Ha; simplify_eq/=; try done.
    + destruct ok; [done|].
      by destruct (startAtk_nomem_frame height width w) as (-> & _).
    + by rewrite Hgo in Hl; simplify_eq/=.
    + by repeat case_match; simplify_eq/=.
    + unfold startAtk_test in Hl. rewrite Hgo in Hl. by simplify_eq/=.
    + by case_match; simplify_eq/=.
  - apply missile_step_frame in Hl as (_ & -> & _). done.
Qed.

Lemma exec_no_attack l w w' :
  exec height width l w = Some w' -> no_attack w -> no_attack w'.
Proof.
  intros Hl (Hgo & Hpc & Hb). unfold no_attack.
  destruct l as [key|rnd ok|k]; simpl in Hl.
  - pose proof (exec_gameOver height width (Def key) w w' Hl Hgo) as Hgo'.
    apply def_step_frame in Hl as (_ & _ & _ & -> & -> & _). done.
  - unfold atk_step in Hl. unfold atk_between_packets in *.
    destruct (a_pc (ath w)) eqn:Ha; simplify_eq/=; try done.
    rewrite Hgo in Hl. by simplify_eq/=.
  - unfold missile_step in Hl. by rewrite Hb in Hl.
Qed.

End ThreadInvariants.

Section ThreadRuns.

Variables height width : Z.



(** What no step changes: the names, the row of the shield, the recorded
    height of the tallest column and the number of columns. *)
Lemma exec_settings l w w' :
  exec height width l w = Some w' ->
  d_name (defender (game w')) = d_name (defender (game w))
  /\ shieldY (defender (game w')) = shieldY (defender (game w))
  /\ a_name (attacker (game w')) = a_name (attacker (game w))
  /\ tallest (game w') = tallest (game w)
  /\ length (layout (game w')) = length (layout (game w)).
Proof.
  intros Hl.
  pose proof (exec_erodes _ _ _ _ _ Hl) as [He%Forall2_length _].
  assert (d_name (defender (game w')) = d_name (defender (game w))
          /\ shieldY (defender (game w')) = shieldY (defender (game w))
          /\ a_name (attacker (game w')) = a_name (attacker (game w))
          /\ tallest (game w') = tallest (game w)) as (Hd & Hy & Ha & Ht).
  { destruct l as [key|rnd ok|k]; simpl in Hl.
    - unfold def_step in Hl.
      destruct (d_pc (dth w)); simplify_eq/=; try done.
      destruct (startDef_key _ _ _ _ _) as [[s g] b] eqn:Hk.
      apply startDef_key_frame in Hk as (Ha & _ & Ht & Hn & Hy & _).
      simplify_eq/=. by rewrite Ha, Ht, Hn, Hy.
    - apply atk_step_frame in Hl as (Hd & _ & Ht & Ha & _).
      by rewrite Hd, Ht, Ha.
    - apply missile_step_frame in Hl as (Hd & Ha & _ & Ht & _).
      by rewrite Hd, Ht, Ha. }
  by rewrite Hd, Hy, Ha, Ht, He.
Qed.

End ThreadRuns.

(** X15: every missile of the current packet is in a column of the field
    and at row 2 or below, and it shows ['|'] until its thread has
    returned. *)
Theorem missiles_in_field filename file height width evs w0 ls w k t :
  1 <= width ->
  main 2 filename file height width = (evs, Some w0) ->
  run height width ls w0 = Some w ->
  batch w !! k = Some t ->
  0 <= mx (missile t) < width
  /\ 2 <= my (missile t)
  /\ (returned t = false -> mc (missile t) = "|"%char).
Proof.
  intros Hw Hmain Hrun Hk.
  apply main_started in Hmain as (g & _ & _ & ->).
  destruct (start_world_fields height width g) as (_ & _ & _ & _ & _ & Hb).
  assert (Forall (missile_placed width) (batch w)) as Hinv.
  { eapply (run_invariant height width
      (fun w => Forall (missile_placed width) (batch w))); [|..|done].
    - intros l w1 w2 Hw1 Hl. by eapply exec_placed.
    - rewrite Hb. constructor. }
  exact (Forall_lookup_1 _ _ _ _ Hinv Hk).
Qed.

Lemma missiles_in_field_witness :
  1 <= 20
  /\ main 2 "siege.cfg" (Some siege_file) 9 20 = ([Initscr], Some siege_world)
  /\ exists w t,
       run 9 20 (launches 1 ++ [Msl 0; Msl 0]) siege_world = Some w
       /\ batch w !! 0%nat = Some t
       /\ 0 <= mx (missile t) < 20
       /\ 2 <= my (missile t)
       /\ (returned t = false -> mc (missile t) = "|"%char).
Proof.
  split; [lia|]. split; [reflexivity|].
  eexists. eexists. split; [vm_compute; reflexivity|].
  split; [reflexivity|].
  eapply (missiles_in_field "siege.cfg" (Some siege_file) 9 20 [Initscr]
            siege_world (launches 1 ++ [Msl 0; Msl 0]) _ 0%nat);
    [lia | reflexivity | vm_compute; reflexivity | reflexivity].
Defined.

(** X16: the missile threads of the current packet are as many as the
    attacker's [i] counts, and never more than [packetSize], so never more
    than 8. *)
Theorem packet_within_size filename file height width evs w0 ls w :
  1 <= width ->
  main 2 filename file height width = (evs, Some w0) ->
  run height width ls w0 = Some w ->
  Z.of_nat (length (batch w)) = a_i (ath w)
  /\ a_i (ath w) <= startAtk_packetSize width
  /\ startAtk_packetSize width <= 8
  /\ (a_pc (ath w) <> AtkStart ->
      packetSize (ath w) = startAtk_packetSize width).
Proof.
  intros Hw Hmain Hrun.
  apply main_started in Hmain as (g & _ & _ & ->).
  destruct (start_world_fields height width g) as (_ & _ & _ & _ & Ha & Hb).
  assert (packet_slots width w) as [Hlen Hpc].
  { eapply (run_invariant height width (packet_slots width)); [|..|done].
    - intros l w1 w2 Hw1 Hl. by eapply exec_packet_slots.
    - unfold packet_slots. by rewrite Ha, Hb. }
  pose proof (startAtk_packetSize_range width Hw) as HP.
  split; [done|]. destruct (a_pc (ath w)); (split; [lia|]); (split; [lia|]);
    intros Hne; try done; by destruct Hpc.
Qed.

Lemma packet_within_size_witness :
  1 <= 20
  /\ main 2 "siege.cfg" (Some siege_file) 9 20 = ([Initscr], Some siege_world)
  /\ exists w,
       run 9 20 (launches 4) siege_world = Some w
       /\ Z.of_nat (length (batch w)) = a_i (ath w).
Proof.
  split; [lia|]. split; [reflexivity|].
  eexists. split; [vm_compute; reflexivity|].
  refine (proj1 (packet_within_size "siege.cfg" (Some siege_file) 9 20
                   [Initscr] siege_world (launches 4) _ _ _ _));
    [lia | reflexivity | vm_compute; reflexivity].
Defined.

(** X17: the attacker is at the start of a packet, or past its loops, only
    when every missile thread of the packet before has returned: it joins
    them all first. *)
Theorem packet_joined filename file height width evs w0 ls w :
  main 2 filename file height width = (evs, Some w0) ->
  run height width ls w0 = Some w ->
  atk_between_packets (ath w) = true ->
  Forall (fun t => returned t = true) (batch w).
Proof.
  intros Hmain Hrun.
  apply main_started in Hmain as (g & _ & _ & ->).
  destruct (start_world_fields height width g) as (_ & _ & _ & _ & _ & Hb).
  eapply (run_invariant height width
    (fun w => atk_between_packets (ath w) = true ->
              Forall (fun t => returned t = true) (batch w))); [|..|done].
  - intros l w1 w2 Hw1 Hl. by eapply exec_between_packets.
  - intros _. rewrite Hb. constructor.
Qed.

Lemma packet_joined_witness :
  main 2 "siege.cfg" (Some siege_file) 9 20 = ([Initscr], Some siege_world)
  /\ exists w,
       run 9 20 volley_schedule siege_world = Some w
       /\ atk_between_packets (ath w) = true
       /\ Forall (fun t => returned t = true) (batch w).
Proof.
  split; [reflexivity|].
  eexists. split; [vm_compute; reflexivity|]. split; [reflexivity|].
  eapply (packet_joined "siege.cfg" (Some siege_file) 9 20 [Initscr]
            siege_world volley_schedule);
    [reflexivity | vm_compute; reflexivity | reflexivity].
Defined.



Section CallocFails.

Variables height width : Z.

(** The attacker does not come back to its start. *)
Lemma exec_at_start l w w' :
  exec height width l w = Some w' -> a_pc (ath w') = AtkStart ->
  a_pc (ath w) = AtkStart
  /\ (batch w = [] ->
      (exists key, l = Def key) /\ batch w' = [] /\ ath w' = ath w
      /\ layout (game w') = layout (game w)
      /\ attacker (game w') = attacker (game w)).
Proof.
  intros Hl Hpc. destruct l as [key|rnd ok|k]; simpl in Hl.
  - apply def_step_frame in Hl as (Ha & Hlay & _ & Hath & Hb & _).
    rewrite Hath in Hpc. split; [done|]. intros Hempty.
    split; [by eexists|]. by rewrite Hb, Hath, Hlay, Ha.
  - unfold atk_step in Hl.
    destruct (a_pc (ath w)) eqn:Ha; [| | | | | |done].
    + injection Hl as <-. done.
    + destruct (gameOver (game w)); injection Hl as <-; done.
    + destruct (_ <? _); [destruct (_ <? _); [done|]|];
        injection Hl as <-; done.
    + destruct (startAtk_test (game w)) as [n stop].
      destruct stop; injection Hl as <-; done.
    + destruct (forallb _ _); [|done]. injection Hl as <-. done.
    + injection Hl as <-. done.
  - pose proof (missile_step_frame _ _ _ _ Hl)
      as (_ & _ & _ & _ & _ & Hath & _).
    rewrite Hath in Hpc. split; [done|]. intros Hempty.
    unfold missile_step in Hl. by rewrite Hempty in Hl.
Qed.

Lemma run_at_start ls : forall w w',
  run height width ls w = Some w' -> a_pc (ath w') = AtkStart ->
  batch w = [] ->
  Forall (fun l => exists key, l = Def key) ls
  /\ batch w' = [] /\ ath w' = ath w
  /\ layout (game w') = layout (game w)
  /\ attacker (game w') = attacker (game w).
Proof.
  induction ls as [|l ls IH]; intros w w' Hrun Hpc Hb; simpl in Hrun.
  { by simplify_eq. }
  destruct (exec height width l w) as [w1|] eqn:Hl; [|done].
  assert (a_pc (ath w1) = AtkStart) as Hpc1.
  { clear IH Hl Hb. revert w1 Hrun.
    induction ls as [|l' ls IH']; intros w1 Hrun; simpl in Hrun.
    { by simplify_eq. }
    destruct (exec height width l' w1) as [w2|] eqn:Hl'; [|done].
    specialize (IH' _ Hrun). by apply (exec_at_start _ _ _ Hl'). }
  destruct (exec_at_start _ _ _ Hl Hpc1) as [_ Hstep].
  destruct (Hstep Hb) as (Hkey & Hb1 & Ha1 & Hl1 & Hat1).
  destruct (IH _ _ Hrun Hpc Hb1) as (Hls & ? & ? & ? & ?).
  split; [by apply Forall_cons|]. split; [done|].
  split; [congruence|]. split; congruence.
Qed.

(** Once the attack is over before a missile was created, none ever is. *)
Lemma run_no_attack ls : forall w w',
  run height width ls w = Some w' -> no_attack w ->
  spawned (ath w) = 0%nat ->
  gameOver (game w') = true
  /\ spawned (ath w') = 0%nat
  /\ batch w' = []
  /\ layout (game w') = layout (game w)
  /\ totalMissiles (attacker (game w')) = totalMissiles (attacker (game w))
  /\ Forall (fun l => forall k, l <> Msl k) ls.
Proof.
  induction ls as [|l ls IH]; intros w1 w Hrun Hno1 Hs1; simpl in Hrun.
  { simplify_eq. destruct Hno1 as (? & _ & ?). done. }
  destruct (exec height width l w1) as [w2|] eqn:Hl; [|done].
  pose proof (exec_no_attack _ _ _ _ _ Hl Hno1) as Hno2.
  destruct Hno1 as (Hgo1 & Hpc1 & Hb1').
  pose proof (exec_spawn_slack _ _ _ _ _ Hl Hgo1) as Hslack.
  pose proof (exec_budget_frozen _ _ _ _ _ Hl Hgo1) as Hfrozen.
  assert (layout (game w2) = layout (game w1) /\ forall k, l <> Msl k)
    as [Hlay Hl'].
  { destruct l as [key|rnd' ok|k]; simpl in Hl.
    - by apply def_step_frame in Hl as (_ & -> & _).
    - by apply atk_step_frame in Hl as (_ & -> & _).
    - unfold missile_step in Hl. by rewrite Hb1' in Hl. }
  assert (spawned (ath w2) = 0%nat) as Hs2.
  { unfold spawn_slack in Hslack. destruct (a_pc (ath w1)); try done; lia. }
  destruct (IH w2 w Hrun Hno2 Hs2) as (? & ? & ? & ? & ? & ?).
  rewrite <- Hlay, <- Hfrozen. repeat split; try done.
  by apply Forall_cons.
Qed.

End CallocFails.

(** X19: when [calloc] fails in [startAtk], at whatever point of the run
    the attacker takes this first step of its own, the flag is set at once,
    and before and after it no missile is ever created, no missile thread
    takes a step, the city is never hit and the counter of the budget is
    never touched: the attacker can only announce the end of the attack and
    return. *)
Theorem calloc_failure_ends_attack
    filename file height width evs w0 ls0 w1 rnd ls w :
  main 2 filename file height width = (evs, Some w0) ->
  run height width ls0 w0 = Some w1 ->
  a_pc (ath w1) = AtkStart ->
  run height width (Atk rnd false :: ls) w1 = Some w ->
  gameOver (game w) = true
  /\ spawned (ath w) = 0%nat
  /\ created height width (ls0 ++ Atk rnd false :: ls) w0 = 0%nat
  /\ batch w = []
  /\ layout (game w) = layout (game w0)
  /\ totalMissiles (attacker (game w)) = totalMissiles (attacker (game w0))
  /\ Forall (fun l => forall k, l <> Msl k) (ls0 ++ ls).
Proof.
  intros Hmain Hrun0 Hstart Hrun.
  apply main_started in Hmain as (g & _ & _ & ->).
  destruct (start_world_fields height width g) as (_ & _ & _ & _ & Ha & Hb).
  set (w0 := start_world height width g) in *.
  destruct (run_at_start height width ls0 w0 w1 Hrun0 Hstart Hb)
    as (Hls0 & Hb1 & Ha1 & Hlay1 & Hatk1).
  assert (run height width (ls0 ++ Atk rnd false :: ls) w0 = Some w)
    as Hall by by rewrite run_app, Hrun0.
  pose proof (run_created height width _ _ _ Hall) as Hcount.
  simpl in Hrun. unfold atk_step in Hrun. rewrite Hstart in Hrun.
  simpl in Hrun.
  destruct (startAtk_nomem_frame height width w1) as (Hg2 & _ & Ha2 & Hb2).
  set (w2 := with_ath _ (startAtk_nomem height width w1)) in *.
  assert (no_attack w2) as Hno2.
  { unfold no_attack. subst w2. simpl. rewrite Hg2, Hb2. done. }
  assert (spawned (ath w2) = 0%nat) as Hs2.
  { subst w2. simpl. by rewrite Ha1, Ha. }
  destruct (run_no_attack height width ls w2 w Hrun Hno2 Hs2)
    as (Hgo & Hs & Hbw & Hlay & Htot & Hls).
  assert (layout (game w2) = layout (game w1)
          /\ totalMissiles (attacker (game w2))
             = totalMissiles (attacker (game w1))) as [Hl2 Ht2].
  { subst w2. simpl. by rewrite Hg2. }
  split; [done|]. split; [done|]. split.
  { rewrite Hs, Ha in Hcount. simpl in Hcount. lia. }
  split; [done|]. split; [congruence|]. split; [congruence|].
  apply Forall_app. split; [|done].
  eapply Forall_impl; [exact Hls0|]. by intros l [key ->] k.
Qed.

Lemma calloc_failure_ends_attack_witness :
  main 2 "siege.cfg" (Some siege_file) 9 20 = ([Initscr], Some siege_world)
  /\ exists w1 w,
       run 9 20 [Def 0; Def KEY_LEFT] siege_world = Some w1
       /\ a_pc (ath w1) = AtkStart
       /\ run 9 20 [Atk 0 false; Def 0; Atk 0 true; Atk 0 true] w1 = Some w
       /\ gameOver (game w) = true /\ spawned (ath w) = 0%nat.
Proof.
  split; [reflexivity|].
  eexists. eexists. split; [vm_compute; reflexivity|].
  split; [reflexivity|]. split; [vm_compute; reflexivity|].
  refine (let H := calloc_failure_ends_attack "siege.cfg" (Some siege_file)
                     9 20 [Initscr] siege_world [Def 0; Def KEY_LEFT] _ 0
                     [Def 0; Atk 0 true; Atk 0 true] _ _ _ _ _ in
          conj (proj1 H) (proj1 (proj2 H)));
    [reflexivity | vm_compute; reflexivity | reflexivity
    | vm_compute; reflexivity].
Defined.

(** X20: no step of any thread changes the names, the row of the shield,
    the recorded height [tallest] of the tallest column (not even when that
    column is hit) or the number of columns of the city. *)
Theorem run_keeps_settings height width ls w w' :
  run height width ls w = Some w' ->
  d_name (defender (game w')) = d_name (defender (game w))
  /\ shieldY (defender (game w')) = shieldY (defender (game w))
  /\ a_name (attacker (game w')) = a_name (attacker (game w))
  /\ tallest (game w') = tallest (game w)
  /\ length (layout (game w')) = length (layout (game w)).
Proof.
  revert w w'. induction ls as [|l ls IH]; intros w w' Hrun; simpl in *.
  { by simplify_eq. }
  destruct (exec height width l w) as [w1|] eqn:Hl; [|done].
  destruct (exec_settings _ _ _ _ _ Hl) as (<- & <- & <- & <- & <-).
  by apply IH.
Qed.

Lemma run_keeps_settings_witness :
  exists w',
    run 9 20 volley_schedule siege_world = Some w'
    /\ tallest (game w') = tallest (game siege_world)
    /\ layout (game w') <> layout (game siege_world).
Proof.
  eexists. split; [vm_compute; reflexivity|].
  split; [|vm_compute; discriminate].
  refine (proj1 (proj2 (proj2 (proj2
    (run_keeps_settings 9 20 volley_schedule siege_world _ _)))));
    vm_compute; reflexivity.
Defined.

(** ** Messages *)

Lemma quot_rem_inj w a b :
  Z.quot a w = Z.quot b w -> Z.rem a w = Z.rem b w -> a = b.
Proof.
  intros Hq Hr.
  rewrite (Z.quot_rem' a w), (Z.quot_rem' b w). by rewrite Hq, Hr.
Qed.

Lemma message_cell_inj width r0 c i j :
  message_cell width r0 c i = message_cell width r0 c j -> i = j.
Proof.
  unfold message_cell. intros [= Hq Hr].
  assert (c + Z.of_nat i = c + Z.of_nat j) as Heq; [|lia].
  apply (quot_rem_inj width); [lia|done].
Qed.

Section Messages.

Variables height width : Z.

Hypothesis width_pos : 1 <= width.

Lemma message_cell_in_window s r0 c i :
  window_size height width s -> 0 <= r0 -> 0 <= c ->
  (message_cell width r0 c i).1 < height ->
  in_window s (message_cell width r0 c i).1 (message_cell width r0 c i).2.
Proof.
  intros Hs Hr Hc Hlt. apply (in_window_size height width); [done|].
  unfold message_cell in *. simpl in *.
  pose proof (Z.quot_pos (c + Z.of_nat i) width).
  pose proof (Z.rem_bound_pos (c + Z.of_nat i) width). lia.
Qed.

(** The [while] loop only moves down, and stays in the window. *)
Lemma displayMessage_row_range fuel s c : forall r r1,
  r < height ->
  displayMessage_row height fuel s r c = Some r1 -> r <= r1 < height.
Proof.
  induction fuel as [|fuel IH]; intros r r1 Hr Hrow; simpl in Hrow.
  { simplify_eq. lia. }
  destruct (_ && _); [|simplify_eq; lia].
  destruct (_ || _); [simplify_eq; lia|].
  destruct (Z.geb_spec (r + 1) height); [done|].
  apply IH in Hrow; lia.
Qed.

(** From rows 0 and 1 the loop does not move. *)
Lemma displayMessage_row_top fuel s r c :
  r = 0 \/ r = 1 -> displayMessage_row height fuel s r c = Some r.
Proof.
  intros Hr. destruct fuel as [|fuel]; simpl; [done|].
  destruct (_ && _); [|done].
  by destruct Hr as [-> | ->].
Qed.

(** What the [for] loop has written when it succeeds. *)
Lemma displayMessage_chars_spec str : forall s r c s' c',
  window_size height width s -> 0 <= r -> 0 <= c ->
  displayMessage_chars height width str s r c = (s', Some c') ->
  c' = c + Z.of_nat (String.length str)
  /\ (forall i ch, String.get i str = Some ch ->
        mvinch s' (message_cell width r c i).1 (message_cell width r c i).2
        = ch)
  /\ (forall y x,
        (forall i, (i < String.length str)%nat ->
                   (y, x) <> message_cell width r c i) ->
        mvinch s' y x = mvinch s y x).
Proof.
  induction str as [|ch0 str IH]; intros s r c s' c' Hs Hr Hc Hd;
    simpl in Hd.
  { simplify_eq. simpl. split; [lia|]. split; [done|done]. }
  destruct (Z.geb_spec (Z.quot c width + r) height) as [|Hfit]; [done|].
  apply IH in Hd as (Hc' & Hget & Hout);
    [|by apply window_size_put|done|lia].
  assert (forall i, message_cell width r (c + 1) i
                    = message_cell width r c (S i)) as Hcell.
  { intros i. unfold message_cell. by rewrite Nat2Z.inj_succ, <- !Z.add_1_l,
      !Z.add_assoc. }
  assert (message_cell width r c 0 = (Z.quot c width + r, Z.rem c width))
    as Hcell0.
  { unfold message_cell. simpl. by rewrite Z.add_0_r. }
  split; [simpl String.length; lia|]. split.
  - intros [|i] ch Hi; simpl in Hi.
    + simplify_eq. rewrite Hout.
      * rewrite Hcell0. simpl. apply mvinch_put_same.
        pose proof (message_cell_in_window s r c 0 Hs Hr Hc) as Hin.
        rewrite Hcell0 in Hin. simpl in Hin. by apply Hin.
      * intros i _ Heq. rewrite Hcell in Heq.
        rewrite <- surjective_pairing in Heq.
        by apply message_cell_inj in Heq.
    + rewrite <- Hcell. by apply Hget.
  - intros y x Hyx. rewrite Hout.
    + apply mvinch_put_other.
      specialize (Hyx 0%nat). rewrite Hcell0 in Hyx. simpl in Hyx.
      destruct (decide (y = Z.quot c width + r)) as [->|]; [|by left].
      destruct (decide (x = Z.rem c width)) as [->|]; [|by right].
      exfalso. apply Hyx; [lia|done].
    + intros i Hi. rewrite Hcell. apply Hyx. simpl. lia.
Qed.

(** When the [for] loop succeeds. *)
Lemma displayMessage_chars_fits str : forall s r c,
  0 <= c ->
  Z.quot (c + Z.of_nat (String.length str) - 1) width + r < height ->
  exists c', (displayMessage_chars height width str s r c).2 = Some c'.
Proof.
  induction str as [|ch0 str IH]; intros s r c Hc Hfit; simpl.
  { by eexists. }
  assert (Z.quot c width
          <= Z.quot (c + Z.of_nat (String.length (String ch0 str)) - 1) width)
    as Hle.
  { apply Z.quot_le_mono; [lia|]. simpl String.length. lia. }
  destruct (Z.geb_spec (Z.quot c width + r) height) as [|_]; [lia|].
  apply IH; [lia|].
  replace (c + 1 + Z.of_nat (String.length str) - 1)
    with (c + Z.of_nat (String.length (String ch0 str)) - 1); [done|].
  simpl String.length. lia.
Qed.

End Messages.

(** X21: [displayMessage] of a printable text either fails and leaves
    [*r] and [*c] as they were, or succeeds: then it has written the message
    from some row [r0], at or below the row asked for, one character per
    cell and wrapping at the right edge, [mvinch] reads each character back
    from its cell, every other position of the window reads as before, [*c]
    has advanced by the length of the message and [*r] is the row after the
    last full line. *)
Theorem displayMessage_writes height width s str r c b :
  all_printable str = true ->
  1 <= width -> 0 <= c -> window_size height width s ->
  let res := displayMessage height width s str r c b in
  (res.2 = false -> res.1.1.2 = r /\ res.1.2 = c)
  /\ (res.2 = true ->
      res.1.2 = c + Z.of_nat (String.length str)
      /\ exists r0,
           0 <= r <= r0 /\ r0 < height
           /\ res.1.1.2 = r0 + Z.quot res.1.2 width
           /\ (forall i ch, String.get i str = Some ch ->
                 mvinch res.1.1.1 (message_cell width r0 c i).1
                        (message_cell width r0 c i).2 = ch)
           /\ (forall y x,
                 (forall i, (i < String.length str)%nat ->
                            (y, x) <> message_cell width r0 c i) ->
                 mvinch res.1.1.1 y x = mvinch s y x)).
Proof.
  intros _ Hw Hc Hs res. subst res. unfold displayMessage.
  destruct (Z.geb_spec r height) as [|Hr]; [done|].
  destruct (Z.ltb_spec r 0) as [|Hr0]; [done|]. simpl.
  destruct (displayMessage_row _ _ _ _ _) as [r1|] eqn:Hrow; [|done].
  apply displayMessage_row_range in Hrow; [|done].
  set (skip := negb (r1 =? 0) && _ && _ && _ && _).
  destruct (Z.geb_spec (r1 + 1) height) as [Hlast|Hlast].
  - destruct skip; simpl; [done|].
    destruct (displayMessage_chars _ _ _ _ _ _) as [s' [c'|]] eqn:Hd;
      [|done].
    split; [done|]. intros _.
    apply displayMessage_chars_spec in Hd as (-> & Hget & Hout);
      [|done|done|lia|done].
    split; [done|]. exists r1. simpl. repeat split; try done; lia.
  - rewrite andb_false_r.
    destruct (displayMessage_chars _ _ _ _ _ _) as [s' [c'|]] eqn:Hd;
      [|done].
    split; [done|]. intros _.
    apply displayMessage_chars_spec in Hd as (-> & Hget & Hout);
      [|done|done|destruct skip; lia|done].
    split; [done|]. exists (if skip then r1 + 1 else r1). simpl.
    repeat split; try done; destruct skip; lia.
Qed.

Lemma displayMessage_writes_witness :
  all_printable "The " = true
  /\ 1 <= 20 /\ 0 <= 18 /\ window_size 9 20 (blank_screen 9 20)
  /\ let res := displayMessage 9 20 (blank_screen 9 20) "The " 3 18 true in
     res.2 = true /\ res.1.2 = 18 + Z.of_nat (String.length "The ").
Proof.
  split; [reflexivity|].
  split; [lia|]. split; [lia|]. split; [apply window_size_blank|].
  split; [reflexivity|].
  refine (proj1 (proj2 (displayMessage_writes 9 20 (blank_screen 9 20) "The "
                          3 18 true _ _ _ _) _));
    [reflexivity | lia | lia | apply window_size_blank | reflexivity].
Defined.

(** X22: in a window with room for it, the world in which [main] starts
    the threads shows the instructions from the top left corner on, one
    character per cell and wrapping at the right edge. *)
Theorem main_shows_instructions filename file height width evs w0 :
  1 <= width ->
  Z.of_nat (String.length instructions) <= width * height ->
  main 2 filename file height width = (evs, Some w0) ->
  forall i ch, String.get i instructions = Some ch ->
    mvinch (scr w0) (Z.quot (Z.of_nat i) width) (Z.rem (Z.of_nat i) width)
    = ch.
Proof.
  intros Hw Hroom Hmain i ch Hi.
  apply main_started in Hmain as (g & _ & Hh%too_short_height & ->).
  unfold start_world.
  pose proof (window_size_initDisplay height width
                (blank_screen height width) g
                (window_size_blank height width)) as Hs.
  destruct (initDisplay height width (blank_screen height width) g)
    as [s g'] eqn:Hinit. simpl in Hs.
  unfold displayMessage.
  destruct (Z.geb_spec 0 height) as [|_]; [lia|]. simpl orb. cbv iota.
  rewrite displayMessage_row_top by (by left). simpl negb. simpl andb.
  cbv iota.
  destruct (displayMessage_chars_fits height width Hw instructions s 0 0)
    as [c' Hc']; [done| |].
  { assert (String.length instructions = 48%nat) as Hlen by done.
    rewrite Hlen in *. rewrite Z.add_0_r.
    apply Z.quot_lt_upper_bound; lia. }
  destruct (displayMessage_chars _ _ _ _ _ _) as [s' oc] eqn:Hd.
  simpl in Hc'. subst oc.
  apply (displayMessage_chars_spec height width Hw) in Hd
    as (_ & Hget & _); [|done|done|done].
  specialize (Hget i ch Hi). unfold message_cell in Hget. simpl in Hget.
  by rewrite Z.add_0_r in Hget.
Qed.

Lemma main_shows_instructions_witness :
  1 <= 20 /\ Z.of_nat (String.length instructions) <= 20 * 9
  /\ main 2 "siege.cfg" (Some siege_file) 9 20 = ([Initscr], Some siege_world)
  /\ String.get 21 instructions = Some "e"%char
  /\ mvinch (scr siege_world) 1 1 = "e"%char.
Proof.
  split; [lia|]. split; [vm_compute; discriminate|]. split; [reflexivity|].
  split; [reflexivity|].
  apply (main_shows_instructions "siege.cfg" (Some siege_file) 9 20 [Initscr]
           siege_world ltac:(lia) ltac:(vm_compute; discriminate) eq_refl
           21%nat "e"%char eq_refl).
Defined.

(** ** The city on the window *)

Ltac cmp_cases :=
  repeat first
    [ done
    | lia
    | match goal with
      | |- context [Z.ltb ?a ?b] => destruct (Z.ltb_spec a b); simpl
      | |- context [Z.leb ?a ?b] => destruct (Z.leb_spec a b); simpl
      | |- context [Z.eqb ?a ?b] => destruct (Z.eqb_spec a b); simpl
      | |- context [Z.gtb ?a ?b] => destruct (Z.gtb_spec a b); simpl
      | |- context [Z.geb ?a ?b] => destruct (Z.geb_spec a b); simpl
      end ].

Lemma mvinch_blank h w y x :
  0 <= y < h -> 0 <= x < w -> mvinch (blank_screen h w) y x = " "%char.
Proof.
  intros Hy Hx. unfold mvinch, blank_screen.
  replace (y <? 0) with false by lia. replace (x <? 0) with false by lia.
  simpl. rewrite lookup_replicate_2 by lia.
  by rewrite lookup_replicate_2 by lia.
Qed.

(** A cell of a window of [h] rows of [w] cells, as [mvinch] reads it. *)
Lemma mvinch_lookup h w s y x :
  window_size h w s -> 0 <= y < h -> 0 <= x < w ->
  exists r, s !! Z.to_nat y = Some r /\ length r = Z.to_nat w
            /\ r !! Z.to_nat x = Some (mvinch s y x).
Proof.
  intros [Hh Hw] Hy Hx.
  destruct (lookup_lt_is_Some_2 s (Z.to_nat y)) as [r Hr]; [lia|].
  pose proof (Forall_lookup_1 _ _ _ _ Hw Hr) as Hlen. simpl in Hlen.
  destruct (lookup_lt_is_Some_2 r (Z.to_nat x)) as [c Hc]; [lia|].
  exists r. split; [done|]. split; [done|].
  unfold mvinch. replace (y <? 0) with false by lia.
  replace (x <? 0) with false by lia. simpl. by rewrite Hr, Hc.
Qed.

Lemma delch_row_lookup x r j :
  (x < length r)%nat ->
  delch_row x r !! j
  = if (j <? x)%nat then r !! j
    else if (S j <? length r)%nat then r !! S j
    else if (j <? length r)%nat then Some " "%char else None.
Proof.
  intros Hx. unfold delch_row.
  assert ((x <? length r)%nat = true) as -> by by apply Nat.ltb_lt.
  assert (length (take x r) = x) as Htake by (rewrite length_take; lia).
  destruct (Nat.ltb_spec j x) as [Hj|Hj].
  - rewrite lookup_app_l by lia. by rewrite lookup_take_lt.
  - rewrite lookup_app_r by lia. rewrite Htake.
    destruct (Nat.ltb_spec (S j) (length r)) as [Hlt|Hge].
    + rewrite lookup_app_l by (rewrite length_drop; lia).
      rewrite lookup_drop. f_equal. lia.
    + rewrite lookup_app_r by (rewrite length_drop; lia).
      rewrite length_drop.
      destruct (Nat.ltb_spec j (length r)) as [Hlt|Hge'].
      * by replace (j - x - (length r - S x))%nat with 0%nat by lia.
      * by replace (j - x - (length r - S x))%nat
          with (S (j - length r))%nat by lia.
Qed.

(** On a row that is blank from [x] on, [insch] overwrites the cell. *)
Lemma insch_row_blank x ch r :
  (forall j, (x <= j < length r)%nat -> r !! j = Some " "%char) ->
  insch_row x ch r = <[x := ch]> r.
Proof.
  intros Hblank.
  destruct (Nat.ltb_spec x (length r)) as [Hx|Hx].
  2: { unfold insch_row. rewrite list_insert_ge by done.
       by destruct (Nat.ltb_spec x (length r)); [lia|]. }
  apply list_eq. intros j. rewrite insch_row_lookup by done.
  destruct (Nat.ltb_spec j x) as [Hj|Hj].
  { by rewrite list_lookup_insert_ne by lia. }
  destruct (Nat.eqb_spec j x) as [->|Hne].
  { by rewrite list_lookup_insert_eq. }
  rewrite list_lookup_insert_ne by lia.
  destruct (Nat.ltb_spec j (length r)) as [Hlt|Hge].
  - rewrite !Hblank by lia. done.
  - by rewrite lookup_ge_None_2.
Qed.

(** On a row that is blank after [x], [delch] blanks the cell. *)
Lemma delch_row_blank x r :
  (forall j, (x < j < length r)%nat -> r !! j = Some " "%char) ->
  delch_row x r = <[x := " "%char]> r.
Proof.
  intros Hblank.
  destruct (Nat.ltb_spec x (length r)) as [Hx|Hx].
  2: { unfold delch_row. rewrite list_insert_ge by done.
       by destruct (Nat.ltb_spec x (length r)); [lia|]. }
  apply list_eq. intros j. rewrite delch_row_lookup by done.
  destruct (Nat.ltb_spec j x) as [Hj|Hj].
  { by rewrite list_lookup_insert_ne by lia. }
  destruct (Nat.ltb_spec (S j) (length r)) as [Hlt|Hge].
  - rewrite Hblank by lia.
    destruct (decide (j = x)) as [->|Hne].
    + by rewrite list_lookup_insert_eq.
    + rewrite list_lookup_insert_ne by done. by rewrite Hblank by lia.
  - destruct (Nat.ltb_spec j (length r)) as [Hlt|Hge'].
    + destruct (decide (j = x)) as [->|Hne].
      * by rewrite list_lookup_insert_eq.
      * rewrite list_lookup_insert_ne by done. by rewrite Hblank by lia.
    + rewrite list_lookup_insert_ne by lia. by rewrite lookup_ge_None_2.
Qed.

Section CityWindow.

Variables height width : Z.

(** Overwriting a cell, whatever the row. *)
Lemma mvinch_put_any s y x ch y' x' :
  window_size height width s -> 0 <= x < width -> 0 <= y' < height ->
  mvinch (put s y x ch) y' x'
  = if (y' =? y) && (x' =? x) then ch else mvinch s y' x'.
Proof.
  intros Hs Hx Hy'.
  destruct (decide (0 <= y < height)) as [Hy|Hy].
  - by apply (mvinch_put height width).
  - rewrite mvinch_put_other by (left; lia).
    by destruct (Z.eqb_spec y' y); [lia|].
Qed.

Lemma mvinsch_blank s y x ch :
  window_size height width s -> 0 <= x < width ->
  (forall x', 0 <= y < height -> x <= x' < width ->
              mvinch s y x' = " "%char) ->
  mvinsch s y x ch = put s y x ch.
Proof.
  intros Hs Hx Hblank.
  destruct (Z.ltb_spec y 0) as [Hy|Hy].
  { unfold put, mvinsch, mvdelch. by replace (y <? 0) with true by lia. }
  rewrite put_alter by lia. unfold mvinsch.
  replace (y <? 0) with false by lia. replace (x <? 0) with false by lia.
  simpl. apply list_alter_ext; [|done]. intros r Hr.
  pose proof (lookup_lt_Some _ _ _ Hr) as Hlt.
  destruct Hs as [Hh Hw].
  pose proof (Forall_lookup_1 _ _ _ _ Hw Hr) as Hlen. simpl in Hlen.
  apply insch_row_blank. intros j Hj.
  destruct (mvinch_lookup height width s y (Z.of_nat j))
    as (r' & Hr' & _ & Hc); [done|lia|lia|].
  rewrite Hblank in Hc by lia. rewrite Nat2Z.id in Hc. by simplify_eq.
Qed.

Lemma mvdelch_blank s y x :
  window_size height width s -> 0 <= x < width ->
  (forall x', 0 <= y < height -> x < x' < width ->
              mvinch s y x' = " "%char) ->
  mvdelch s y x = put s y x " ".
Proof.
  intros Hs Hx Hblank.
  destruct (Z.ltb_spec y 0) as [Hy|Hy].
  { unfold put, mvinsch, mvdelch. by replace (y <? 0) with true by lia. }
  rewrite put_alter by lia. unfold mvdelch.
  replace (y <? 0) with false by lia. replace (x <? 0) with false by lia.
  simpl. apply list_alter_ext; [|done]. intros r Hr.
  pose proof (lookup_lt_Some _ _ _ Hr) as Hlt.
  destruct Hs as [Hh Hw].
  pose proof (Forall_lookup_1 _ _ _ _ Hw Hr) as Hlen. simpl in Hlen.
  apply delch_row_blank. intros j Hj.
  destruct (mvinch_lookup height width s y (Z.of_nat j))
    as (r' & Hr' & _ & Hc); [done|lia|lia|].
  rewrite Hblank in Hc by lia. rewrite Nat2Z.id in Hc. by simplify_eq.
Qed.

(** A wall drawn where the window is blank from its column on. *)
Lemma mvinch_wall_blank n : forall s lo x y' x',
  Z.of_nat n = Z.max 0 (height - 2 - lo + 1) ->
  window_size height width s -> 0 <= x < width -> 0 <= y' < height ->
  (forall j x'', 0 <= j < height -> lo <= j <= height - 2 ->
                 x <= x'' < width -> mvinch s j x'' = " "%char) ->
  mvinch (wall height s lo x) y' x'
  = if (x' =? x) && (lo <=? y') && (y' <=? height - 2) then "|"%char
    else mvinch s y' x'.
Proof.
  unfold wall.
  induction n as [|n IH]; intros s lo x y' x' Hn Hs Hx Hy' Hblank.
  { rewrite seqZ_nil by lia. simpl. cmp_cases. }
  rewrite seqZ_cons by lia. simpl.
  rewrite mvinsch_blank; [|done|done|intros; apply Hblank; lia].
  replace (Z.pred (height - 2 - lo + 1))
    with (height - 2 - Z.succ lo + 1) by lia.
  rewrite IH; [|lia|by apply window_size_put|done|done|].
  - rewrite mvinch_put_any by done. cmp_cases.
  - intros j x'' Hj Hlo Hx''. rewrite mvinch_put_any by done.
    destruct (Z.eqb_spec j lo); [lia|]. simpl. apply Hblank; lia.
Qed.

(** What [close_roof] leaves on the window, when the window is blank from
    column [i] on and, under a roof, in column [i - 1]. *)
Lemma mvinch_close_roof s prev i y' x' :
  window_size height width s -> 1 <= i <= width ->
  0 <= y' < height -> 0 <= x' < width ->
  (forall y x, 0 <= y < height -> i <= x < width ->
               mvinch s y x = " "%char) ->
  (mvinch s (height - prev) (i - 1) = "_"%char ->
   forall y, 0 <= y < height -> wall_row height prev y = true ->
             mvinch s y (i - 1) = " "%char) ->
  mvinch (close_roof height s prev i) y' x'
  = if Ascii.eqb (mvinch s (height - prev) (i - 1)) "_" && (x' =? i - 1)
    then (if y' =? height - prev then " "%char
          else if wall_row height prev y' then "|"%char
          else mvinch s y' x')
    else mvinch s y' x'.
Proof.
  intros Hs Hi Hy' Hx' Hblank Hwall. unfold close_roof.
  destruct (Ascii.eqb_spec (mvinch s (height - prev) (i - 1)) "_")
    as [Hroof|Hroof]; [|done]. simpl.
  specialize (Hwall Hroof).
  rewrite mvdelch_blank; [|done|lia|intros; apply Hblank; lia].
  set (s1 := put s (height - prev) (i - 1) " ").
  assert (window_size height width s1) as Hs1 by by apply window_size_put.
  rewrite (mvinch_wall_blank
             (Z.to_nat (Z.max 0 (height - 2 - (height - prev + 1) + 1))));
    [|lia|done|lia|done|].
  - subst s1. rewrite mvinch_put_any by (done || lia).
    unfold wall_row. cmp_cases.
  - intros j x'' Hj Hlo Hx''. subst s1.
    rewrite mvinch_put_any by (done || lia).
    destruct (Z.eqb_spec j (height - prev)); [lia|]. simpl.
    destruct (decide (x'' = i - 1)) as [->|Hne].
    + apply Hwall; [done|]. unfold wall_row. cmp_cases.
    + apply Hblank; lia.
Qed.

(** One round of the column loop, on a window that is blank from column
    [i] on and shows in column [i - 1] a column of height [prev] that follows
    one of height [p]. *)
Lemma initDisplay_column_glyphs g s p prev i y x :
  window_size height width s -> 0 <= i < width ->
  0 <= y < height -> 0 <= x < width ->
  (forall y x, 0 <= y < height -> i <= x < width ->
               mvinch s y x = " "%char) ->
  (1 <= i -> forall y, 0 <= y < height ->
             mvinch s y (i - 1) = column_glyph height p prev None y) ->
  (i = 0 -> prev = 2) ->
  let curr := column_height g i in
  let s' := (initDisplay_column height g (s, prev) i).1 in
  mvinch s' y x
  = if i <? x then " "%char
    else if x =? i then column_glyph height prev curr None y
    else if x =? i - 1 then column_glyph height p prev (Some curr) y
    else mvinch s y x.
Proof.
  intros Hs Hi Hy Hx Hblank Hprev Hfirst curr s'. subst s'.
  unfold initDisplay_column. fold (column_height g i). fold curr.
  cbv zeta. simpl fst.
  assert (1 <= i ->
          Ascii.eqb (mvinch s (height - prev) (i - 1)) "_"
          = has_roof p prev && (0 <=? height - prev)
            && (height - prev <? height)) as Hroof.
  { intros Hi1.
    destruct (decide (0 <= height - prev < height)) as [Hin|Hout].
    - rewrite Hprev by done. unfold column_glyph, has_roof, wall_row.
      cmp_cases.
    - assert (mvinch s (height - prev) (i - 1) = ERR) as ->.
      { unfold mvinch. destruct (Z.ltb_spec (height - prev) 0); [done|].
        simpl. destruct (Z.ltb_spec (i - 1) 0); [done|].
        destruct Hs as [Hh _]. by rewrite lookup_ge_None_2 by lia. }
      rewrite <- andb_assoc.
      replace ((0 <=? height - prev) && (height - prev <? height))
        with false by (symmetry; cmp_cases).
      by rewrite andb_false_r. }
  assert (forall y x, 0 <= y < height -> 0 <= x < width -> 1 <= i ->
            mvinch (close_roof height s prev i) y x
            = if has_roof p prev && (0 <=? height - prev)
                 && (height - prev <? height) && (x =? i - 1)
              then (if y =? height - prev then " "%char
                    else if wall_row height prev y then "|"%char
                    else mvinch s y x)
              else mvinch s y x) as Hclose.
  { intros y0 x0 Hy0 Hx0 Hi1. rewrite <- Hroof by done.
    apply mvinch_close_roof; try done; [lia|].
    intros Hr y1 Hy1 Hw1.
    assert (has_roof p prev = true) as Hhas.
    { apply Ascii.eqb_eq in Hr. rewrite Hroof in Hr by done.
      by destruct (has_roof p prev). }
    rewrite Hprev by done. unfold column_glyph. rewrite Hhas.
    unfold wall_row in Hw1. revert Hw1. cmp_cases. }
  assert (window_size height width (close_roof height s prev i)) as Hs1
    by by apply window_size_close_roof.
  assert (1 <= i -> forall x', 0 <= height - curr < height ->
            i <= x' < width ->
            mvinch (close_roof height s prev i) (height - curr) x'
            = " "%char) as Hblank1.
  { intros Hi1 x' Hrow Hx'. rewrite Hclose by lia.
    destruct (Z.eqb_spec x' (i - 1)); [lia|]. rewrite andb_false_r.
    apply Hblank; lia. }
  assert (i < x \/ x = i \/ x = i - 1 \/ x < i - 1) as Hcases by lia.
  destruct (Z.gtb_spec curr 2) as [Hc2|Hc2].
  - destruct (Z.eqb_spec curr prev) as [Heq|Hne].
    { rewrite mvinsch_blank; [|done|lia|intros; apply Hblank; lia].
      rewrite mvinch_put_any by (done || lia).
      destruct Hcases as [Hc|[->|[->|Hc]]];
        rewrite ?Hblank by lia; rewrite ?Hprev by lia;
        unfold column_glyph, has_roof, looks_back, wall_row; cmp_cases. }
    destruct (Z.ltb_spec curr prev) as [Hlt|Hge].
    { assert (1 <= i) as Hi1 by lia.
      rewrite mvinsch_blank; [|done|lia|by intros; apply Hblank1].
      rewrite mvinch_put_any by (done || lia). rewrite Hclose by done.
      destruct Hcases as [Hc|[->|[->|Hc]]];
        rewrite ?Hblank by lia; rewrite ?Hprev by lia;
        unfold column_glyph, has_roof, looks_back, wall_row; cmp_cases. }
    destruct (Z.gtb_spec curr prev) as [Hgt|Hle]; [|lia].
    rewrite (mvinch_wall_blank
               (Z.to_nat (Z.max 0 (height - 2 - (height - curr + 1) + 1))));
      [|lia|done|lia|done|intros; apply Hblank; lia].
    destruct Hcases as [Hc|[->|[->|Hc]]];
      rewrite ?Hblank by lia; rewrite ?Hprev by lia;
      unfold column_glyph, has_roof, looks_back, wall_row; cmp_cases.
  - destruct ((curr =? 1) || (curr =? 2)) eqn:Hlow.
    + destruct (Z.gtb_spec prev 2) as [Hp2|Hp2].
      * assert (1 <= i) as Hi1 by lia.
        rewrite mvinsch_blank; [|done|lia|by intros; apply Hblank1].
        rewrite mvinch_put_any by (done || lia). rewrite Hclose by done.
        revert Hlow.
        destruct Hcases as [Hc|[->|[->|Hc]]];
          rewrite ?Hblank by lia; rewrite ?Hprev by lia;
          unfold column_glyph, has_roof, looks_back, wall_row; cmp_cases.
      * rewrite mvinsch_blank; [|done|lia|intros; apply Hblank; lia].
        rewrite mvinch_put_any by (done || lia).
        revert Hlow.
        destruct Hcases as [Hc|[->|[->|Hc]]];
          rewrite ?Hblank by lia; rewrite ?Hprev by lia;
          unfold column_glyph, has_roof, looks_back, wall_row; cmp_cases.
    + revert Hlow.
      destruct Hcases as [Hc|[->|[->|Hc]]];
        rewrite ?Hblank by lia; rewrite ?Hprev by lia;
        unfold column_glyph, has_roof, looks_back, wall_row; cmp_cases.
Qed.

End CityWindow.

Lemma mvinch_mvinsch_other_row s y x ch y' x' :
  y' <> y -> mvinch (mvinsch s y x ch) y' x' = mvinch s y' x'.
Proof.
  intros Hne. unfold mvinsch. destruct ((y <? 0) || (x <? 0)) eqn:Hout; [done|].
  apply orb_false_iff in Hout as [Hy%Z.ltb_ge Hx%Z.ltb_ge].
  unfold mvinch. destruct ((y' <? 0) || (x' <? 0)) eqn:Hout'; [done|].
  apply orb_false_iff in Hout' as [Hy'%Z.ltb_ge Hx'%Z.ltb_ge].
  by rewrite list_lookup_alter_ne by lia.
Qed.

Section CityDrawn.

Variables height width : Z.

Lemma window_size_initDisplay_column g st i :
  window_size height width st.1 ->
  window_size height width (initDisplay_column height g st i).1.
Proof.
  destruct st as [s prev]. simpl. intros Hs.
  repeat case_match;
    repeat first [ done
                 | apply window_size_mvinsch
                 | apply window_size_wall
                 | apply window_size_close_roof ].
Qed.

Lemma initDisplay_column_prev g st i :
  (initDisplay_column height g st i).2 = column_height g i.
Proof. by destruct st. Qed.

(** The window after the first [n] rounds of the column loop. *)
Lemma initDisplay_columns g n :
  Z.of_nat n <= width ->
  let st := foldl (initDisplay_column height g)
                  (blank_screen height width, 2) (seqZ 0 (Z.of_nat n)) in
  window_size height width st.1
  /\ st.2 = prev_height g (Z.of_nat n)
  /\ forall y x, 0 <= y < height -> 0 <= x < width ->
       mvinch st.1 y x = city_upto height g (Z.of_nat n) y x.
Proof.
  induction n as [|n IH]; intros Hn st; subst st.
  { change (Z.of_nat 0) with 0. rewrite seqZ_nil by lia. simpl.
    split; [apply window_size_blank|]. split; [done|].
    intros y x Hy Hx. rewrite mvinch_blank by done.
    unfold city_upto. by destruct (Z.ltb_spec x 0); [lia|]. }
  rewrite seqZ_S, foldl_app. simpl foldl. rewrite Z.add_0_l.
  destruct IH as (Hs & Hprev & Hcells); [lia|].
  set (st := foldl _ _ _) in *. set (i := Z.of_nat n) in *.
  split; [by apply window_size_initDisplay_column|].
  split.
  { rewrite initDisplay_column_prev. unfold prev_height.
    destruct (Z.eqb_spec (Z.of_nat (S n)) 0); [lia|].
    f_equal. lia. }
  intros y x Hy Hx.
  pose proof (initDisplay_column_glyphs height width g st.1
                (prev_height g (i - 1)) st.2 i y x Hs) as Hstep.
  rewrite <- surjective_pairing in Hstep. rewrite Hstep; clear Hstep;
    [|lia|done|done|..].
  - rewrite Hprev. unfold city_upto.
    replace (Z.of_nat (S n)) with (i + 1) by lia.
    destruct (Z.ltb_spec i x) as [Hix|Hix].
    { by destruct (Z.ltb_spec x (i + 1)); [lia|]. }
    destruct (Z.eqb_spec x i) as [->|Hne].
    { destruct (Z.ltb_spec i (i + 1)); [|lia].
      by destruct (Z.ltb_spec (i + 1) (i + 1)); [lia|]. }
    destruct (Z.ltb_spec x (i + 1)); [|lia].
    destruct (Z.eqb_spec x (i - 1)) as [->|Hne'].
    { destruct (Z.ltb_spec (i - 1 + 1) (i + 1)); [|lia].
      assert (prev_height g i = column_height g (i - 1)) as ->.
      { unfold prev_height. by destruct (Z.eqb_spec i 0); [lia|]. }
      by replace (i - 1 + 1) with i by lia. }
    rewrite Hcells by done. unfold city_upto.
    destruct (Z.ltb_spec x i); [|lia].
    destruct (Z.ltb_spec (x + 1) i); [|lia].
    by destruct (Z.ltb_spec (x + 1) (i + 1)); [|lia].
  - intros y' x' Hy' Hx'. rewrite Hcells by lia. unfold city_upto.
    by destruct (Z.ltb_spec x' i); [lia|].
  - intros Hi1 y' Hy'. rewrite Hcells by lia. unfold city_upto.
    destruct (Z.ltb_spec (i - 1) i); [|lia].
    destruct (Z.ltb_spec (i - 1 + 1) i); [lia|].
    rewrite Hprev.
    assert (prev_height g i = column_height g (i - 1)) as ->; [|done].
    unfold prev_height. by destruct (Z.eqb_spec i 0); [lia|].
  - intros Hi0. rewrite Hprev. unfold prev_height.
    by destruct (Z.eqb_spec i 0); [|lia].
Qed.

End CityDrawn.

(** The loop that draws the shield leaves the other rows alone. *)
Lemma initDisplay_other_rows height width s g y x :
  y <> shieldY (defender (initDisplay height width s g).2) ->
  mvinch (initDisplay height width s g).1 y x
  = mvinch (foldl (initDisplay_column height g) (s, 2) (seqZ 0 width)).1 y x.
Proof.
  unfold initDisplay. cbn [fst snd]. intros Hrow. simpl in Hrow.
  set (sy := height - (if tallest g <? 2 then 2 else tallest g) - 2) in *.
  set (sx := Z.quot width 2 - 2).
  generalize (foldl (initDisplay_column height g) (s, 2) (seqZ 0 width)).1.
  generalize (seq 0 (String.length "#####")).
  induction l as [|k l IH]; intros s0; simpl; [done|].
  rewrite IH. by apply mvinch_mvinsch_other_row.
Qed.

(** X23: on a blank window [initDisplay] draws the city column by column:
    a column that is not higher than the one before it (or is 1 or 2 high)
    gets a roof ['_'] in the row of its height, a column that is higher than
    the one before it gets a wall ['|'] from below the row of its height down
    to row [height - 2], and a roofed column higher than 2 that is followed
    by a lower column loses its roof and gets a wall instead.  Every other
    cell outside the row of the shield is blank. *)
Theorem initDisplay_city height width g y x :
  0 <= y < height -> 0 <= x < width ->
  let r := initDisplay height width (blank_screen height width) g in
  y <> shieldY (defender r.2) ->
  mvinch r.1 y x = city_glyph height width g y x.
Proof.
  intros Hy Hx r Hrow. subst r. rewrite initDisplay_other_rows by done.
  destruct (initDisplay_columns height width g (Z.to_nat width))
    as (_ & _ & Hcells); [lia|].
  rewrite Z2Nat.id in Hcells by lia. rewrite Hcells by done.
  unfold city_upto, city_glyph. by destruct (Z.ltb_spec x width); [|lia].
Qed.

Lemma initDisplay_city_witness :
  let r := initDisplay 9 20 (blank_screen 9 20) siege_game in
  0 <= 6 < 9 /\ 0 <= 2 < 20 /\ 7 <> shieldY (defender r.2)
  /\ mvinch r.1 6 2 = " "%char /\ mvinch r.1 7 2 = "|"%char.
Proof.
  intros r.
  assert (6 <> shieldY (defender r.2)) as H6 by (change (6 <> 4); lia).
  assert (7 <> shieldY (defender r.2)) as H7 by (change (7 <> 4); lia).
  split; [lia|]. split; [lia|]. split; [exact H7|]. split.
  - exact (initDisplay_city 9 20 siege_game 6 2 ltac:(lia) ltac:(lia) H6).
  - exact (initDisplay_city 9 20 siege_game 7 2 ltac:(lia) ltac:(lia) H7).
Defined.

(** ** The message row *)

Section MessageRow.

Variables height width : Z.

Hypothesis width_pos : 1 <= width.

Lemma displayMessage_chars_col str : forall s r c s' c',
  displayMessage_chars height width str s r c = (s', Some c') ->
  c' = c + Z.of_nat (String.length str).
Proof.
  induction str as [|ch str IH]; intros s r c s' c' Hd; simpl in Hd.
  { simplify_eq. simpl. lia. }
  destruct (_ >=? _); [done|]. apply IH in Hd. simpl String.length. lia.
Qed.

(** [displayMessage] moves [*r] and [*c] forward only. *)
Lemma displayMessage_forward s str r c b :
  0 <= c ->
  let res := displayMessage height width s str r c b in
  r <= res.1.1.2 /\ c <= res.1.2.
Proof.
  intros Hc res. subst res. unfold displayMessage.
  destruct (Z.geb_spec r height) as [|Hr]; [simpl; lia|].
  destruct (Z.ltb_spec r 0) as [|Hr0]; [simpl; lia|]. simpl orb. cbv iota.
  destruct (displayMessage_row _ _ _ _ _) as [r1|] eqn:Hrow; [|simpl; lia].
  apply displayMessage_row_range in Hrow; [|done].
  destruct (_ && (r1 + 1 >=? height)); [simpl; lia|].
  destruct (displayMessage_chars _ _ _ _ _ _) as [s' [c'|]] eqn:Hd;
    [|simpl; lia].
  apply displayMessage_chars_col in Hd. simpl.
  pose proof (Z.quot_pos c' width). split; [|lia].
  destruct (negb (r1 =? 0) && _ && _ && _ && _); lia.
Qed.

Lemma say_forward str b s r c :
  0 <= c ->
  r <= (say height width str b (s, r, c)).1.2
  /\ 0 <= (say height width str b (s, r, c)).2.
Proof.
  intros Hc. unfold say.
  pose proof (displayMessage_forward s str r c b Hc) as H1.
  destruct (displayMessage height width s str r c b)
    as [[[s1 r1] c1] ok1]. simpl in H1.
  destruct ok1; [simpl; lia|].
  pose proof (displayMessage_forward s1 str 1 c1 false) as H2.
  destruct (displayMessage height width s1 str 1 c1 false)
    as [[[s2 r2] c2] ok2]. simpl in *.
  destruct (Z.gtb_spec r2 r1); lia.
Qed.

Lemma announce_forward name what w :
  0 <= col w ->
  col (announce height width name what w) = 0
  /\ row w <= row (announce height width name what w).
Proof.
  intros Hc. unfold announce. split; [done|].
  change (row (with_msg ?st w)) with (st.1.2).
  destruct (say height width "The " true (scr w, row w, col w))
    as [[s1 r1] c1] eqn:H1.
  pose proof (say_forward "The " true (scr w) (row w) (col w) Hc) as F1.
  rewrite H1 in F1. simpl in F1.
  destruct (say height width (default "" name) false (s1, r1, c1))
    as [[s2 r2] c2] eqn:H2.
  pose proof (say_forward (default "" name) false s1 r1 c1) as F2.
  rewrite H2 in F2. simpl in F2.
  pose proof (say_forward what false s2 r2 c2) as F3.
  destruct (say height width what false (s2, r2, c2)) as [[s3 r3] c3].
  simpl in *. lia.
Qed.

Lemma startAtk_nomem_forward w :
  col (startAtk_nomem height width w) = 0
  /\ row w <= row (startAtk_nomem height width w).
Proof.
  unfold startAtk_nomem.
  destruct (displayMessage _ _ _ _ _ _ _) as [[[s1 r1] c1] ok1].
  destruct (displayMessage _ _ _ _ _ _ _) as [[[s2 r2] c2] ok2]. simpl.
  destruct (Z.gtb_spec r2 (row w)); lia.
Qed.

Lemma exec_row l w w' :
  exec height width l w = Some w' -> col w = 0 ->
  col w' = 0 /\ row w <= row w'.
Proof.
  intros Hl Hc. destruct l as [key|rnd ok|k]; simpl in Hl.
  - unfold def_step in Hl. destruct (d_pc (dth w)); [| | |done].
    + injection Hl as <-. simpl. lia.
    + destruct (startDef_key _ _ _ _ _) as [[s g] b].
      injection Hl as <-. simpl. lia.
    + injection Hl as <-.
      apply (announce_forward (d_name (defender (game w)))
               " defense has ended." w). lia.
  - unfold atk_step in Hl.
    destruct (a_pc (ath w)); [| | | | | |done].
    + injection Hl as <-. destruct ok; [simpl; lia|].
      apply (startAtk_nomem_forward w).
    + destruct (gameOver (game w)); injection Hl as <-; simpl; lia.
    + destruct (_ <? _); [destruct (_ <? _); [done|]|];
        injection Hl as <-; simpl; lia.
    + destruct (startAtk_test (game w)) as [n stop].
      destruct stop; injection Hl as <-; simpl; lia.
    + destruct (forallb _ _); [|done]. injection Hl as <-. simpl. lia.
    + injection Hl as <-.
      apply (announce_forward (a_name (attacker (game w)))
               " attack has ended." w). lia.
  - unfold missile_step in Hl.
    destruct (batch w !! k) as [t|]; [|done].
    destruct (m_pc t); [| |done].
    + destruct (launchMissile_start _ _). injection Hl as <-. simpl. lia.
    + destruct (launchMissile_tick _ _ _ _ _) as [[[? ?] ?] ?].
      injection Hl as <-. simpl. lia.
Qed.

Lemma run_row ls : forall w w',
  run height width ls w = Some w' -> col w = 0 ->
  col w' = 0 /\ row w <= row w'.
Proof.
  induction ls as [|l ls IH]; intros w w' Hrun Hc; simpl in Hrun.
  { by simplify_eq. }
  destruct (exec height width l w) as [w1|] eqn:Hl; [|done].
  destruct (exec_row _ _ _ Hl Hc) as [Hc1 Hr1].
  destruct (IH _ _ Hrun Hc1) as [Hc' Hr']. split; [done|lia].
Qed.

End MessageRow.

(** X24: between the critical sections of the threads the global [col] is
    0, and the global [row], which starts at 2, never moves up: no
    announcement and no error message of [startAtk] leaves it above where it
    was. *)
Theorem message_row_forward filename file height width evs w0 ls w ls' w' :
  1 <= width ->
  main 2 filename file height width = (evs, Some w0) ->
  run height width ls w0 = Some w ->
  run height width ls' w = Some w' ->
  col w = 0 /\ 2 <= row w /\ row w <= row w'.
Proof.
  intros Hw Hmain Hrun Hrun'.
  apply main_started in Hmain as (g & _ & _ & ->).
  destruct (start_world_fields height width g) as (_ & Hr0 & Hc0 & _).
  destruct (run_row height width Hw ls _ _ Hrun Hc0) as [Hc Hr].
  destruct (run_row height width Hw ls' _ _ Hrun' Hc) as [_ Hr'].
  split; [done|]. split; [lia|done].
Qed.

Lemma message_row_forward_witness :
  1 <= 20
  /\ main 2 "siege.cfg" (Some siege_file) 9 20 = ([Initscr], Some siege_world)
  /\ exists w w',
       run 9 20 [Def 0; Def (char_code "q"); Def 0] siege_world = Some w
       /\ run 9 20 [Def 0; Atk 0 true; Atk 0 true; Atk 0 true] w = Some w'
       /\ col w = 0 /\ 2 <= row w /\ row w <= row w'.
Proof.
  split; [lia|]. split; [reflexivity|].
  eexists. eexists. split; [vm_compute; reflexivity|].
  split; [vm_compute; reflexivity|].
  eapply (message_row_forward "siege.cfg" (Some siege_file) 9 20 [Initscr]
            siege_world [Def 0; Def (char_code "q"); Def 0] _
            [Def 0; Atk 0 true; Atk 0 true; Atk 0 true]);
    [lia | reflexivity | vm_compute; reflexivity | vm_compute; reflexivity].
Defined.

(** ** The window at the start of the game *)

(** Whether it succeeds or not, the [for] loop of [displayMessage] writes
    in the cells of its message only. *)
Lemma displayMessage_chars_elsewhere height width str : forall s r c y x,
  (forall i, (i < String.length str)%nat ->
             (y, x) <> message_cell width r c i) ->
  mvinch (displayMessage_chars height width str s r c).1 y x = mvinch s y x.
Proof.
  induction str as [|ch0 str IH]; intros s r c y x Hyx; simpl; [done|].
  destruct (_ >=? _); [done|].
  rewrite IH.
  - apply mvinch_put_other.
    specialize (Hyx 0%nat). unfold message_cell in Hyx. simpl in Hyx.
    rewrite Z.add_0_r in Hyx.
    destruct (decide (y = Z.quot c width + r)) as [->|]; [|by left].
    destruct (decide (x = Z.rem c width)) as [->|]; [|by right].
    exfalso. apply Hyx; [lia|done].
  - intros i Hi.
    replace (message_cell width r (c + 1) i)
      with (message_cell width r c (S i)).
    + apply Hyx. simpl. lia.
    + unfold message_cell.
      by rewrite Nat2Z.inj_succ, <- !Z.add_1_l, !Z.add_assoc.
Qed.

(** X25: the window in which [main] starts the threads shows the city as
    [initDisplay] draws it in every cell that lies outside the row of the
    shield and after the cells the instructions take. *)
Theorem main_shows_city filename file height width evs w0 y x :
  1 <= width ->
  main 2 filename file height width = (evs, Some w0) ->
  0 <= y < height -> 0 <= x < width ->
  y <> shieldY (defender (game w0)) ->
  Z.of_nat (String.length instructions) <= y * width + x ->
  mvinch (scr w0) y x = city_glyph height width (game w0) y x.
Proof.
  intros Hw Hmain Hy Hx Hrow Hafter.
  apply main_started in Hmain as (g & _ & _ & ->).
  pose proof (initDisplay_other_rows height width
                (blank_screen height width) g y x) as Hcity.
  destruct (initDisplay_columns height width g (Z.to_nat width))
    as (_ & _ & Hcells); [lia|].
  rewrite Z2Nat.id in Hcells by lia. rewrite Hcells in Hcity by done.
  unfold start_world in *.
  destruct (initDisplay height width (blank_screen height width) g)
    as [s g'] eqn:Hinit.
  assert (g' = set_defender
                 (set_shield
                    (height - (if tallest g <? 2 then 2 else tallest g) - 2)
                    (Z.quot width 2 - 2) (defender g)) g) as Hg'.
  { unfold initDisplay in Hinit. by simplify_eq. }
  pose proof (displayMessage_chars_elsewhere height width instructions s 0 0
                y x) as Hkeep.
  assert (mvinch (displayMessage height width s instructions 0 0 false).1.1.1
                 y x = mvinch s y x) as Hmsg.
  { unfold displayMessage.
    destruct ((0 >=? height) || (0 <? 0)); [done|].
    rewrite displayMessage_row_top by (by left). simpl negb. simpl andb.
    cbv iota.
    assert (mvinch (displayMessage_chars height width instructions s 0 0).1
                   y x = mvinch s y x) as Hsame.
    { apply Hkeep. intros i Hi [= Hy' Hx'].
      rewrite Z.add_0_l in Hy', Hx'. rewrite Z.add_0_r in Hy'.
      pose proof (Z.quot_rem' (Z.of_nat i) width) as Hqr.
      rewrite <- Hy', <- Hx' in Hqr. nia. }
    by destruct (displayMessage_chars _ _ _ _ _ _) as [s' [c'|]]. }
  destruct (displayMessage height width s instructions 0 0 false)
    as [[[s' r'] c'] ok']. simpl in *.
  rewrite Hmsg, Hcity; [|by rewrite Hg' in *].
  rewrite Hg'. unfold city_upto, city_glyph.
  by destruct (Z.ltb_spec x width); [|lia].
Qed.

Lemma main_shows_city_witness :
  1 <= 20
  /\ main 2 "siege.cfg" (Some siege_file) 9 20 = ([Initscr], Some siege_world)
  /\ 0 <= 7 < 9 /\ 0 <= 3 < 20
  /\ 7 <> shieldY (defender (game siege_world))
  /\ Z.of_nat (String.length instructions) <= 7 * 20 + 3
  /\ mvinch (scr siege_world) 7 3 = "_"%char.
Proof.
  assert (7 <> shieldY (defender (game siege_world))) as Hrow
    by (change (7 <> 4); lia).
  assert (Z.of_nat (String.length instructions) <= 7 * 20 + 3) as Hafter
    by (change (48 <= 143); lia).
  split; [lia|]. split; [reflexivity|]. split; [lia|]. split; [lia|].
  split; [exact Hrow|]. split; [exact Hafter|].
  exact (main_shows_city "siege.cfg" (Some siege_file) 9 20 [Initscr]
           siege_world 7 3 ltac:(lia) eq_refl ltac:(lia) ltac:(lia)
           Hrow Hafter).
Defined.

(** ** The row of a message *)

Section MessagePlace.

Variable height : Z.

(** The [while] loop of [displayMessage] with enough fuel to reach the last
    row. *)
Lemma displayMessage_row_search s fuel : forall r,
  r < height -> height - r <= Z.of_nat fuel ->
  match displayMessage_row height fuel s r 0 with
  | Some r1 =>
      r <= r1 < height /\ row_taken s r1 = false
      /\ forall j, r <= j < r1 -> row_taken s j = true
  | None => forall j, r <= j < height -> row_taken s j = true
  end.
Proof.
  induction fuel as [|fuel IH]; intros r Hr Hfuel; simpl; [lia|].
  change (0 =? 0) with true. cbv iota. simpl andb.
  assert (row_taken s r
          = negb (Ascii.eqb (mvinch s r 0) " ")
            && negb (Ascii.eqb (mvinch s r 0) "|")
            && negb ((r =? 0) || (r =? 1))) as Htaken.
  { unfold row_taken. rewrite negb_orb. by rewrite andb_assoc. }
  destruct (negb (Ascii.eqb (mvinch s r 0) " ")
            && negb (Ascii.eqb (mvinch s r 0) "|")) eqn:Hcell.
  2: { split; [lia|]. rewrite Htaken. split; [done|lia]. }
  destruct ((r =? 0) || (r =? 1)) eqn:Htop.
  { split; [lia|]. rewrite Htaken. split; [done|lia]. }
  simpl in Htaken.
  destruct (Z.geb_spec (r + 1) height) as [Hlast|Hmore].
  { intros j Hj. by replace j with r by lia. }
  specialize (IH (r + 1)).
  destruct (displayMessage_row height fuel s (r + 1) 0) as [r1|].
  - destruct IH as (Hle & Hfree & Hbefore); [lia|lia|].
    split; [lia|]. split; [done|].
    intros j Hj. destruct (decide (j = r)) as [->|]; [done|].
    apply Hbefore. lia.
  - intros j Hj. destruct (decide (j = r)) as [->|]; [done|].
    apply IH; lia.
Qed.

(** Away from the first column the loop does not run. *)
Lemma displayMessage_row_inside s fuel r c :
  c <> 0 -> displayMessage_row height fuel s r c = Some r.
Proof.
  intros Hc. destruct fuel as [|fuel]; simpl; [done|].
  by destruct (Z.eqb_spec c 0).
Qed.

End MessagePlace.

(** X26: the loop with which [displayMessage] looks for the row of a new
    line ends within the window: started in the first column at a row of the
    window, it stops at the first row from there on that is not taken (rows 0
    and 1 never are, nor is a row whose first cell holds a blank or ['|']),
    and it gives up exactly when every row down to the last is taken;
    started in another column it does not move. *)
Theorem displayMessage_row_finds height s r c :
  0 <= r < height ->
  let res := displayMessage_row height (Z.to_nat height) s r c in
  (c <> 0 -> res = Some r)
  /\ (c = 0 ->
      match res with
      | Some r1 =>
          r <= r1 < height /\ row_taken s r1 = false
          /\ forall j, r <= j < r1 -> row_taken s j = true
      | None => forall j, r <= j < height -> row_taken s j = true
      end).
Proof.
  intros Hr res. subst res. split.
  - apply displayMessage_row_inside.
  - intros ->. apply displayMessage_row_search; lia.
Qed.

Lemma displayMessage_row_finds_witness :
  0 <= 2 < 9
  /\ displayMessage_row 9 (Z.to_nat 9) (scr siege_world) 2 0 = Some 3
  /\ row_taken (scr siege_world) 3 = false
  /\ forall j, 2 <= j < 3 -> row_taken (scr siege_world) j = true.
Proof.
  split; [lia|]. split; [reflexivity|].
  pose proof (proj2 (displayMessage_row_finds 9 (scr siege_world) 2 0
                       ltac:(lia)) eq_refl) as H.
  change (displayMessage_row 9 (Z.to_nat 9) (scr siege_world) 2 0)
    with (Some 3) in H.
  exact (proj2 H).
Defined.
